(** * VoidNexus: the proxy fleet commander and the hunter engine

    A shallow embedding of [src/lib/nexus-engine.ts] (class [NexusHunter]), of
    the proxy core it imports (class [ProxyCommander]) and of the three API
    routes that drive them, with the properties of the specification, and
    further properties of the code, stated and proved over it.

    The file has three parts: the embedding of the code; the observations,
    patterns and example worlds the properties speak of; the lemmas and the
    theorems.

    Conventions of the embedding.
    - A JavaScript string is a Rocq [string] holding its UTF-8 bytes.  Substring
      search and splitting on an ASCII separator agree on both encodings.
    - A JavaScript number that the code does arithmetic on with fractions
      (prices, multipliers) is a binary64 [float]; counters, delays, ports and
      latencies, which stay integral, are [nat] or [Z].
    - The outside world (environment variables, the store, HTTP, the headless
      browser, the clock) is a record of oracles, asked in order; the effects
      of a run are collected in an explicit state, whose [trace] logs every
      request with the answer it got; exceptions are results of their own.
    - A code unit on its own, which [substring] can leave when it cuts a
      character outside the basic plane in two, is held as its three bytes.
      [toLowerCase] maps the letters A-Z only: the two characters outside
      ASCII whose lower case has an ASCII letter (the Kelvin sign, and the
      dotted capital I, whose i is followed by a combining dot) cannot
      complete a keyword of the code.
    - A loop whose bound is not structural takes fuel, and [None] (or
      [false]) is a loop that has not ended when the fuel is spent.
    - Console output of the proxy core, which no property speaks of, is left
      out of [scrapeSources] and [validateBatch]; these two are functions of
      what their requests are answered. *)

From Stdlib Require Import String Ascii List ZArith Bool Lia Floats Permutation
  DecimalString.
Import ListNotations.

Local Open Scope string_scope.
Local Open Scope list_scope.

Set Warnings "-inexact-float".

(* ===================================================================== *)
(** ** JavaScript string operations *)
(* ===================================================================== *)

Module JsString.

(** [s.startsWith(p)] *)
Fixpoint startsWith (s p : string) {struct p} : bool :=
  match p, s with
  | EmptyString, _ => true
  | String _ _, EmptyString => false
  | String a p', String b s' => Ascii.eqb a b && startsWith s' p'
  end.

(** [s.includes(sub)]: some position of [s] starts with [sub]. *)
Fixpoint includes (s sub : string) : bool :=
  startsWith s sub ||
  match s with
  | EmptyString => false
  | String _ s' => includes s' sub
  end.

(** The propositional reading of [includes]. *)
Definition contains (s sub : string) : Prop :=
  exists pre post, s = (pre ++ sub ++ post)%string.

Definition lower_ascii (c : ascii) : ascii :=
  let n := nat_of_ascii c in
  if (65 <=? n)%nat && (n <=? 90)%nat then ascii_of_nat (n + 32) else c.

(** [s.toLowerCase()].  Bytes outside [A-Z] are left as they are: the code
    only searches the result for lower-case ASCII keywords, and no code
    point outside ASCII lower-cases to a sequence that completes one. *)
Fixpoint toLowerCase (s : string) : string :=
  match s with
  | EmptyString => EmptyString
  | String c s' => String (lower_ascii c) (toLowerCase s')
  end.

(** [s.split(sep)] for a one-character separator: never the empty list. *)
Fixpoint split (sep : ascii) (s : string) : list string :=
  match s with
  | EmptyString => [EmptyString]
  | String c s' =>
      if Ascii.eqb c sep then EmptyString :: split sep s'
      else match split sep s' with
           | h :: t => String c h :: t
           | [] => [String c EmptyString]
           end
  end.

Fixpoint rev_string (s acc : string) : string :=
  match s with
  | EmptyString => acc
  | String c s' => rev_string s' (String c acc)
  end.

Definition byte_is (c : ascii) (n : nat) : bool := (nat_of_ascii c =? n)%nat.

(** One-byte white space and line terminators: TAB, LF, VT, FF, CR, SP. *)
Definition ws1 (c : ascii) : bool :=
  let n := nat_of_ascii c in ((9 <=? n)%nat && (n <=? 13)%nat) || (n =? 32)%nat.

(** U+00A0 is C2 A0. *)
Definition ws2 (a b : ascii) : bool := byte_is a 194 && byte_is b 160.

(** U+1680, U+2000..U+200A, U+2028, U+2029, U+202F, U+205F, U+3000, U+FEFF. *)
Definition ws3 (a b c : ascii) : bool :=
  let n := nat_of_ascii c in
  (byte_is a 225 && byte_is b 154 && byte_is c 128)
  || (byte_is a 226 && byte_is b 128 &&
      (((128 <=? n)%nat && (n <=? 138)%nat) || (n =? 168)%nat || (n =? 169)%nat
       || (n =? 175)%nat))
  || (byte_is a 226 && byte_is b 129 && byte_is c 159)
  || (byte_is a 227 && byte_is b 128 && byte_is c 128)
  || (byte_is a 239 && byte_is b 187 && byte_is c 191).

(** [s.trimStart()] *)
Fixpoint trimStart (s : string) : string :=
  match s with
  | EmptyString => EmptyString
  | String a r1 =>
      if ws1 a then trimStart r1
      else match r1 with
           | EmptyString => s
           | String b r2 =>
               if ws2 a b then trimStart r2
               else match r2 with
                    | EmptyString => s
                    | String c r3 => if ws3 a b c then trimStart r3 else s
                    end
           end
  end.

(** [trimStart] on the reversed string: the byte patterns are mirrored. *)
Fixpoint trimStart_mirrored (s : string) : string :=
  match s with
  | EmptyString => EmptyString
  | String a r1 =>
      if ws1 a then trimStart_mirrored r1
      else match r1 with
           | EmptyString => s
           | String b r2 =>
               if ws2 b a then trimStart_mirrored r2
               else match r2 with
                    | EmptyString => s
                    | String c r3 =>
                        if ws3 c b a then trimStart_mirrored r3 else s
                    end
           end
  end.

(** [s.trimEnd()] *)
Definition trimEnd (s : string) : string :=
  rev_string (trimStart_mirrored (rev_string s EmptyString)) EmptyString.

(** [s.trim()] *)
Definition trim (s : string) : string := trimEnd (trimStart s).

Definition is_digit (c : ascii) : bool :=
  let n := nat_of_ascii c in (48 <=? n)%nat && (n <=? 57)%nat.

Definition digit_value (c : ascii) : Z := Z.of_nat (nat_of_ascii c) - 48.

(** The longest prefix of decimal digits, read as a number; [None] when the
    string does not start with a digit. *)
Fixpoint leading_digits (s : string) (acc : option Z) : option Z :=
  match s with
  | EmptyString => acc
  | String c s' =>
      if is_digit c
      then leading_digits s'
             (Some (10 * match acc with Some v => v | None => 0 end
                    + digit_value c)%Z)
      else acc
  end.

(** [parseInt(s, 10)], with [None] for [NaN]; [undefined] (a missing
    destructured element) is [None] as well, since "undefined" has no
    digits. *)
Definition parseInt10 (s : option string) : option Z :=
  match s with
  | None => None
  | Some s =>
      match trimStart s with
      | String "-" r => option_map Z.opp (leading_digits r None)
      | String "+" r => leading_digits r None
      | r => leading_digits r None
      end
  end.

(** The number of bytes of the UTF-8 sequence that the byte [c] leads.  A
    sequence of four bytes is a character outside the basic plane, which a
    JavaScript string holds as two UTF-16 code units; every other sequence
    is one code unit. *)
Definition sequence_length (c : ascii) : nat :=
  let n := nat_of_ascii c in
  if (n <? 192)%nat then 1
  else if (n <? 224)%nat then 2
  else if (n <? 240)%nat then 3
  else 4.

Fixpoint take_bytes (k : nat) (s : string) : string :=
  match k, s with
  | S k', String c s' => String c (take_bytes k' s')
  | _, _ => EmptyString
  end.

Fixpoint drop_bytes (k : nat) (s : string) : string :=
  match k, s with
  | S k', String _ s' => drop_bytes k' s'
  | _, _ => s
  end.

(** The high surrogate of the character that four bytes encode, as the
    three bytes that stand for a code unit on its own. *)
Definition high_surrogate (b0 b1 b2 b3 : ascii) : string :=
  let cp :=
    ((N_of_ascii b0 mod 8) * 262144 + (N_of_ascii b1 mod 64) * 4096
     + (N_of_ascii b2 mod 64) * 64 + N_of_ascii b3 mod 64)%N in
  let hi := (55296 + (cp - 65536) / 1024)%N in
  String (ascii_of_N 237)
    (String (ascii_of_N (128 + (hi / 64) mod 64))
       (String (ascii_of_N (128 + hi mod 64)) EmptyString)).

(** The first [units] UTF-16 code units of [s]; the fuel bounds the number
    of characters. *)
Fixpoint prefix_units (fuel units : nat) (s : string) : string :=
  match fuel, units, s with
  | S fuel', S units', String c _ =>
      match sequence_length c, units', s with
      | 4, O, String b0 (String b1 (String b2 (String b3 _))) =>
          high_surrogate b0 b1 b2 b3
      | 4, S units'', _ =>
          take_bytes 4 s ++ prefix_units fuel' units'' (drop_bytes 4 s)
      | k, _, _ =>
          take_bytes k s ++ prefix_units fuel' units' (drop_bytes k s)
      end
  | _, _, _ => EmptyString
  end.

(** [s.substring(0, units)] *)
Definition substring_to (units : nat) (s : string) : string :=
  prefix_units (String.length s) units s.

(** [`${z}`] for an integral number. *)
Definition integer_text (z : Z) : string :=
  NilZero.string_of_int (Z.to_int z).

End JsString.

Import JsString.

(* ===================================================================== *)
(** ** The data model *)
(* ===================================================================== *)

(** [ProxyNode] of the proxy core.  [port] is what [parseInt] gave ([None] is
    [NaN]); [latency] is [number | null]. *)
Module ProxyNode.
Inductive Status := UNTESTED | ACTIVE | DEAD.

Record t := mk {
  id : string;
  ip : string;
  port : option Z;
  protocol : string;
  status : Status;
  latency : option Z;
  fail_count : Z;
  last_tested : string
}.

Definition is_active (n : t) : bool :=
  match status n with ACTIVE => true | _ => false end.
End ProxyNode.

(** The 1..5 literal type of [conditionScore]. *)
Inductive ConditionScore := Score1 | Score2 | Score3 | Score4 | Score5.

Definition score_number (c : ConditionScore) : Z :=
  match c with
  | Score1 => 1 | Score2 => 2 | Score3 => 3 | Score4 => 4 | Score5 => 5
  end.

Module MarketSignal.
Inductive Status := PENDING | EXECUTED | REJECTED.

Record t := mk {
  id : string;
  source : string;
  targetName : string;
  brandCategory : string;
  conditionScore : ConditionScore;
  listedPrice : float;
  estimatedValue : float;
  profitMargin : float;
  url : string;
  status : Status;
  timestamp : string
}.
End MarketSignal.

(** One element of [itemSummaries], with the fields the sweep reads.
    [condition] is [None] when the field is missing.  [price] is [None] when
    [item.price?.value] is missing or falsy, so that [|| 0] applies, and
    [Some f] when it is truthy and [Number] maps it to [f] (which may still
    be zero or NaN, for the texts "0" and "n/a"). *)
Module Item.
Record t := mk {
  itemId : string;
  title : string;
  condition : option string;
  price : option float;
  itemWebUrl : string
}.
End Item.

(** What a fetch yields: the two shapes the code produces or reads. *)
Module Payload.
Record t := mk {
  itemSummaries : option (list Item.t);
  rawHtml : option string
}.
End Payload.

(** [this.proxyConfig] *)
Module ProxyConfig.
Record t := mk {
  host : string;
  port : option Z;
  auth : option (string * string)
}.
End ProxyConfig.

(** A row of [nexus_logs]. *)
Module LogRecord.
Inductive Level := INFO | WARN | ERROR | CRITICAL.
Record t := mk { level : Level; message : string; timestamp : string }.
End LogRecord.

(* ===================================================================== *)
(** ** The outside world, the run-time state and the effect monad *)
(* ===================================================================== *)

Module Runtime.

(** A thrown value: an [Error] with its message, or anything else. *)
Inductive Exn := ErrorObj (message : string) | NotAnError.

Inductive Outcome (A : Type) :=
| Returns (a : A)
| Throws (e : Exn).
Arguments Returns {A} a.
Arguments Throws {A} e.

(** Result of [axios.get]: the response body ([None] when it is falsy), or a
    rejection with [error.response?.status] and [error.message]. *)
Inductive HttpOutcome :=
| HttpOk (data : option Payload.t)
| HttpFail (status : option Z) (message : string).

(** What happens to one headless-browser session: [chromium.launch] throws;
    a later step throws; or every step succeeds and [page.content()] is
    [html].  [close] is what [browser.close()] throws, if anything. *)
Inductive BrowserOutcome :=
| LaunchFails (message : string)
| PageFails (message : string) (close : option Exn)
| PageContent (html : string) (close : option Exn).

Record World := {
  NEXT_PUBLIC_SUPABASE_URL : string;
  SUPABASE_SERVICE_ROLE_KEY : string;
  PROXY_HOST : string;
  PROXY_PORT : option Z;
  PROXY_USER : string;
  PROXY_PASSWORD : string;
  (** what [createClient(supabaseUrl, supabaseKey)] throws for the URL and
      the key, both set, if anything: it refuses a URL that is not a
      well-formed http or https URL *)
  createClient_error : option string;
  (** the store: whether a request comes back with an [error] *)
  select_error : bool;
  insert_signals_error : option string;
  insert_log_error : bool;
  upsert_error : nat -> option string;
  (** the n-th [axios.get] of the hunter, the n-th browser session, the
      n-th reading of the clock *)
  axios_get : nat -> HttpOutcome;
  chromium : nat -> BrowserOutcome;
  now : nat -> string
}.

Inductive ConsoleLine :=
| LogSweepInit (timestamp : string)
| LogRouting (ip : string) (port : option Z)
| WarnNoProxies
| WarnApiCallFailed (attempt retries : nat) (message : string)
| LogWafDetected (url : string)
| ErrorExhausted (url : string)
| LogBackingOff (delay : Z)
| ErrorBypassFailed (message : string)
| ErrorCriticalFailure (errorMsg : string)
| ErrorDbSync (message : string)
| LogSynced (count : nat).

(** What a run does to the world, in order.  A request is logged with the
    answer it got: [EvAxiosGet] is one [axios.get], with the [proxy] option
    it is given ([None] is [false]); [EvBrowserSession] one headless-browser
    session from [chromium.launch] to [page.content()], with the [server] of
    the proxy its context is given ([None] is [undefined]).  [EvSleep] is
    one [setTimeout], with the delay it is called with. *)
Inductive Event :=
| EvConsole (line : ConsoleLine)
| EvAxiosGet (url : string) (proxy : option ProxyConfig.t)
    (answer : HttpOutcome)
| EvBrowserSession (url : string) (server : option string)
    (answer : BrowserOutcome)
| EvBrowserClose
| EvSleep (ms : Z)
| EvSelectOptimal
| EvUpsertProxies (rows : list ProxyNode.t)
| EvInsertSignals (rows : list MarketSignal.t)
| EvInsertLog (row : LogRecord.t).

Record State := mkState {
  proxyConfig : ProxyConfig.t;
  nexus_proxies : list ProxyNode.t;
  nexus_signals : list MarketSignal.t;
  nexus_logs : list LogRecord.t;
  http_calls : nat;
  browser_sessions : nat;
  clock_reads : nat;
  trace : list Event
}.

Definition M (A : Type) : Type := State -> Outcome A * State.

Definition ret {A} (a : A) : M A := fun st => (Returns a, st).

Definition bind {A B} (c : M A) (k : A -> M B) : M B :=
  fun st =>
    match c st with
    | (Returns a, st') => k a st'
    | (Throws e, st') => (Throws e, st')
    end.

Definition throw {A} (e : Exn) : M A := fun st => (Throws e, st).

(** [try { body } catch (error) { handler }] *)
Definition try_catch {A} (body : M A) (handler : Exn -> M A) : M A :=
  fun st =>
    match body st with
    | (Returns a, st') => (Returns a, st')
    | (Throws e, st') => handler e st'
    end.

(** The state after an event, after a change of a field, after a counter
    has advanced. *)
Definition log_event (e : Event) (st : State) : State :=
  mkState (proxyConfig st) (nexus_proxies st) (nexus_signals st)
    (nexus_logs st) (http_calls st) (browser_sessions st) (clock_reads st)
    (trace st ++ [e]).

Definition with_proxyConfig (c : ProxyConfig.t) (st : State) : State :=
  mkState c (nexus_proxies st) (nexus_signals st) (nexus_logs st)
    (http_calls st) (browser_sessions st) (clock_reads st) (trace st).

Definition with_proxies (t : list ProxyNode.t) (st : State) : State :=
  mkState (proxyConfig st) t (nexus_signals st) (nexus_logs st)
    (http_calls st) (browser_sessions st) (clock_reads st) (trace st).

Definition with_signals (t : list MarketSignal.t) (st : State) : State :=
  mkState (proxyConfig st) (nexus_proxies st) t (nexus_logs st)
    (http_calls st) (browser_sessions st) (clock_reads st) (trace st).

Definition with_logs (t : list LogRecord.t) (st : State) : State :=
  mkState (proxyConfig st) (nexus_proxies st) (nexus_signals st) t
    (http_calls st) (browser_sessions st) (clock_reads st) (trace st).

Definition tick_http (st : State) : State :=
  mkState (proxyConfig st) (nexus_proxies st) (nexus_signals st)
    (nexus_logs st) (S (http_calls st)) (browser_sessions st)
    (clock_reads st) (trace st).

Definition tick_browser (st : State) : State :=
  mkState (proxyConfig st) (nexus_proxies st) (nexus_signals st)
    (nexus_logs st) (http_calls st) (S (browser_sessions st))
    (clock_reads st) (trace st).

Definition tick_clock (st : State) : State :=
  mkState (proxyConfig st) (nexus_proxies st) (nexus_signals st)
    (nexus_logs st) (http_calls st) (browser_sessions st)
    (S (clock_reads st)) (trace st).

Definition emit (e : Event) : M unit :=
  fun st => (Returns tt, log_event e st).

Definition console (l : ConsoleLine) : M unit := emit (EvConsole l).

Definition get_proxyConfig : M ProxyConfig.t :=
  fun st => (Returns (proxyConfig st), st).

Definition set_proxyConfig (c : ProxyConfig.t) : M unit :=
  fun st => (Returns tt, with_proxyConfig c st).

Definition get_proxies : M (list ProxyNode.t) :=
  fun st => (Returns (nexus_proxies st), st).

Definition set_proxies (t : list ProxyNode.t) : M unit :=
  fun st => (Returns tt, with_proxies t st).

Definition add_signals (rows : list MarketSignal.t) : M unit :=
  fun st => (Returns tt, with_signals (nexus_signals st ++ rows) st).

Definition add_log (row : LogRecord.t) : M unit :=
  fun st => (Returns tt, with_logs (nexus_logs st ++ [row]) st).

Definition next_http_call : M nat :=
  fun st => (Returns (http_calls st), tick_http st).

Definition next_browser_session : M nat :=
  fun st => (Returns (browser_sessions st), tick_browser st).

Definition next_clock_read : M nat :=
  fun st => (Returns (clock_reads st), tick_clock st).

Declare Scope effect_scope.
Delimit Scope effect_scope with effect.
Notation "x <- c ;; k" := (bind c (fun x => k))
  (at level 61, c at next level, right associativity) : effect_scope.
Notation "c ;; k" := (bind c (fun _ => k))
  (at level 61, right associativity) : effect_scope.

(** The state a fresh [NexusHunter] starts from, over given tables: the
    constructor reads the proxy settings from the environment. *)
Definition initial_state (w : World) (proxies : list ProxyNode.t) : State :=
  mkState
    (ProxyConfig.mk (PROXY_HOST w)
       (match PROXY_PORT w with
        | Some 0%Z | None => Some 80%Z
        | Some p => Some p
        end)
       (Some (PROXY_USER w, PROXY_PASSWORD w)))
    proxies [] [] 0 0 0 [].

End Runtime.

Import Runtime.
Local Open Scope effect_scope.

(* ===================================================================== *)
(** ** Regular expressions, as far as [proxyRegex] needs them *)
(* ===================================================================== *)

Module Regex.

Inductive t :=
| Digit                       (** [\d] *)
| Chr (c : ascii)             (** one literal character *)
| Cat (r1 r2 : t)             (** [r1 r2] *)
| Rep (lo hi : nat) (r : t).  (** [r{lo,hi}] *)

(** [rep m lo hi s]: what is left of [s] after between [lo] and [hi]
    successive matches of [m]. *)
Fixpoint rep (m : string -> list string) (lo hi : nat) (s : string)
  : list string :=
  (if (lo =? 0)%nat then [s] else []) ++
  match hi with
  | O => []
  | S hi' => flat_map (rep m (Nat.pred lo) hi') (m s)
  end.

(** Every way of matching [r] at the start of [s], as the rest of [s]. *)
Fixpoint remainders (r : t) (s : string) : list string :=
  match r with
  | Digit =>
      match s with
      | String c s' => if is_digit c then [s'] else []
      | EmptyString => []
      end
  | Chr a =>
      match s with
      | String c s' => if Ascii.eqb c a then [s'] else []
      | EmptyString => []
      end
  | Cat r1 r2 => flat_map (remainders r2) (remainders r1 s)
  | Rep lo hi r' => rep (remainders r') lo hi s
  end.

(** [/^r$/.test(s)] *)
Definition test_anchored (r : t) (s : string) : bool :=
  existsb (String.eqb EmptyString) (remainders r s).

(** The language of [r], as a relation between a string and what is left
    of it. *)
Fixpoint iter (n : nat) (R : string -> string -> Prop) (s rest : string)
  : Prop :=
  match n with
  | O => s = rest
  | S n' => exists mid, R s mid /\ iter n' R mid rest
  end.

Fixpoint matches (r : t) (s rest : string) : Prop :=
  match r with
  | Digit => exists c, is_digit c = true /\ s = String c rest
  | Chr a => s = String a rest
  | Cat r1 r2 => exists mid, matches r1 s mid /\ matches r2 mid rest
  | Rep lo hi r' => exists n, lo <= n <= hi /\ iter n (matches r') s rest
  end.

End Regex.

(* ===================================================================== *)
(** ** The proxy fleet commander *)
(* ===================================================================== *)

Module ProxyCommander.

Definition PROXY_SOURCES : list string :=
  [ "https://raw.githubusercontent.com/TheSpeedX/PROXY-List/master/http.txt";
    "https://raw.githubusercontent.com/monosans/proxy-list/main/proxies/http.txt";
    "https://raw.githubusercontent.com/prxchk/proxy-list/main/http.txt";
    "https://raw.githubusercontent.com/ShiftyTR/Proxy-List/master/http.txt";
    "https://raw.githubusercontent.com/roosterkid/openproxylist/main/HTTPS_RAW.txt" ].

(** [getSupabase] of the proxy core.  [createClient] is taken to build the
    client: the commander is reached from [runSweep] and from the sync
    route only, after [createClient] has built one for the same URL and
    key (nexus-engine.ts:72, sync/route.ts:22). *)
Definition getSupabase (w : World) : M unit :=
  if String.eqb (NEXT_PUBLIC_SUPABASE_URL w) ""
     || String.eqb (SUPABASE_SERVICE_ROLE_KEY w) ""
  then throw (ErrorObj "FATAL: Supabase credentials missing. Proxy Commander offline.")
  else ret tt.

(** *** 1. scrapeSources *)

(** [/^(\d{1,3}\.){3}\d{1,3}:\d{2,5}$/], without its anchors. *)
Definition proxyRegex : Regex.t :=
  Regex.Cat
    (Regex.Rep 3 3 (Regex.Cat (Regex.Rep 1 3 Regex.Digit) (Regex.Chr ".")))
    (Regex.Cat (Regex.Rep 1 3 Regex.Digit)
       (Regex.Cat (Regex.Chr ":") (Regex.Rep 2 5 Regex.Digit))).

Definition proxyRegex_test (s : string) : bool :=
  Regex.test_anchored proxyRegex s.

(** [Set.prototype.add] on a set kept in insertion order. *)
Definition set_add (x : string) (set : list string) : list string :=
  if existsb (String.eqb x) set then set else set ++ [x].

(** [lines.forEach(line => ...)] *)
Definition add_lines (lines : list string) (rawProxies : list string)
  : list string :=
  fold_left
    (fun acc line =>
       let clean := trim line in
       if proxyRegex_test clean then set_add clean acc else acc)
    lines rawProxies.

(** The harvest sees the sources through [source_data], the text a source
    answers with ([None]: the request fails, or the body is not text), and
    [completion], the order in which the five requests complete. *)
Record HarvestWorld := {
  source_data : string -> option string;
  completion : list string
}.

(** The callback of one source, run when its request completes. *)
Definition scrape_one (hw : HarvestWorld) (rawProxies : list string)
    (url : string) : list string :=
  match source_data hw url with
  | Some data => add_lines (split "010"%char data) rawProxies
  | None => rawProxies
  end.

Definition scrapeSources (hw : HarvestWorld) : list string :=
  fold_left (scrape_one hw) (completion hw) [].

(** *** 2. validateBatch *)

(** A probe is seen through the clock reading at its start, its outcome
    ([Some t]: the request through the proxy succeeds within 5 s, and the
    clock reads [t] then; [None]: it fails) and the time stamp of the
    record.  A group of probes starts when the group before it has been
    awaited, so what a probe sees depends on the width of the groups: the
    first index is that width, the second the position of the proxy in the
    batch. *)
Record ProbeWorld := {
  probe_start : nat -> nat -> Z;
  probe_outcome : nat -> nat -> string -> option Z;
  probe_stamp : nat -> nat -> string
}.

(** The body of [chunk.map(async (proxyStr) => ...)], in a run whose groups
    are [concurrency] wide. *)
Definition check (pw : ProbeWorld) (concurrency i : nat) (proxyStr : string)
  : ProxyNode.t :=
  let parts := split ":" proxyStr in
  let ip := hd EmptyString parts in
  let portStr := nth_error parts 1 in
  let port := parseInt10 portStr in
  let startTime := probe_start pw concurrency i in
  match probe_outcome pw concurrency i proxyStr with
  | Some finished =>
      let latency := (finished - startTime)%Z in
      ProxyNode.mk proxyStr ip port "http" ProxyNode.ACTIVE (Some latency) 0
        (probe_stamp pw concurrency i)
  | None =>
      ProxyNode.mk proxyStr ip port "http" ProxyNode.DEAD None 1
        (probe_stamp pw concurrency i)
  end.

Fixpoint check_from (pw : ProbeWorld) (concurrency i : nat)
    (chunk : list string) : list ProxyNode.t :=
  match chunk with
  | [] => []
  | p :: rest =>
      check pw concurrency i p :: check_from pw concurrency (S i) rest
  end.

(** [a.slice(i, j)] for [0 <= i <= j]. *)
Definition slice {A} (i j : nat) (a : list A) : list A :=
  firstn (j - i) (skipn i a).

(** The [for (let i = 0; i < proxies.length; i += concurrency)] loop; the
    fuel bounds the number of rounds, and [None] is a loop that is still
    running when it is spent. *)
Fixpoint validateBatch_loop (pw : ProbeWorld) (proxies : list string)
    (concurrency : nat) (fuel i : nat) (results : list ProxyNode.t)
  : option (list ProxyNode.t) :=
  if (i <? length proxies)%nat then
    match fuel with
    | O => None
    | S fuel' =>
        let chunk := slice i (i + concurrency) proxies in
        let chunkResults := check_from pw concurrency i chunk in
        validateBatch_loop pw proxies concurrency fuel' (i + concurrency)
          (results ++ chunkResults)
    end
  else Some results.

Definition validateBatch (pw : ProbeWorld) (fuel : nat)
    (proxies : list string) (concurrency : nat)
  : option (list ProxyNode.t) :=
  validateBatch_loop pw proxies concurrency fuel 0 [].

(** *** 3. syncToDatabase *)

(** [upsert(..., { onConflict: 'id' })] of one row. *)
Fixpoint upsert_row (r : ProxyNode.t) (table : list ProxyNode.t)
  : list ProxyNode.t :=
  match table with
  | [] => [r]
  | x :: rest =>
      if String.eqb (ProxyNode.id x) (ProxyNode.id r) then r :: rest
      else x :: upsert_row r rest
  end.

Definition upsert_rows (rows table : list ProxyNode.t) : list ProxyNode.t :=
  fold_left (fun t r => upsert_row r t) rows table.

Definition chunkSize : nat := 1000.

(** One round of the loop: a chunk that the store refuses changes nothing
    and is reported on the console. *)
Definition sync_chunk (w : World) (k : nat) (chunk : list ProxyNode.t)
  : M unit :=
  emit (EvUpsertProxies chunk) ;;
  match upsert_error w k with
  | Some message => console (ErrorDbSync message)
  | None =>
      table <- get_proxies ;;
      set_proxies (upsert_rows chunk table)
  end.

Fixpoint sync_loop (w : World) (nodes : list ProxyNode.t) (fuel k : nat)
  : M bool :=
  if (k * chunkSize <? length nodes)%nat then
    match fuel with
    | O => ret false
    | S fuel' =>
        sync_chunk w k
          (slice (k * chunkSize) (k * chunkSize + chunkSize) nodes) ;;
        sync_loop w nodes fuel' (S k)
    end
  else ret true.

(** Returns [true] when the loop ended within the fuel. *)
Definition syncToDatabase (w : World) (fuel : nat) (nodes : list ProxyNode.t)
  : M bool :=
  getSupabase w ;;
  done <- sync_loop w nodes fuel 0 ;;
  console (LogSynced (length nodes)) ;;
  ret done.

(** *** 4. getOptimalProxy *)

(** [.eq('status', 'ACTIVE')] *)
Definition eq_status_ACTIVE (rows : list ProxyNode.t) : list ProxyNode.t :=
  filter ProxyNode.is_active rows.

(** Ascending order on a nullable column: nulls come last. *)
Definition latency_leb (a b : option Z) : bool :=
  match a, b with
  | Some x, Some y => (x <=? y)%Z
  | Some _, None => true
  | None, Some _ => false
  | None, None => true
  end.

Fixpoint insert_by_latency (r : ProxyNode.t) (sorted : list ProxyNode.t)
  : list ProxyNode.t :=
  match sorted with
  | [] => [r]
  | x :: rest =>
      if latency_leb (ProxyNode.latency r) (ProxyNode.latency x)
      then r :: sorted
      else x :: insert_by_latency r rest
  end.

(** [.order('latency', { ascending: true })] *)
Definition order_latency (rows : list ProxyNode.t) : list ProxyNode.t :=
  fold_right insert_by_latency [] rows.

(** [.limit(1)] *)
Definition limit1 (rows : list ProxyNode.t) : list ProxyNode.t :=
  firstn 1 rows.

(** [.single()]: [data] when there is exactly one row, an error else. *)
Definition single (rows : list ProxyNode.t) : option ProxyNode.t :=
  match rows with
  | [r] => Some r
  | _ => None
  end.

Definition getOptimalProxy (w : World) : M (option ProxyNode.t) :=
  getSupabase w ;;
  emit EvSelectOptimal ;;
  table <- get_proxies ;;
  let data :=
    if select_error w then None
    else single (limit1 (order_latency (eq_status_ACTIVE table))) in
  ret data.

End ProxyCommander.

(* ===================================================================== *)
(** ** The hunter engine *)
(* ===================================================================== *)

Module NexusHunter.

Local Open Scope float_scope.

Module ScaleEntry.
Record t := mk { label : string; multiplier : float; action : string }.
End ScaleEntry.

Definition CONDITION_SCALE (c : ConditionScore) : ScaleEntry.t :=
  match c with
  | Score1 => ScaleEntry.mk "Junk/Salvage" 0.10 "PART_OUT"
  | Score2 => ScaleEntry.mk "Fair/Needs Work" 0.40 "REFURBISH"
  | Score3 => ScaleEntry.mk "Good/Used" 0.65 "FLIP_AS_IS"
  | Score4 => ScaleEntry.mk "Excellent/Like New" 0.85 "PREMIUM_LIST"
  | Score5 => ScaleEntry.mk "Mint/NIB" 1.00 "HOLD_FOR_APPRECIATION"
  end.

Definition TARGET_BRANDS : list string :=
  [ "Hermès"; "Chanel"; "Louis Vuitton"; "Gucci"; "Prada"; "Dior"; "Goyard";
    "Bottega Veneta"; "Celine"; "Balenciaga"; "Fendi"; "Saint Laurent";
    "Valentino"; "Givenchy"; "Burberry"; "Chloe"; "Loewe"; "Miu Miu";
    "Salvatore Ferragamo"; "Versace" ].

(** [createClient(supabaseUrl, supabaseKey)], the client left out: it throws
    when it refuses the URL. *)
Definition createClient (w : World) : M unit :=
  match createClient_error w with
  | Some message => throw (ErrorObj message)
  | None => ret tt
  end.

(** [getSupabase] of the engine. *)
Definition getSupabase (w : World) : M unit :=
  if String.eqb (NEXT_PUBLIC_SUPABASE_URL w) ""
     || String.eqb (SUPABASE_SERVICE_ROLE_KEY w) ""
  then throw (ErrorObj "FATAL: Supabase credentials missing. Nexus offline.")
  else createClient w.

Definition calculateCondition (rawCondition : string) : ConditionScore :=
  let text := toLowerCase rawCondition in
  if includes text "new" || includes text "mint" then Score5
  else if includes text "excellent" then Score4
  else if includes text "good" || includes text "used" then Score3
  else if includes text "fair" || includes text "parts" then Score2
  else Score1.

Definition highTier : list string := [ "Hermès"; "Chanel" ].

Definition getBaseValue (brand : string) : float :=
  if existsb (String.eqb brand) highTier then 5000 else 1500.

(** [new Date().toISOString()] *)
Definition toISOString_now (w : World) : M string :=
  n <- next_clock_read ;;
  ret (now w n).

(** [this.proxyConfig?.host ? this.proxyConfig : false] *)
Definition proxy_in_use (c : ProxyConfig.t) : option ProxyConfig.t :=
  if String.eqb (ProxyConfig.host c) "" then None else Some c.

(** [`${port}`] of a proxy configuration; [None] is [NaN]. *)
Definition port_text (port : option Z) : string :=
  match port with
  | Some p => integer_text p
  | None => "NaN"
  end.

(** [this.proxyConfig?.host ? { server: `http://${host}:${port}` } :
    undefined]: the browser is given the address of the proxy, without its
    credentials. *)
Definition playwright_server (c : ProxyConfig.t) : option string :=
  if String.eqb (ProxyConfig.host c) "" then None
  else Some ("http://" ++ ProxyConfig.host c ++ ":"
             ++ port_text (ProxyConfig.port c))%string.

(** The [finally] block: the browser is closed, and what closing throws
    replaces the pending result. *)
Definition finally_close (close : option Exn) : M unit :=
  emit EvBrowserClose ;;
  match close with
  | Some e => throw e
  | None => ret tt
  end.

Definition scrapeWithPlaywright (w : World) (url : string)
  : M (option Payload.t) :=
  n <- next_browser_session ;;
  c <- get_proxyConfig ;;
  emit (EvBrowserSession url (playwright_server c) (chromium w n)) ;;
  match chromium w n with
  | LaunchFails message =>
      console (ErrorBypassFailed message) ;;
      ret None
  | PageFails message close =>
      console (ErrorBypassFailed message) ;;
      finally_close close ;;
      ret None
  | PageContent content close =>
      let result :=
        if includes url "ebay"
        then Payload.mk (Some []) None
        else Payload.mk None (Some (substring_to 500 content ++ "...")%string)
      in
      finally_close close ;;
      ret (Some result)
  end.

(** [status === 403 || status === 503] *)
Definition is_blocked (status : option Z) : bool :=
  match status with
  | Some s => (s =? 403)%Z || (s =? 503)%Z
  | None => false
  end.

(** [1000 * Math.pow(2, attempt - 1)], the delay [setTimeout] is called
    with.  The product is exact in binary64 up to attempt 1015 and Infinity
    beyond, which the timer treats as it treats every delay above
    2^31 - 1. *)
Definition backoff_delay (attempt : nat) : Z :=
  (1000 * 2 ^ (Z.of_nat attempt - 1))%Z.

(** The time a timer of Node waits when [setTimeout] is called with
    [delay]: a delay above 2^31 - 1 ms, or below 1 ms, is set to 1 ms. *)
Definition timer_wait (delay : Z) : Z :=
  if (delay >? 2147483647)%Z || (delay <? 1)%Z then 1%Z else delay.

(** The [for (let attempt = 1; attempt <= retries; attempt++)] loop, from
    [attempt] on, with [remaining = retries + 1 - attempt] rounds to go. *)
Fixpoint safeApiCall_loop (w : World) (url : string) (retries : nat)
    (remaining attempt : nat) : M (option Payload.t) :=
  match remaining with
  | O => ret None
  | S remaining' =>
      c <- get_proxyConfig ;;
      n <- next_http_call ;;
      emit (EvAxiosGet url (proxy_in_use c) (axios_get w n)) ;;
      match axios_get w n with
      | HttpOk data => ret data
      | HttpFail status message =>
          console (WarnApiCallFailed attempt retries message) ;;
          bypassData <-
            (if is_blocked status
             then console (LogWafDetected url) ;; scrapeWithPlaywright w url
             else ret None) ;;
          match bypassData with
          | Some data => ret (Some data)
          | None =>
              if (attempt =? retries)%nat
              then console (ErrorExhausted url) ;; ret None
              else
                let delay := backoff_delay attempt in
                console (LogBackingOff delay) ;;
                emit (EvSleep delay) ;;
                safeApiCall_loop w url retries remaining' (S attempt)
          end
      end
  end.

Definition safeApiCall (w : World) (url : string) (retries : nat)
  : M (option Payload.t) :=
  safeApiCall_loop w url retries retries 1.

(** [TARGET_BRANDS.find(b => item.title.includes(b))] *)
Definition brandMatch (title : string) : option string :=
  find (fun b => includes title b) TARGET_BRANDS.

(** [estValue > listedPrice * 1.3] *)
Definition margin_ok (estValue listedPrice : float) : bool :=
  PrimFloat.ltb (listedPrice * 1.3) estValue.

(** [item.condition || 'used'] *)
Definition condition_or_used (item : Item.t) : string :=
  match Item.condition item with
  | None | Some EmptyString => "used"
  | Some c => c
  end.

(** [Number(item.price?.value || 0)] *)
Definition listedPrice_of (item : Item.t) : float :=
  match Item.price item with
  | None => 0
  | Some f => f
  end.

Definition estValue_of (brand : string) (item : Item.t) : float :=
  getBaseValue brand
  * ScaleEntry.multiplier
      (CONDITION_SCALE (calculateCondition (condition_or_used item))).

(** The body of [for (const item of ebayResponse.itemSummaries)]. *)
Definition evaluate (w : World) (item : Item.t)
    (signals : list MarketSignal.t) : M (list MarketSignal.t) :=
  match brandMatch (Item.title item) with
  | None | Some EmptyString => ret signals
  | Some brand =>
      let condition := calculateCondition (condition_or_used item) in
      let estValue := estValue_of brand item in
      let listedPrice := listedPrice_of item in
      if margin_ok estValue listedPrice then
        timestamp <- toISOString_now w ;;
        ret (signals ++
             [ MarketSignal.mk ("EBAY-" ++ Item.itemId item)%string "eBay"
                 (Item.title item) brand condition listedPrice estValue
                 (estValue - listedPrice) (Item.itemWebUrl item)
                 MarketSignal.PENDING timestamp ])%list
      else ret signals
  end.

Fixpoint for_items (w : World) (items : list Item.t)
    (signals : list MarketSignal.t) : M (list MarketSignal.t) :=
  match items with
  | [] => ret signals
  | item :: rest =>
      signals' <- evaluate w item signals ;;
      for_items w rest signals'
  end.

Definition ebay_url : string :=
  "https://api.ebay.com/buy/browse/v1/item_summary/search?q=designer+bag".

(** The [try] block of [runSweep]. *)
Definition sweep_body (w : World) : M (list MarketSignal.t) :=
  proxy <- ProxyCommander.getOptimalProxy w ;;
  match proxy with
  | Some p =>
      console (LogRouting (ProxyNode.ip p) (ProxyNode.port p)) ;;
      set_proxyConfig (ProxyConfig.mk (ProxyNode.ip p) (ProxyNode.port p) None)
  | None => console WarnNoProxies
  end ;;
  ebayResponse <- safeApiCall w ebay_url 3 ;;
  signals <-
    match ebayResponse with
    | Some response =>
        match Payload.itemSummaries response with
        | Some items => for_items w items []
        | None => ret []
        end
    | None => ret []
    end ;;
  (if (0 <? length signals)%nat then
     emit (EvInsertSignals signals) ;;
     match insert_signals_error w with
     | Some message =>
         throw (ErrorObj ("Supabase Insert Failed: " ++ message)%string)
     | None => add_signals signals
     end
   else ret tt) ;;
  ret signals.

(** The [catch] block of [runSweep]. *)
Definition sweep_handler (w : World) (error : Exn)
  : M (list MarketSignal.t) :=
  let errorMsg :=
    match error with
    | ErrorObj message => message
    | NotAnError => "Unknown error"
    end in
  console (ErrorCriticalFailure errorMsg) ;;
  timestamp <- toISOString_now w ;;
  let row := LogRecord.mk LogRecord.ERROR errorMsg timestamp in
  emit (EvInsertLog row) ;;
  (if insert_log_error w then ret tt else add_log row) ;;
  ret [].

Definition runSweep (w : World) : M (list MarketSignal.t) :=
  timestamp <- toISOString_now w ;;
  getSupabase w ;;
  console (LogSweepInit timestamp) ;;
  try_catch (sweep_body w) (sweep_handler w).

End NexusHunter.

(* ===================================================================== *)
(** ** The API routes *)
(* ===================================================================== *)

(** The [POST] handlers of [src/app/api/nexus/sweep/route.ts],
    [src/app/api/proxies/sync/route.ts] and
    [src/app/api/nexus/execute/route.ts]. *)
Module Routes.

(** The body of a JSON response. *)
Inductive Body :=
| ErrorBody (error : string) (details : option string)
| SweepComplete (signalsFound : nat) (executionTimeMs : Z)
    (data : list MarketSignal.t)
| SyncComplete (scrapedTotal tested activeFound : nat) (executionTimeMs : Z)
| ExecSuccess (transactionId : string).

Record Response := json { body : Body; status : Z }.

(** What [request.json()] gives: it fails, or the body cannot be
    destructured, with a message; or the body has its [signalId], a string
    when present, and its [price], a number when present. *)
Inductive JsonOutcome :=
| JsonFails (message : string)
| JsonBody (signalId : option string) (price : option float).

(** A request: its [authorization] header, [None] when absent, and what
    reading its body gives. *)
Record Request := {
  authorization : option string;
  request_json : JsonOutcome
}.

(** What [stripe.paymentIntents.create] answers. *)
Inductive StripeOutcome :=
| PaymentIntent (id : string)
| StripeFails (message : string).

(** What the routes see beside the world of the engine: two more
    environment variables, the n-th [Date.now()] of a request, the answers
    of the proxy sources and of the probes, the order [Array.prototype.sort]
    leaves the harvest in under the random comparison, the answer of Stripe
    to a payment of a given price, and whether the store comes back with an
    error on the update of [nexus_signals]. *)
Record RouteWorld := {
  engine : World;
  NEXT_PUBLIC_NEXUS_GOD_MODE_KEY : string;
  STRIPE_SECRET_KEY : string;
  date_now : nat -> Z;
  harvest : ProxyCommander.HarvestWorld;
  probes : ProxyCommander.ProbeWorld;
  shuffled : list string -> list string;
  paymentIntents_create : option float -> StripeOutcome;
  update_error : bool
}.

(** [!supabaseUrl || !supabaseKey] *)
Definition credentials_missing (w : World) : bool :=
  String.eqb (NEXT_PUBLIC_SUPABASE_URL w) ""
  || String.eqb (SUPABASE_SERVICE_ROLE_KEY w) "".

(** [process.env.NEXT_PUBLIC_NEXUS_GOD_MODE_KEY || 'demo-key'] *)
Definition expectedKey (rw : RouteWorld) : string :=
  if String.eqb (NEXT_PUBLIC_NEXUS_GOD_MODE_KEY rw) "" then "demo-key"
  else NEXT_PUBLIC_NEXUS_GOD_MODE_KEY rw.

(** The negation of [authHeader !== `Bearer ${expectedKey}`]. *)
Definition authorized (rw : RouteWorld) (request : Request) : bool :=
  match authorization request with
  | Some authHeader => String.eqb authHeader ("Bearer " ++ expectedKey rw)
  | None => false
  end.

(** [`${n}`] for a count, and for an integral number. *)
Definition count_toString (n : nat) : string :=
  NilZero.string_of_uint (Nat.to_uint n).

Definition integer_toString (z : Z) : string :=
  NilZero.string_of_int (Z.to_int z).

(** [await supabase.from('nexus_logs').insert({ level, message, timestamp:
    new Date().toISOString() })], whose result the routes do not read. *)
Definition insert_log (w : World) (level : LogRecord.Level)
    (message : string) : M unit :=
  timestamp <- NexusHunter.toISOString_now w ;;
  let row := LogRecord.mk level message timestamp in
  emit (EvInsertLog row) ;;
  if insert_log_error w then ret tt else add_log row.

(** [new NexusHunter()]: a hunter of its own for the request, configured
    from the environment. *)
Definition new_NexusHunter (w : World) : M unit :=
  set_proxyConfig (proxyConfig (initial_state w [])).

(** *** POST /api/nexus/sweep *)

(** The handler rejects, without an answer of its own, when [createClient]
    throws: that call stands before the [try]. *)
Definition sweep_POST (rw : RouteWorld) (request : Request) : M Response :=
  let w := engine rw in
  let startTime := date_now rw 0 in
  if credentials_missing w then
    ret (json
           (ErrorBody "CRITICAL: Database connection severed. Check env vars."
              None)
           500)
  else
    NexusHunter.createClient w ;;
    try_catch
      (if negb (authorized rw request) then
         insert_log w LogRecord.WARN "Unauthorized sweep attempt blocked." ;;
         ret (json (ErrorBody "UNAUTHORIZED_ACCESS" None) 401)
       else
         new_NexusHunter w ;;
         insert_log w LogRecord.INFO
           "Manual sweep initiated via Control Center." ;;
         signals <- NexusHunter.runSweep w ;;
         let executionTime := (date_now rw 1 - startTime)%Z in
         ret (json (SweepComplete (length signals) executionTime signals) 200))
      (fun error =>
         let errorMsg :=
           match error with
           | ErrorObj message => message
           | NotAnError => "Unknown fatal error in Edge Route"
           end in
         insert_log w LogRecord.CRITICAL ("API Route Crash: " ++ errorMsg) ;;
         ret (json (ErrorBody "ENGINE_FAILURE" (Some errorMsg)) 500)).

(** *** POST /api/proxies/sync *)

Definition sampleSize : nat := 200.

(** [`Proxy Fleet Sync: Scraped ${rawProxies.length}, Tested ${sampleSize},
    Found ${activeCount} ACTIVE.`] *)
Definition sync_message (scraped tested active : nat) : string :=
  "Proxy Fleet Sync: Scraped " ++ count_toString scraped
  ++ ", Tested " ++ count_toString tested
  ++ ", Found " ++ count_toString active ++ " ACTIVE.".

(** The fuel bounds the rounds of the loops of [validateBatch] and of
    [syncToDatabase]; [None] is a request that is still being served when it
    is spent.  As in the sweep route, the handler rejects when
    [createClient] throws. *)
Definition sync_POST (rw : RouteWorld) (fuel : nat) (request : Request)
  : M (option Response) :=
  let w := engine rw in
  let startTime := date_now rw 0 in
  if credentials_missing w then
    ret (Some (json (ErrorBody "CRITICAL: Database connection severed." None)
                 500))
  else
    NexusHunter.createClient w ;;
    try_catch
      (if negb (authorized rw request) then
         ret (Some (json (ErrorBody "UNAUTHORIZED_ACCESS" None) 401))
       else
         let rawProxies := ProxyCommander.scrapeSources (harvest rw) in
         let shuffled := shuffled rw rawProxies in
         let targetBatch := ProxyCommander.slice 0 sampleSize shuffled in
         match ProxyCommander.validateBatch (probes rw) fuel targetBatch 50 with
         | None => ret None
         | Some validatedNodes =>
             done <- ProxyCommander.syncToDatabase w fuel validatedNodes ;;
             if negb done then ret None
             else
               let activeCount :=
                 length (filter ProxyNode.is_active validatedNodes) in
               let executionTime := (date_now rw 1 - startTime)%Z in
               insert_log w LogRecord.INFO
                 (sync_message (length rawProxies) sampleSize activeCount) ;;
               ret (Some (json
                            (SyncComplete (length rawProxies) sampleSize
                               activeCount executionTime)
                            200))
         end)
      (fun error =>
         let errorMsg :=
           match error with
           | ErrorObj message => message
           | NotAnError => "Unknown fatal error in Proxy Route"
           end in
         insert_log w LogRecord.ERROR ("Proxy Sync Crash: " ++ errorMsg) ;;
         ret (Some (json (ErrorBody "COMMANDER_FAILURE" (Some errorMsg)) 500))).

End Routes.

(** *** POST /api/nexus/execute

    The route does not use the engine; it is written with its state passed
    along, from the point where [createClient] has built its client.  The
    rounding of the amount to cents is left to the oracle of Stripe, which
    is asked with the price of the request. *)
Module ExecuteRoute.

Import Routes.

(** The requests the route sends, in order. *)
Inductive Call :=
| CallStripe (price : option float) (answer : StripeOutcome)
| CallSleep (ms : Z)
| CallUpdate (signalId : string)
| CallInsertLog (row : LogRecord.t).

Record ExecState := mkExec {
  signals : list MarketSignal.t;
  logs : list LogRecord.t;
  clock : nat;
  calls : list Call
}.

(** [update({ status: 'EXECUTED' })] of one row. *)
Definition executed (s : MarketSignal.t) : MarketSignal.t :=
  MarketSignal.mk (MarketSignal.id s) (MarketSignal.source s)
    (MarketSignal.targetName s) (MarketSignal.brandCategory s)
    (MarketSignal.conditionScore s) (MarketSignal.listedPrice s)
    (MarketSignal.estimatedValue s) (MarketSignal.profitMargin s)
    (MarketSignal.url s) MarketSignal.EXECUTED (MarketSignal.timestamp s).

(** [.update({ status: 'EXECUTED' }).eq('id', signalId)] on the table. *)
Definition update_eq_id (signalId : string) (table : list MarketSignal.t)
  : list MarketSignal.t :=
  map (fun s => if String.eqb (MarketSignal.id s) signalId then executed s
                else s)
    table.

(** The insert into [nexus_logs], with the time stamp read first. *)
Definition insert_log (rw : RouteWorld) (level : LogRecord.Level)
    (message : string) (st : ExecState) : ExecState :=
  let row := LogRecord.mk level message (now (engine rw) (clock st)) in
  mkExec (signals st)
    (if insert_log_error (engine rw) then logs st else logs st ++ [row])
    (S (clock st))
    (calls st ++ [CallInsertLog row]).

Definition call (c : Call) (st : ExecState) : ExecState :=
  mkExec (signals st) (logs st) (clock st) (calls st ++ [c]).

(** [process.env.STRIPE_SECRET_KEY || 'sk_test_dummy'] *)
Definition stripeKey (rw : RouteWorld) : string :=
  if String.eqb (STRIPE_SECRET_KEY rw) "" then "sk_test_dummy"
  else STRIPE_SECRET_KEY rw.

(** The [catch] block. *)
Definition failed (rw : RouteWorld) (message : string) (st : ExecState)
  : Response * ExecState :=
  (json (ErrorBody "EXECUTION_FAILURE" (Some message)) 500,
   insert_log rw LogRecord.ERROR ("Execution Failed: " ++ message) st).

(** Steps 4 and 5: the update of the signal, the log, the answer. *)
Definition complete (rw : RouteWorld) (signalId transactionId : string)
    (st : ExecState) : Response * ExecState :=
  let st1 := call (CallUpdate signalId) st in
  let st2 :=
    if update_error rw then st1
    else mkExec (update_eq_id signalId (signals st1)) (logs st1) (clock st1)
           (calls st1) in
  (json (ExecSuccess transactionId) 200,
   insert_log rw LogRecord.INFO
     ("Target Executed: " ++ signalId ++ ". Transaction ID: " ++ transactionId)
     st2).

Definition POST (rw : RouteWorld) (request : Request) (st : ExecState)
  : Response * ExecState :=
  if credentials_missing (engine rw) then
    (json (ErrorBody "CRITICAL: Database connection severed." None) 500, st)
  else if negb (authorized rw request) then
    (json (ErrorBody "UNAUTHORIZED_ACCESS" None) 401, st)
  else
    match request_json request with
    | JsonFails message => failed rw message st
    | JsonBody None _ | JsonBody (Some EmptyString) _ =>
        (json (ErrorBody "MISSING_SIGNAL_ID" None) 400, st)
    | JsonBody (Some signalId) price =>
        let transactionId :=
          ("sim_tx_" ++ integer_toString (date_now rw 0))%string in
        if negb (String.eqb (stripeKey rw) "sk_test_dummy") then
          let answer := paymentIntents_create rw price in
          match answer with
          | PaymentIntent id =>
              complete rw signalId id (call (CallStripe price answer) st)
          | StripeFails message =>
              failed rw message (call (CallStripe price answer) st)
          end
        else complete rw signalId transactionId (call (CallSleep 1500) st)
    end.

End ExecuteRoute.

(* ===================================================================== *)
(** ** Observations of a run and the patterns of the specification *)
(* ===================================================================== *)

Section Observations.

Import ProxyCommander NexusHunter.

(** What the query answers, on a table. *)
Definition optimal_row (table : list ProxyNode.t) : option ProxyNode.t :=
  single (limit1 (order_latency (eq_status_ACTIVE table))).

(** The invariant of a fleet row. *)
Definition active_iff_latency (n : ProxyNode.t) : Prop :=
  ProxyNode.status n = ProxyNode.ACTIVE <-> ProxyNode.latency n <> None.

(** A run of decimal digits, between [lo] and [hi] of them. *)
Definition digit_run (lo hi : nat) (d : string) : Prop :=
  Forall (fun c => is_digit c = true) (list_ascii_of_string d) /\
  lo <= String.length d <= hi.

(** The pattern in the words of the specification: four dot-separated
    octets of one to three digits, a colon, and a port of two to five
    digits. *)
Definition strict_ip_port (s : string) : Prop :=
  exists o1 o2 o3 o4 port,
    digit_run 1 3 o1 /\ digit_run 1 3 o2 /\ digit_run 1 3 o3 /\
    digit_run 1 3 o4 /\ digit_run 2 5 port /\
    s = (o1 ++ "." ++ o2 ++ "." ++ o3 ++ "." ++ o4 ++ ":" ++ port)%string.

(** What a line contributes: its trimmed form, when that passes the test. *)
Definition accepted (line p : string) : Prop :=
  p = trim line /\ proxyRegex_test p = true.

(** What a source contributes to the harvest. *)
Definition harvested_from (hw : HarvestWorld) (url p : string) : Prop :=
  exists data line,
    source_data hw url = Some data /\
    In line (split "010"%char data) /\
    accepted line p.

(** The interactions of a fetch with the world are its requests, its
    browser sessions and its sleeps; console lines and the closing of the
    browser are left out. *)
Definition is_request (e : Event) : bool :=
  match e with EvAxiosGet _ _ _ => true | _ => false end.

Definition is_session (e : Event) : bool :=
  match e with EvBrowserSession _ _ _ => true | _ => false end.

Definition is_sleep (e : Event) : bool :=
  match e with EvSleep _ => true | _ => false end.

(** A request refused with 403 or 503. *)
Definition is_blocked_failure (e : Event) : bool :=
  match e with
  | EvAxiosGet _ _ (HttpFail status _) => is_blocked status
  | _ => false
  end.

Definition blocked_attempts (tr : list Event) : nat :=
  length (filter is_blocked_failure tr).

Definition interactions (tr : list Event) : list Event :=
  filter (fun e => is_request e || is_session e || is_sleep e) tr.

Definition attempts (tr : list Event) : nat := length (filter is_request tr).

Definition bypasses (tr : list Event) : nat := length (filter is_session tr).

Definition sleeps (tr : list Event) : list Z :=
  flat_map (fun e => match e with EvSleep ms => [ms] | _ => [] end) tr.

(** What [scrapeWithPlaywright] hands back, by the fate of its session. *)
Definition bypass_yield (url : string) (answer : BrowserOutcome)
  : Outcome (option Payload.t) :=
  match answer with
  | LaunchFails _ => Returns None
  | PageFails _ None => Returns None
  | PageContent content None =>
      Returns
        (Some (if includes url "ebay"
               then Payload.mk (Some []) None
               else Payload.mk None
                      (Some (substring_to 500 content ++ "...")%string)))
  | PageFails _ (Some e) => Throws e
  | PageContent _ (Some e) => Throws e
  end.

(** The retry policy of the specification, as the shapes a fetch may take
    from attempt [attempt] on: the interactions it has, and its result. *)
Inductive Fetch (url : string) (retries : nat)
  : nat -> list Event -> Outcome (option Payload.t) -> Prop :=
| Fetch_not_entered attempt :
    retries < attempt ->
    Fetch url retries attempt [] (Returns None)
| Fetch_success attempt p data :
    attempt <= retries ->
    Fetch url retries attempt [EvAxiosGet url p (HttpOk data)] (Returns data)
| Fetch_bypass_ends attempt p q status message answer r :
    attempt <= retries ->
    NexusHunter.is_blocked status = true ->
    bypass_yield url answer = r ->
    r <> Returns None ->
    Fetch url retries attempt
      [EvAxiosGet url p (HttpFail status message);
       EvBrowserSession url q answer] r
| Fetch_exhausted_blocked attempt p q status message answer :
    attempt = retries ->
    NexusHunter.is_blocked status = true ->
    bypass_yield url answer = Returns None ->
    Fetch url retries attempt
      [EvAxiosGet url p (HttpFail status message);
       EvBrowserSession url q answer] (Returns None)
| Fetch_exhausted attempt p status message :
    attempt = retries ->
    NexusHunter.is_blocked status = false ->
    Fetch url retries attempt
      [EvAxiosGet url p (HttpFail status message)] (Returns None)
| Fetch_retry_blocked attempt p q status message answer rest r :
    attempt < retries ->
    NexusHunter.is_blocked status = true ->
    bypass_yield url answer = Returns None ->
    Fetch url retries (S attempt) rest r ->
    Fetch url retries attempt
      (EvAxiosGet url p (HttpFail status message)
       :: EvBrowserSession url q answer
       :: EvSleep (NexusHunter.backoff_delay attempt) :: rest) r
| Fetch_retry attempt p status message rest r :
    attempt < retries ->
    NexusHunter.is_blocked status = false ->
    Fetch url retries (S attempt) rest r ->
    Fetch url retries attempt
      (EvAxiosGet url p (HttpFail status message)
       :: EvSleep (NexusHunter.backoff_delay attempt) :: rest) r.

(** The interactions of a trace, by kind. *)
Inductive Step := Request | Session | Sleep (ms : Z).

Definition steps (tr : list Event) : list Step :=
  flat_map
    (fun e =>
       match e with
       | EvAxiosGet _ _ _ => [Request]
       | EvBrowserSession _ _ _ => [Session]
       | EvSleep ms => [Sleep ms]
       | _ => []
       end) tr.

(** The brand under which a listing is admitted, if it is. *)
Definition admission (item : Item.t) : option string :=
  match brandMatch (Item.title item) with
  | None | Some EmptyString => None
  | Some brand =>
      if margin_ok (estValue_of brand item) (listedPrice_of item)
      then Some brand
      else None
  end.

(** The signal pushed for an admitted listing. *)
Definition signal_of (item : Item.t) (brand timestamp : string)
  : MarketSignal.t :=
  MarketSignal.mk ("EBAY-" ++ Item.itemId item)%string "eBay" (Item.title item)
    brand (calculateCondition (condition_or_used item)) (listedPrice_of item)
    (estValue_of brand item)
    (estValue_of brand item - listedPrice_of item)%float
    (Item.itemWebUrl item) MarketSignal.PENDING timestamp.

(** The signals of a list of listings, stamped from clock reading [n] on. *)
Fixpoint stamped (w : World) (n : nat) (items : list Item.t)
  : list MarketSignal.t :=
  match items with
  | [] => []
  | item :: rest =>
      match admission item with
      | Some brand => signal_of item brand (now w n) :: stamped w (S n) rest
      | None => stamped w n rest
      end
  end.

(** [b] is the first target brand, in list order, that [title] contains. *)
Definition first_match (title b : string) : Prop :=
  exists before after,
    TARGET_BRANDS = before ++ b :: after /\
    contains title b /\
    forall b', In b' before -> ~ contains title b'.

(** The listings of a response. *)
Definition listed (ebayResponse : option Payload.t) : list Item.t :=
  match ebayResponse with
  | Some response =>
      match Payload.itemSummaries response with
      | Some items => items
      | None => []
      end
  | None => []
  end.

(** What [error instanceof Error ? error.message : 'Unknown error'] is. *)
Definition error_message (error : Exn) : string :=
  match error with
  | ErrorObj message => message
  | NotAnError => "Unknown error"
  end.

(** [parts.join(sep)] *)
Fixpoint join (sep : ascii) (parts : list string) : string :=
  match parts with
  | [] => EmptyString
  | [p] => p
  | p :: rest => (p ++ String sep (join sep rest))%string
  end.

Section SweepStages.

Variable w : World.

(** The state when the [try] block is entered. *)
Definition prologue (st : State) : State :=
  log_event (EvConsole (LogSweepInit (now w (clock_reads st)))) (tick_clock st).

(** The state when the proxy has been chosen. *)
Definition routed (st : State) : State :=
  match (if select_error w then None
         else optimal_row (nexus_proxies st)) with
  | Some p =>
      with_proxyConfig
        (ProxyConfig.mk (ProxyNode.ip p) (ProxyNode.port p) None)
        (log_event (EvConsole (LogRouting (ProxyNode.ip p) (ProxyNode.port p)))
           (log_event EvSelectOptimal st))
  | None => log_event (EvConsole WarnNoProxies) (log_event EvSelectOptimal st)
  end.

(** The [try] block from the response on. *)
Definition after_fetch (ebayResponse : option Payload.t)
  : M (list MarketSignal.t) :=
  signals <-
    match ebayResponse with
    | Some response =>
        match Payload.itemSummaries response with
        | Some items => for_items w items []
        | None => ret []
        end
    | None => ret []
    end ;;
  (if (0 <? length signals)%nat then
     emit (EvInsertSignals signals) ;;
     match insert_signals_error w with
     | Some message =>
         throw (ErrorObj ("Supabase Insert Failed: " ++ message)%string)
     | None => add_signals signals
     end
   else ret tt) ;;
  ret signals.

(** The row the [catch] block writes to [nexus_logs]. *)
Definition failure_row (error : Exn) (st : State) : LogRecord.t :=
  LogRecord.mk LogRecord.ERROR (error_message error) (now w (clock_reads st)).

Definition credentials_present : Prop :=
  NEXT_PUBLIC_SUPABASE_URL w <> "" /\ SUPABASE_SERVICE_ROLE_KEY w <> "".

(** The store client has been obtained: the credentials are present and
    [createClient] has taken them. *)
Definition client_obtained : Prop :=
  credentials_present /\ createClient_error w = None.

(** The sweep from the response of the fetch on, with the [catch] block. *)
Definition conclude (r : Outcome (option Payload.t)) (st : State)
  : Outcome (list MarketSignal.t) * State :=
  match r with
  | Returns ebayResponse =>
      try_catch (after_fetch ebayResponse) (sweep_handler w) st
  | Throws e => sweep_handler w e st
  end.

End SweepStages.

End Observations.

Section StoreObservations.

Import ProxyCommander.


(** A list cut into consecutive groups of [size]; the fuel bounds the number
    of groups. *)
Fixpoint chunks_from {A} (fuel size : nat) (l : list A) : list (list A) :=
  match fuel with
  | O => []
  | S fuel' =>
      match l with
      | [] => []
      | _ :: _ => firstn size l :: chunks_from fuel' size (skipn size l)
      end
  end.

Definition chunks {A} (size : nat) (l : list A) : list (list A) :=
  chunks_from (length l) size l.

(** The rows of the groups the store accepts, group [k] being the first. *)
Fixpoint kept_rows (w : World) (k : nat) (groups : list (list ProxyNode.t))
  : list ProxyNode.t :=
  match groups with
  | [] => []
  | g :: rest =>
      match upsert_error w k with
      | Some _ => kept_rows w (S k) rest
      | None => g ++ kept_rows w (S k) rest
      end
  end.


(** The upsert requests of a trace, in order. *)
Definition upsert_requests (tr : list Event) : list (list ProxyNode.t) :=
  flat_map (fun e => match e with EvUpsertProxies rows => [rows] | _ => [] end)
    tr.

End StoreObservations.

Section PortObservations.

(** The number a run of decimal digits writes, continuing from [v]. *)
Fixpoint decimal_from (v : Z) (s : string) : Z :=
  match s with
  | EmptyString => v
  | String c s' => decimal_from (10 * v + digit_value c)%Z s'
  end.

Definition decimal_value (s : string) : Z := decimal_from 0 s.

(** No colon in the string. *)
Definition colon_free (s : string) : Prop :=
  ~ In ":"%char (list_ascii_of_string s).

End PortObservations.

Section ValuationObservations.

Import NexusHunter.

Definition upper_ascii (c : ascii) : ascii :=
  let n := nat_of_ascii c in
  if (97 <=? n)%nat && (n <=? 122)%nat then ascii_of_nat (n - 32) else c.

(** The string with its letters a-z in upper case. *)
Fixpoint upper_letters (s : string) : string :=
  match s with
  | EmptyString => EmptyString
  | String c s' => String (upper_ascii c) (upper_letters s')
  end.

(** The values [getBaseValue] times a multiplier can take. *)
Definition estimates : list float :=
  [500; 2000; 3250; 4250; 5000; 150; 600; 975; 1275; 1500]%float.

(** What every signal of a sweep has in common. *)
Definition well_formed_signal (s : MarketSignal.t) : Prop :=
  MarketSignal.source s = "eBay" /\
  MarketSignal.status s = MarketSignal.PENDING /\
  startsWith (MarketSignal.id s) "EBAY-" = true /\
  In (MarketSignal.brandCategory s) TARGET_BRANDS /\
  contains (MarketSignal.targetName s) (MarketSignal.brandCategory s) /\
  In (MarketSignal.estimatedValue s) estimates /\
  MarketSignal.estimatedValue s
  = (getBaseValue (MarketSignal.brandCategory s)
     * ScaleEntry.multiplier (CONDITION_SCALE (MarketSignal.conditionScore s)))%float /\
  MarketSignal.profitMargin s
  = (MarketSignal.estimatedValue s - MarketSignal.listedPrice s)%float /\
  PrimFloat.ltb (MarketSignal.listedPrice s * 1.3)%float
    (MarketSignal.estimatedValue s) = true.

End ValuationObservations.

Section FetchObservations.

Import NexusHunter.

(** An event that is no request and no browser session, or is one for [url]
    routed as the configuration [c] says: with no host, a request goes
    without a proxy and a session without a server; with a host, a request
    is given the whole configuration and a session the address
    http://host:port of the proxy. *)
Definition routed_through (url : string) (c : ProxyConfig.t) (e : Event)
  : Prop :=
  match e with
  | EvAxiosGet u proxy _ =>
      u = url /\
      (ProxyConfig.host c = "" /\ proxy = None \/
       ProxyConfig.host c <> "" /\ proxy = Some c)
  | EvBrowserSession u server _ =>
      u = url /\
      (ProxyConfig.host c = "" /\ server = None \/
       ProxyConfig.host c <> "" /\
       server = Some ("http://" ++ ProxyConfig.host c ++ ":"
                      ++ port_text (ProxyConfig.port c))%string)
  | _ => True
  end.

(** What an event of a fetch may be: a request or a browser session for the
    URL of the fetch, routed as the configuration says and answered by the
    world; a console line, the closing of the browser, a sleep.  Never a
    request to the store. *)
Definition fetch_event (w : World) (url : string) (c : ProxyConfig.t)
    (e : Event) : Prop :=
  routed_through url c e /\
  match e with
  | EvAxiosGet _ _ answer => exists n, answer = axios_get w n
  | EvBrowserSession _ _ answer => exists n, answer = chromium w n
  | EvConsole _ | EvBrowserClose | EvSleep _ => True
  | EvSelectOptimal | EvUpsertProxies _ | EvInsertSignals _ | EvInsertLog _ =>
      False
  end.

(** The number of times the browser is closed. *)
Definition closes (tr : list Event) : nat :=
  length (filter (fun e => match e with EvBrowserClose => true | _ => false end)
            tr).

(** [k] rounds of a request that fails and the backoff after it, from
    attempt [attempt] on. *)
Fixpoint failed_rounds (attempt k : nat) : list Step :=
  match k with
  | O => []
  | S k' =>
      Request :: Sleep (backoff_delay attempt) :: failed_rounds (S attempt) k'
  end.

Definition total (delays : list Z) : Z := fold_right Z.add 0%Z delays.

(** The times a run has waited in its timers, in ms: a timer called with a
    delay above 2^31 - 1 ms fires after 1 ms. *)
Definition waited (tr : list Event) : list Z := map timer_wait (sleeps tr).

(** The wait after a failed attempt, in the words of the backoff: 1000 ms
    doubled with every attempt up to attempt 22, where it is 2097152000 ms;
    from attempt 23 on the doubled delay no longer fits a timer, which then
    fires after 1 ms. *)
Definition wait_after (attempt : nat) : Z :=
  if (attempt <=? 22)%nat then (1000 * 2 ^ (Z.of_nat attempt - 1))%Z else 1%Z.

(** The time waited in all after [k] failed attempts. *)
Definition waited_in_all (k : nat) : Z :=
  if (k <=? 22)%nat then (1000 * (2 ^ Z.of_nat k - 1))%Z
  else (1000 * (2 ^ 22 - 1) + Z.of_nat (k - 22))%Z.

(** What a stretch of a run leaves as it was, and how far the counters of
    requests and browser sessions have moved. *)
Definition frame (st st' : State) (evs : list Event) : Prop :=
  trace st' = trace st ++ evs /\
  proxyConfig st' = proxyConfig st /\
  nexus_proxies st' = nexus_proxies st /\
  nexus_signals st' = nexus_signals st /\
  nexus_logs st' = nexus_logs st /\
  clock_reads st' = clock_reads st /\
  http_calls st' = http_calls st + attempts evs /\
  browser_sessions st' = browser_sessions st + bypasses evs.

(** The request with a given index fails with a status other than 403 and
    503. *)
Definition fails_unblocked (w : World) (n : nat) : Prop :=
  exists status message,
    axios_get w n = HttpFail status message /\ is_blocked status = false.

(** The number of browsers that were launched: the sessions whose launch did
    not fail. *)
Definition launched (tr : list Event) : nat :=
  length
    (filter
       (fun e =>
          match e with
          | EvBrowserSession _ _ (LaunchFails _) => false
          | EvBrowserSession _ _ _ => true
          | _ => false
          end)
       tr).

(** What closing the browser of a session throws, if anything. *)
Definition close_error (answer : BrowserOutcome) : option Exn :=
  match answer with
  | LaunchFails _ => None
  | PageFails _ close => close
  | PageContent _ close => close
  end.

(** The proxy configuration a sweep fetches with: the best ACTIVE row of the
    fleet, without credentials, or what the hunter had before when the
    query fails or finds no row. *)
Definition route (w : World) (st : State) : ProxyConfig.t :=
  match (if select_error w then None
         else optimal_row (nexus_proxies st)) with
  | Some p => ProxyConfig.mk (ProxyNode.ip p) (ProxyNode.port p) None
  | None => proxyConfig st
  end.

End FetchObservations.

(** The valuation in the words of the specification, without the helpers
    of the code: the code is compared with it. *)
Section ValuationSpecification.

Import NexusHunter.

(** The alphabet, in capital and in small letters. *)
Definition capital_letters : string := "ABCDEFGHIJKLMNOPQRSTUVWXYZ".

Definition small_letters : string := "abcdefghijklmnopqrstuvwxyz".

(** The letter of [smalls] at the place where [c] stands in [capitals];
    [c] itself when it is not among them. *)
Fixpoint letter_at (capitals smalls : string) (c : ascii) : ascii :=
  match capitals, smalls with
  | String capital capitals', String small smalls' =>
      if Ascii.eqb capital c then small else letter_at capitals' smalls' c
  | _, _ => c
  end.

Definition small_letter (c : ascii) : ascii :=
  letter_at capital_letters small_letters c.

(** The lowercased text: every capital letter replaced by its small one. *)
Fixpoint lowercased (s : string) : string :=
  match s with
  | EmptyString => EmptyString
  | String c s' => String (small_letter c) (lowercased s')
  end.

(** The score of a free text by ordered keyword matching: new/mint give 5,
    else excellent 4, else good/used 3, else fair/parts 2, else 1. *)
Definition keyword_score (text : string) (score : Z) : Prop :=
  let t := lowercased text in
  (contains t "new" \/ contains t "mint") /\ score = 5%Z \/
  ~ (contains t "new" \/ contains t "mint") /\
  (contains t "excellent" /\ score = 4%Z \/
   ~ contains t "excellent" /\
   ((contains t "good" \/ contains t "used") /\ score = 3%Z \/
    ~ (contains t "good" \/ contains t "used") /\
    ((contains t "fair" \/ contains t "parts") /\ score = 2%Z \/
     ~ (contains t "fair" \/ contains t "parts") /\ score = 1%Z))).

(** The condition a listing states; a listing that states none counts as
    used. *)
Definition stated_condition (item : Item.t) : string :=
  match Item.condition item with
  | Some (String c rest) => String c rest
  | Some EmptyString | None => "used"
  end.

(** The price a listing asks; a listing without one asks nothing. *)
Definition asking_price (item : Item.t) : float :=
  match Item.price item with
  | Some p => p
  | None => 0%float
  end.

(** 5000 for the premium tier, Hermès and Chanel, and 1500 for every other
    brand. *)
Definition base_value (brand : string) : float :=
  if string_dec brand "Hermès" then 5000%float
  else if string_dec brand "Chanel" then 5000%float
  else 1500%float.

(** The multiplier of the condition scale. *)
Definition scale_multiplier (score : Z) : float :=
  match score with
  | 1%Z => 0.1
  | 2%Z => 0.4
  | 3%Z => 0.65
  | 4%Z => 0.85
  | _ => 1
  end%float.

Definition estimate (brand : string) (score : Z) : float :=
  (base_value brand * scale_multiplier score)%float.

(** A listing is admitted with [brand] and [score]: the brand is the first
    target brand its title contains, the score that of the condition it
    states, and the estimate is strictly above 1.3 times the price it
    asks. *)
Definition admitted (item : Item.t) (brand : string) (score : Z) : Prop :=
  first_match (Item.title item) brand /\
  keyword_score (stated_condition item) score /\
  PrimFloat.ltb (asking_price item * 1.3)%float (estimate brand score) = true.

(** The signal of an admitted listing. *)
Definition signal_for (item : Item.t) (brand : string) (score : Z)
    (s : MarketSignal.t) : Prop :=
  MarketSignal.id s = ("EBAY-" ++ Item.itemId item)%string /\
  MarketSignal.source s = "eBay" /\
  MarketSignal.targetName s = Item.title item /\
  MarketSignal.brandCategory s = brand /\
  score_number (MarketSignal.conditionScore s) = score /\
  MarketSignal.listedPrice s = asking_price item /\
  MarketSignal.estimatedValue s = estimate brand score /\
  MarketSignal.profitMargin s
  = (estimate brand score - asking_price item)%float /\
  MarketSignal.url s = Item.itemWebUrl item /\
  MarketSignal.status s = MarketSignal.PENDING.

(** The signals of a list of listings: one for each admitted listing, in
    the order of the listings, and none for any other. *)
Inductive Emitted : list Item.t -> list MarketSignal.t -> Prop :=
| Emitted_none : Emitted [] []
| Emitted_signal item brand score s rest signals :
    admitted item brand score ->
    signal_for item brand score s ->
    Emitted rest signals ->
    Emitted (item :: rest) (s :: signals)
| Emitted_discard item rest signals :
    (forall brand score, ~ admitted item brand score) ->
    Emitted rest signals ->
    Emitted (item :: rest) signals.

End ValuationSpecification.

(* ===================================================================== *)
(** ** Worlds, fleets and listings of the examples *)
(* ===================================================================== *)

(** Worlds and fleets the examples run in. *)
Module Demo.


Definition node (id : string) (status : ProxyNode.Status) (latency : option Z)
  : ProxyNode.t :=
  ProxyNode.mk id "10.0.0.1" (Some 8080%Z) "http" status latency
    (match status with ProxyNode.DEAD => 1 | _ => 0 end)%Z
    "2024-01-01T00:00:00.000Z".

Definition fleet_50_20_80 : list ProxyNode.t :=
  [ node "10.0.0.1:8080" ProxyNode.ACTIVE (Some 50%Z);
    node "10.0.0.2:8080" ProxyNode.ACTIVE (Some 20%Z);
    node "10.0.0.3:8080" ProxyNode.ACTIVE (Some 80%Z) ].


End Demo.

(** A batch in which the first probe succeeds after 120 ms and every other
    probe fails. *)
Definition demo_probes : ProxyCommander.ProbeWorld :=
  {| ProxyCommander.probe_start := fun _ i => (1000 * Z.of_nat i)%Z;
     ProxyCommander.probe_outcome := fun _ i _ =>
       match i with
       | O => Some 120%Z
       | _ => None
       end;
     ProxyCommander.probe_stamp := fun _ _ => "2024-01-01T00:00:00.000Z" |}.


(** A harvest in which one source answers and the others fail. *)
Definition demo_harvest : ProxyCommander.HarvestWorld :=
  {| ProxyCommander.source_data := fun url =>
       if String.eqb url
            "https://raw.githubusercontent.com/prxchk/proxy-list/main/http.txt"
       then Some "1.2.3.4:80
  999.1.1.1:80  
not a proxy
1.2.3.4:8
1.2.3.4:80"
       else None;
     ProxyCommander.completion := rev ProxyCommander.PROXY_SOURCES |}.

(** Worlds of the fetch scenarios: what each request and each browser
    session gets. *)
Module Scenarios.

Definition world_of (gets : nat -> HttpOutcome)
    (sessions : nat -> BrowserOutcome) : World :=
  {| NEXT_PUBLIC_SUPABASE_URL := "https://demo.supabase.co";
     SUPABASE_SERVICE_ROLE_KEY := "service-role-key";
     PROXY_HOST := "";
     PROXY_PORT := None;
     PROXY_USER := "";
     PROXY_PASSWORD := "";
     createClient_error := None;
     select_error := false;
     insert_signals_error := None;
     insert_log_error := false;
     upsert_error := fun _ => None;
     axios_get := gets;
     chromium := sessions;
     now := fun _ => "2024-01-01T00:00:00.000Z" |}.

Definition forbidden : HttpOutcome :=
  HttpFail (Some 403%Z) "Request failed with status code 403".

Definition timed_out : HttpOutcome :=
  HttpFail None "timeout of 10000ms exceeded".

Definition no_browser : BrowserOutcome :=
  LaunchFails "browserType.launch: Executable doesn't exist".

Definition challenge_solved : BrowserOutcome :=
  PageContent "<html><body>results</body></html>" None.

(** Every request is refused with 403 and the browser solves the
    challenge. *)
Definition rescued : World :=
  world_of (fun _ => forbidden) (fun _ => challenge_solved).

(** Every request is refused with 403 and the browser cannot start. *)
Definition walled : World :=
  world_of (fun _ => forbidden) (fun _ => no_browser).

(** Every request times out. *)
Definition unreachable : World :=
  world_of (fun _ => timed_out) (fun _ => no_browser).

Definition start (w : World) : State := initial_state w [].

End Scenarios.

(** Worlds of the sweep scenarios. *)
Module SweepScenarios.

Definition gucci_bag : Item.t :=
  Item.mk "v1|110553|0" "Gucci Marmont shoulder bag" (Some "New")
    (Some 100%float) "https://www.ebay.com/itm/110553".

(** A used Gucci bag in good condition, estimated at 1500 x 0.65 = 975. *)
Definition used_gucci (price : float) : Item.t :=
  Item.mk "v1|220771|0" "Vintage Gucci Jackie hobo" (Some "Pre-owned - Good")
    (Some price) "https://www.ebay.com/itm/220771".

Definition one_listing : HttpOutcome :=
  HttpOk (Some (Payload.mk (Some [gucci_bag]) None)).

(** The store is reachable; [refused] is the error, if any, that the insert
    into [nexus_signals] comes back with. *)
Definition store_world (url key : string) (refused : option string) : World :=
  {| NEXT_PUBLIC_SUPABASE_URL := url;
     SUPABASE_SERVICE_ROLE_KEY := key;
     PROXY_HOST := "";
     PROXY_PORT := None;
     PROXY_USER := "";
     PROXY_PASSWORD := "";
     createClient_error := None;
     select_error := false;
     insert_signals_error := refused;
     insert_log_error := false;
     upsert_error := fun _ => None;
     axios_get := fun _ => one_listing;
     chromium := fun _ => Scenarios.no_browser;
     now := fun _ => "2024-01-01T00:00:00.000Z" |}.

Definition healthy : World :=
  store_world "https://demo.supabase.co" "service-role-key" None.

Definition insert_refused : World :=
  store_world "https://demo.supabase.co" "service-role-key"
    (Some "duplicate key value violates unique constraint").

Definition offline : World := store_world "" "" None.

End SweepScenarios.

(** Deployments: the URL of the store and what [createClient] makes of it,
    the proxy of the environment with its credentials, and what the
    requests and the browser sessions are answered. *)
Module Deployments.

Definition deployment (url : string) (refusal : option string)
    (host : string) (port : option Z) (user password : string)
    (gets : nat -> HttpOutcome) (sessions : nat -> BrowserOutcome) : World :=
  {| NEXT_PUBLIC_SUPABASE_URL := url;
     SUPABASE_SERVICE_ROLE_KEY := "service-role-key";
     PROXY_HOST := host;
     PROXY_PORT := port;
     PROXY_USER := user;
     PROXY_PASSWORD := password;
     createClient_error := refusal;
     select_error := false;
     insert_signals_error := None;
     insert_log_error := false;
     upsert_error := fun _ => None;
     axios_get := gets;
     chromium := sessions;
     now := fun _ => "2024-01-01T00:00:00.000Z" |}.

(** The URL of the store is set, and is no URL. *)
Definition malformed : World :=
  deployment "not-a-url"
    (Some "Invalid supabaseUrl: Must be a valid HTTP or HTTPS URL.")
    "" None "" ""
    (fun _ => SweepScenarios.one_listing) (fun _ => Scenarios.no_browser).

(** A proxy with credentials is configured in the environment; every
    request is refused with 403 and the browser gets through. *)
Definition proxied : World :=
  deployment "https://demo.supabase.co" None
    "10.0.0.5" (Some 3128%Z) "scout" "s3cret"
    (fun _ => Scenarios.forbidden) (fun _ => Scenarios.challenge_solved).

(** A row of the fleet, listening on port 8080. *)
Definition row (ip : string) (status : ProxyNode.Status) (latency : option Z)
  : ProxyNode.t :=
  ProxyNode.mk (ip ++ ":8080") ip (Some 8080%Z) "http" status latency
    (match status with ProxyNode.DEAD => 1 | _ => 0 end)%Z
    "2024-01-01T00:00:00.000Z".

(** Two ACTIVE rows, the second the faster, and a DEAD one. *)
Definition fleet : list ProxyNode.t :=
  [ row "10.0.0.1" ProxyNode.ACTIVE (Some 50%Z);
    row "10.0.0.2" ProxyNode.ACTIVE (Some 20%Z);
    row "10.0.0.3" ProxyNode.DEAD None ].

(** Every request is answered with the given listings. *)
Definition answering (items : list Item.t) : World :=
  deployment "https://demo.supabase.co" None "" None "" ""
    (fun _ => HttpOk (Some (Payload.mk (Some items) None)))
    (fun _ => Scenarios.no_browser).

End Deployments.

(** U+1F600, a character outside the basic plane: four bytes, two code
    units. *)
Definition grinning_face : string :=
  String (ascii_of_nat 240)
    (String (ascii_of_nat 159)
       (String (ascii_of_nat 152) (String (ascii_of_nat 128) EmptyString))).

(** U+00E9 and U+20AC, characters of the basic plane of two and three
    bytes: one code unit each. *)
Definition e_acute : string :=
  String (ascii_of_nat 195) (String (ascii_of_nat 169) EmptyString).

Definition euro_sign : string :=
  String (ascii_of_nat 226)
    (String (ascii_of_nat 130) (String (ascii_of_nat 172) EmptyString)).

(** The first [k] requests time out, the ones after them are answered with
    one listing; the browser cannot start. *)
Definition flaky (k : nat) : World :=
  Scenarios.world_of
    (fun n => if (n <? k)%nat then Scenarios.timed_out
              else SweepScenarios.one_listing)
    (fun _ => Scenarios.no_browser).

(** Every request is refused with 403; the page loads, and closing the
    browser throws. *)
Definition stuck_browser : World :=
  Scenarios.world_of (fun _ => Scenarios.forbidden)
    (fun _ => PageContent "<html></html>"
                (Some (ErrorObj "browser.close: Target closed"))).

(** Worlds and requests of the route scenarios. *)
Module RouteScenarios.

Import Routes.

(** The routes over a world of the engine: no key of their own is
    configured, so the demo key is expected and payments are simulated; the
    clock advances by 2.5 s between two readings; the harvest and the probes
    are those of the fleet examples, and sorting reverses the harvest. *)
Definition control_center (w : World) : RouteWorld :=
  {| engine := w;
     NEXT_PUBLIC_NEXUS_GOD_MODE_KEY := "";
     STRIPE_SECRET_KEY := "";
     date_now := fun n => (1700000000000 + 2500 * Z.of_nat n)%Z;
     harvest := demo_harvest;
     probes := demo_probes;
     shuffled := fun l => rev l;
     paymentIntents_create := fun _ => StripeFails "No such payment method";
     update_error := false |}.

(** The same with a live Stripe key: [declined] is the error Stripe answers
    with, if any. *)
Definition live (w : World) (declined : option string) : RouteWorld :=
  {| engine := w;
     NEXT_PUBLIC_NEXUS_GOD_MODE_KEY := "";
     STRIPE_SECRET_KEY := "sk_live_51Nexus";
     date_now := fun n => (1700000000000 + 2500 * Z.of_nat n)%Z;
     harvest := demo_harvest;
     probes := demo_probes;
     shuffled := fun l => rev l;
     paymentIntents_create := fun _ =>
       match declined with
       | Some message => StripeFails message
       | None => PaymentIntent "pi_3Nexus"
       end;
     update_error := false |}.

(** A request with the demo key, to execute the Gucci bag at its price. *)
Definition operator : Request :=
  {| authorization := Some "Bearer demo-key";
     request_json := JsonBody (Some "EBAY-v1|110553|0") (Some 100%float) |}.

(** A request without a key. *)
Definition stranger : Request :=
  {| authorization := None;
     request_json := JsonBody (Some "EBAY-v1|110553|0") (Some 100%float) |}.

End RouteScenarios.

(** Ten listings: what they ask, and the condition they state. *)
Definition listing (id title : string) (condition : option string)
    (price : option float) : Item.t :=
  Item.mk id title condition price ("https://www.ebay.com/itm/" ++ id)%string.

Definition catalogue : list Item.t :=
  [ listing "1" "Gucci Marmont shoulder bag" (Some "New") (Some 1153%float);
    listing "2" "Gucci Marmont shoulder bag" (Some "New") (Some 1154%float);
    listing "3" "Gucci Dionysus" (Some "For parts or not working")
      (Some 700%float);
    listing "4" "Gucci Dionysus" (Some "NEW in box") (Some 700%float);
    listing "5" "Vintage Gucci Jackie hobo" None (Some 749%float);
    listing "6" "Vintage Gucci Jackie hobo" (Some "") (Some 750%float);
    listing "7" "Chanel x Gucci tote" (Some "Pre-owned - Good")
      (Some 2499%float);
    listing "8" "Chanel classic flap" (Some "Pre-owned - Good")
      (Some 2500%float);
    listing "9" "Vintage leather bag" (Some "New") (Some 1%float);
    listing "10" "gucci belt bag" (Some "New") (Some 1%float) ].

(* ===================================================================== *)
(** ** Proof tools *)
(* ===================================================================== *)

(** Reading the fields of a state through its updates. *)
Ltac state_fields :=
  cbn [trace proxyConfig nexus_proxies nexus_signals nexus_logs http_calls
       browser_sessions clock_reads log_event with_proxyConfig with_proxies
       with_signals with_logs tick_http tick_browser tick_clock fst snd] in *.

(** Running the monad one layer, with the states kept folded. *)
Ltac run_effects :=
  unfold bind, get_proxyConfig, set_proxyConfig, next_http_call,
    next_browser_session, next_clock_read, get_proxies, set_proxies,
    add_signals, add_log, console, emit, ret, throw;
  cbn beta iota.

(** A frame whose events are at hand, field by field. *)
Ltac frame_by_fields :=
  unfold frame, attempts, bypasses; state_fields; rewrite <- ?app_assoc;
  cbn [app]; (split; [reflexivity |]);
  cbn [filter is_request is_session length];
  repeat split; try reflexivity; lia.

(** The paths of the execute route, one goal each, with the state of each
    written out. *)
Ltac execute_paths rw request :=
  unfold ExecuteRoute.POST;
  destruct (Routes.credentials_missing (Routes.engine rw)) eqn:Hmissing;
    [| destruct (Routes.authorized rw request) eqn:Hauthorized; cbn [negb];
       [destruct (Routes.request_json request)
          as [message | [[|a signalId] |] price] eqn:Hjson;
        [ | | destruct (String.eqb (ExecuteRoute.stripeKey rw) "sk_test_dummy")
                eqn:Hkey; cbn [negb];
              [| destruct (Routes.paymentIntents_create rw price)
                   as [tx | declined] eqn:Hstripe] | ] |]];
  unfold ExecuteRoute.complete, ExecuteRoute.failed, ExecuteRoute.insert_log,
    ExecuteRoute.call;
  cbn [ExecuteRoute.signals ExecuteRoute.logs ExecuteRoute.clock
       ExecuteRoute.calls fst snd Routes.status Routes.body];
  try destruct (Routes.update_error rw) eqn:Hupdate;
  cbn [ExecuteRoute.signals ExecuteRoute.logs ExecuteRoute.clock
       ExecuteRoute.calls fst snd Routes.status Routes.body].

(** Membership in a list of calls put together with [++]. *)
Ltac in_calls Hin :=
  match type of Hin with
  | In _ (_ ++ _) =>
      apply in_app_or in Hin; destruct Hin as [Hin | Hin]; in_calls Hin
  | In _ (_ :: _) => destruct Hin as [Hin | Hin]; in_calls Hin
  | In _ [] => destruct Hin
  | _ => idtac
  end.

(* ===================================================================== *)
(** ** Facts on the string operations *)
(* ===================================================================== *)

Lemma append_empty_r (s : string) : (s ++ "")%string = s.
Proof. induction s; simpl; congruence. Qed.

Lemma startsWith_iff (p s : string) :
  startsWith s p = true <-> exists r, s = (p ++ r)%string.
Proof.
  revert s. induction p as [|a p IH]; intros s; simpl.
  - split; [intros _; now exists s | reflexivity].
  - destruct s as [|b s]; simpl.
    + split; [discriminate | intros [r H]; discriminate].
    + rewrite andb_true_iff, IH. split.
      * intros [E [r ->]]. apply Ascii.eqb_eq in E. subst b. now exists r.
      * intros [r H]. injection H as -> ->.
        split; [apply Ascii.eqb_refl | now exists r].
Qed.

Lemma includes_iff (s sub : string) :
  includes s sub = true <-> contains s sub.
Proof.
  unfold contains. induction s as [|c s IH].
  - simpl. rewrite orb_false_r, startsWith_iff. split.
    + intros [r H]. now exists EmptyString, r.
    + intros [pre [post H]]. destruct pre; simpl in H.
      * now exists post.
      * discriminate.
  - change (includes (String c s) sub)
      with (startsWith (String c s) sub || includes s sub).
    rewrite orb_true_iff, startsWith_iff, IH. split.
    + intros [[r H] | [pre [post H]]].
      * now exists EmptyString, r.
      * exists (String c pre), post. simpl. now rewrite H.
    + intros [pre [post H]]. destruct pre as [|a pre]; simpl in H.
      * left. now exists post.
      * right. injection H as _ H. now exists pre, post.
Qed.

Lemma includes_false_iff (s sub : string) :
  includes s sub = false <-> ~ contains s sub.
Proof.
  rewrite <- includes_iff. destruct (includes s sub); split; intro H;
    try reflexivity; try discriminate; try (intro; discriminate).
  exfalso. now apply H.
Qed.

Section SplitFacts.

Lemma split_not_nil (sep : ascii) (s : string) : split sep s <> [].
Proof.
  destruct s as [|c s]; simpl; [discriminate |].
  destruct (Ascii.eqb c sep); [discriminate |].
  destruct (split sep s); discriminate.
Qed.

(** Joining the parts with the separator gives the string back. *)
Lemma join_split (sep : ascii) (s : string) : join sep (split sep s) = s.
Proof.
  induction s as [|c s IH]; [reflexivity |].
  simpl. destruct (Ascii.eqb_spec c sep) as [-> | Hne].
  - pose proof (split_not_nil sep s) as Hn.
    destruct (split sep s) as [|p rest]; [contradiction |].
    change (join sep (EmptyString :: p :: rest))
      with (String sep (join sep (p :: rest))).
    now rewrite IH.
  - pose proof (split_not_nil sep s) as Hn.
    destruct (split sep s) as [|p rest]; [contradiction |].
    destruct rest as [|q rest]; simpl in *; now rewrite IH.
Qed.

(** No part contains the separator. *)
Lemma split_parts_free (sep : ascii) (s : string) :
  Forall (fun p => ~ In sep (list_ascii_of_string p)) (split sep s).
Proof.
  induction s as [|c s IH]; simpl.
  - constructor; [intros [] | constructor].
  - destruct (Ascii.eqb_spec c sep) as [-> | Hne].
    + constructor; [intros [] | exact IH].
    + pose proof (split_not_nil sep s) as Hn.
      destruct (split sep s) as [|p rest]; [contradiction |].
      inversion IH as [|? ? Hp Hrest]; subst.
      constructor; [| exact Hrest].
      simpl. intros [H | H]; [now apply Hne | now apply Hp].
Qed.

End SplitFacts.

(* ===================================================================== *)
(** ** Condition scoring *)
(* ===================================================================== *)

Section ConditionScoring.

Import NexusHunter.

Lemma includes2_true (t a b : string) :
  includes t a || includes t b = true <-> contains t a \/ contains t b.
Proof. now rewrite orb_true_iff, !includes_iff. Qed.

Lemma includes2_false (t a b : string) :
  includes t a || includes t b = false <-> ~ (contains t a \/ contains t b).
Proof.
  rewrite <- includes2_true.
  destruct (includes t a || includes t b); split; intro H;
    try reflexivity; try discriminate; try (intro; discriminate).
  exfalso. now apply H.
Qed.

(** The code's lower-casing is the lowercased text of the
    specification. *)
Lemma lower_ascii_small_letter (c : ascii) : lower_ascii c = small_letter c.
Proof.
  destruct c as [[] [] [] [] [] [] [] []]; vm_compute; reflexivity.
Qed.

Lemma toLowerCase_lowercased (s : string) : toLowerCase s = lowercased s.
Proof.
  induction s as [|c s IH]; [reflexivity |].
  cbn [toLowerCase lowercased]. now rewrite IH, lower_ascii_small_letter.
Qed.

(** C8.  [calculateCondition] goes through the keyword groups in order on
    the lowercased text, whatever the case it is written in: "new" or
    "mint" gives 5; failing that, "excellent" gives 4; failing that, "good"
    or "used" gives 3; failing that, "fair" or "parts" gives 2; and
    anything else gives 1.  So "New" and "MINT in box" score 5, "Excellent"
    4, "Very GOOD" and "Used" 3, "FAIR" and "For Parts" 2, "broken" 1; and
    the earlier group wins: "like new, used once" scores 5, "excellent but
    fair" 4, "good for parts" 3. *)
Theorem calculateCondition_keyword_order (s : string) :
  (let text := lowercased s in
   let score := score_number (calculateCondition s) in
   (contains text "new" \/ contains text "mint" -> score = 5%Z) /\
   (~ (contains text "new" \/ contains text "mint") ->
    (contains text "excellent" -> score = 4%Z) /\
    (~ contains text "excellent" ->
     (contains text "good" \/ contains text "used" -> score = 3%Z) /\
     (~ (contains text "good" \/ contains text "used") ->
      (contains text "fair" \/ contains text "parts" -> score = 2%Z) /\
      (~ (contains text "fair" \/ contains text "parts") -> score = 1%Z))))) /\
  map (fun text => score_number (calculateCondition text))
    [ "New"; "MINT in box"; "Excellent"; "Very GOOD"; "Used"; "FAIR";
      "For Parts"; "broken"; "like new, used once"; "excellent but fair";
      "good for parts" ]
  = [5; 5; 4; 3; 3; 2; 2; 1; 5; 4; 3]%Z.
Proof.
  split; [| vm_compute; reflexivity].
  cbv zeta. unfold calculateCondition. rewrite toLowerCase_lowercased.
  destruct (includes (lowercased s) "new" || includes (lowercased s) "mint")
    eqn:E5.
  { apply includes2_true in E5. split; [reflexivity | tauto]. }
  apply includes2_false in E5. split; [tauto | intros _].
  destruct (includes (lowercased s) "excellent") eqn:E4.
  { apply includes_iff in E4. split; [reflexivity | tauto]. }
  apply includes_false_iff in E4. split; [tauto | intros _].
  destruct (includes (lowercased s) "good" || includes (lowercased s) "used")
    eqn:E3.
  { apply includes2_true in E3. split; [reflexivity | tauto]. }
  apply includes2_false in E3. split; [tauto | intros _].
  destruct (includes (lowercased s) "fair" || includes (lowercased s) "parts")
    eqn:E2.
  { apply includes2_true in E2. split; [reflexivity | tauto]. }
  apply includes2_false in E2. split; [tauto | reflexivity].
Qed.

(** The score of the code is the score by ordered keyword matching, and
    the only one. *)
Lemma calculateCondition_scored (s : string) (score : Z) :
  keyword_score s score <-> score = score_number (calculateCondition s).
Proof.
  unfold keyword_score, calculateCondition. cbv zeta.
  rewrite toLowerCase_lowercased.
  destruct (includes (lowercased s) "new" || includes (lowercased s) "mint")
    eqn:E5.
  { apply includes2_true in E5. cbn [score_number]. tauto. }
  apply includes2_false in E5.
  destruct (includes (lowercased s) "excellent") eqn:E4.
  { apply includes_iff in E4. cbn [score_number]. tauto. }
  apply includes_false_iff in E4.
  destruct (includes (lowercased s) "good" || includes (lowercased s) "used")
    eqn:E3.
  { apply includes2_true in E3. cbn [score_number]. tauto. }
  apply includes2_false in E3.
  destruct (includes (lowercased s) "fair" || includes (lowercased s) "parts")
    eqn:E2.
  { apply includes2_true in E2. cbn [score_number]. tauto. }
  apply includes2_false in E2. cbn [score_number]. tauto.
Qed.

End ConditionScoring.

(* ===================================================================== *)
(** ** Picking the optimal proxy *)
(* ===================================================================== *)

Section OptimalProxy.

Import ProxyCommander.










End OptimalProxy.

Section OptimalProxyClaim.

Import ProxyCommander.

Lemma getSupabase_ok (w : World) (st : State) :
  NEXT_PUBLIC_SUPABASE_URL w <> "" ->
  SUPABASE_SERVICE_ROLE_KEY w <> "" ->
  getSupabase w st = (Returns tt, st).
Proof.
  intros Hu Hk. unfold getSupabase.
  apply String.eqb_neq in Hu, Hk. now rewrite Hu, Hk.
Qed.

Lemma getOptimalProxy_run (w : World) (st : State) :
  NEXT_PUBLIC_SUPABASE_URL w <> "" ->
  SUPABASE_SERVICE_ROLE_KEY w <> "" ->
  getOptimalProxy w st =
  (Returns (if select_error w then None else optimal_row (nexus_proxies st)),
   log_event EvSelectOptimal st).
Proof.
  intros Hu Hk. unfold getOptimalProxy, bind.
  rewrite (getSupabase_ok w st Hu Hk). reflexivity.
Qed.



End OptimalProxyClaim.

(* ===================================================================== *)
(** ** Probing a batch and persisting it *)
(* ===================================================================== *)

Section ValidateBatch.

Import ProxyCommander.

Variable pw : ProbeWorld.

Lemma check_from_split (width c i : nat) (l : list string) :
  check_from pw width i l
  = check_from pw width i (firstn c l)
    ++ check_from pw width (i + c) (skipn c l).
Proof.
  revert i l. induction c as [|c IH]; intros i l.
  - simpl. now rewrite Nat.add_0_r.
  - destruct l as [|p l]; simpl; [reflexivity |].
    rewrite (IH (S i) l). now rewrite Nat.add_succ_r.
Qed.

Lemma check_from_length (width i : nat) (l : list string) :
  length (check_from pw width i l) = length l.
Proof. revert i. induction l; intros i; simpl; congruence. Qed.

Lemma check_from_nth (width : nat) (l : list string) (i k : nat)
    (p : string) :
  nth_error l k = Some p ->
  nth_error (check_from pw width i l) k = Some (check pw width (i + k) p).
Proof.
  revert i k. induction l as [|q l IH]; intros i k H.
  - destruct k; discriminate.
  - destruct k as [|k]; simpl in *.
    + injection H as ->. now rewrite Nat.add_0_r.
    + rewrite (IH (S i) k H). now rewrite Nat.add_succ_r.
Qed.

Lemma check_invariant (width i : nat) (p : string) :
  active_iff_latency (check pw width i p).
Proof.
  unfold active_iff_latency, check.
  destruct (probe_outcome pw width i p); simpl; split; intro H;
    try reflexivity; try discriminate; congruence.
Qed.

Lemma check_from_invariant (width i : nat) (l : list string) :
  Forall active_iff_latency (check_from pw width i l).
Proof.
  revert i. induction l; intros i; simpl; constructor;
    [apply check_invariant | apply IHl].
Qed.

(** With groups of at least one proxy, a round per proxy is fuel enough, and
    the loop hands back the nodes of all proxies, in the order of the
    batch. *)
Lemma validateBatch_loop_total (proxies : list string) (concurrency : nat) :
  0 < concurrency ->
  forall fuel i results,
    length proxies - i <= fuel ->
    validateBatch_loop pw proxies concurrency fuel i results
    = Some (results ++ check_from pw concurrency i (skipn i proxies)).
Proof.
  intros Hc. induction fuel as [|fuel IH]; intros i results Hf.
  - simpl. destruct (Nat.ltb_spec i (length proxies)); [lia |].
    rewrite skipn_all2 by lia. simpl. now rewrite app_nil_r.
  - simpl. destruct (Nat.ltb_spec i (length proxies)).
    + rewrite IH by lia. unfold slice.
      replace (i + concurrency - i) with concurrency by lia.
      rewrite <- app_assoc. do 2 f_equal.
      rewrite (check_from_split concurrency concurrency i (skipn i proxies)).
      rewrite skipn_skipn.
      now replace (concurrency + i) with (i + concurrency) by lia.
    + rewrite skipn_all2 by lia. simpl. now rewrite app_nil_r.
Qed.

Lemma validateBatch_total (proxies : list string) (concurrency fuel : nat) :
  0 < concurrency ->
  length proxies <= fuel ->
  validateBatch pw fuel proxies concurrency
  = Some (check_from pw concurrency 0 proxies).
Proof.
  intros Hc Hf. unfold validateBatch.
  rewrite validateBatch_loop_total by (trivial; lia). reflexivity.
Qed.

End ValidateBatch.

Section ZeroWidth.

Import ProxyCommander.

(** With groups of no proxy the index never moves: on a batch that is not
    empty the loop does not end, whatever the fuel. *)
Lemma validateBatch_zero_width (pw : ProbeWorld) (p : string)
    (proxies : list string) (fuel : nat) :
  validateBatch pw fuel (p :: proxies) 0 = None.
Proof.
  unfold validateBatch. generalize (@nil ProxyNode.t) as results.
  induction fuel as [|fuel IH]; intros results; [reflexivity |].
  cbn [validateBatch_loop length Nat.ltb Nat.leb Nat.add]. apply IH.
Qed.

End ZeroWidth.

Section Persist.

Import ProxyCommander.

Variable P : ProxyNode.t -> Prop.

Lemma upsert_row_Forall (r : ProxyNode.t) (table : list ProxyNode.t) :
  P r -> Forall P table -> Forall P (upsert_row r table).
Proof.
  intros Hr. induction 1 as [|x rest Hx Hrest IH]; simpl.
  - now constructor.
  - destruct (String.eqb (ProxyNode.id x) (ProxyNode.id r));
      constructor; trivial.
Qed.

Lemma upsert_rows_Forall (rows table : list ProxyNode.t) :
  Forall P rows -> Forall P table -> Forall P (upsert_rows rows table).
Proof.
  unfold upsert_rows. intros Hrows. revert table.
  induction Hrows as [|r rows Hr Hrows IH]; intros table Ht; simpl.
  - exact Ht.
  - apply IH. now apply upsert_row_Forall.
Qed.

Lemma slice_In {A} (i j : nat) (l : list A) (x : A) :
  In x (slice i j l) -> In x l.
Proof.
  unfold slice. intros H.
  rewrite <- (firstn_skipn i l). apply in_or_app. right.
  rewrite <- (firstn_skipn (j - i) (skipn i l)). apply in_or_app. now left.
Qed.

Lemma slice_Forall (i j : nat) (l : list ProxyNode.t) :
  Forall P l -> Forall P (slice i j l).
Proof.
  intros H. rewrite Forall_forall in *.
  intros x Hx. apply H. eapply slice_In, Hx.
Qed.

Lemma sync_chunk_Forall (w : World) (k : nat) (chunk : list ProxyNode.t)
    (st : State) :
  Forall P chunk -> Forall P (nexus_proxies st) ->
  Forall P (nexus_proxies (snd (sync_chunk w k chunk st))) /\
  fst (sync_chunk w k chunk st) = Returns tt.
Proof.
  intros Hc Ht. unfold sync_chunk, bind, emit, console, emit.
  destruct (upsert_error w k); simpl; [now split |].
  split; [| reflexivity]. now apply upsert_rows_Forall.
Qed.

Lemma sync_loop_Forall (w : World) (nodes : list ProxyNode.t) :
  Forall P nodes ->
  forall fuel k st,
    Forall P (nexus_proxies st) ->
    Forall P (nexus_proxies (snd (sync_loop w nodes fuel k st))).
Proof.
  intros Hn. induction fuel as [|fuel IH]; intros k st Ht; simpl.
  - destruct (k * chunkSize <? length nodes)%nat; exact Ht.
  - destruct (k * chunkSize <? length nodes)%nat; [| exact Ht].
    unfold bind.
    destruct (sync_chunk_Forall w k
                (slice (k * chunkSize) (k * chunkSize + chunkSize) nodes) st
                (slice_Forall _ _ _ Hn) Ht) as [H1 H2].
    destruct (sync_chunk w k _ st) as [[[]|e] st1]; simpl in *;
      [now apply IH | discriminate].
Qed.

Lemma syncToDatabase_Forall (w : World) (fuel : nat)
    (nodes : list ProxyNode.t) (st : State) :
  Forall P nodes -> Forall P (nexus_proxies st) ->
  Forall P (nexus_proxies (snd (syncToDatabase w fuel nodes st))).
Proof.
  intros Hn Ht. unfold syncToDatabase, bind, getSupabase.
  destruct (_ || _); simpl; [exact Ht |].
  pose proof (sync_loop_Forall w nodes Hn fuel 0 st Ht) as H.
  destruct (sync_loop w nodes fuel 0 st) as [[b|e] st1]; simpl in *; exact H.
Qed.

End Persist.

Section ValidateBatchClaim.

Import ProxyCommander.

(** C5.  With groups of at least one proxy, [validateBatch] ends and yields
    one node per proxy of the batch, in order.  A probe that succeeds yields
    status ACTIVE, the measured latency (not null) and [fail_count = 0]; a
    probe that fails yields status DEAD, a null latency and [fail_count = 1].
    So every node produced has status ACTIVE exactly when its latency is not
    null, and persisting the nodes with [syncToDatabase] keeps that true of
    every row of [nexus_proxies]. *)
Theorem validateBatch_active_iff_latency (pw : ProbeWorld)
    (proxies : list string) (concurrency fuel : nat) :
  0 < concurrency ->
  length proxies <= fuel ->
  exists nodes,
    validateBatch pw fuel proxies concurrency = Some nodes /\
    length nodes = length proxies /\
    (forall i p, nth_error proxies i = Some p ->
       exists n,
         nth_error nodes i = Some n /\
         ProxyNode.id n = p /\
         match probe_outcome pw concurrency i p with
         | Some finished =>
             ProxyNode.status n = ProxyNode.ACTIVE /\
             ProxyNode.latency n
             = Some (finished - probe_start pw concurrency i)%Z /\
             ProxyNode.fail_count n = 0%Z
         | None =>
             ProxyNode.status n = ProxyNode.DEAD /\
             ProxyNode.latency n = None /\
             ProxyNode.fail_count n = 1%Z
         end) /\
    Forall active_iff_latency nodes /\
    (forall w st sync_fuel,
       Forall active_iff_latency (nexus_proxies st) ->
       Forall active_iff_latency
         (nexus_proxies (snd (syncToDatabase w sync_fuel nodes st)))).
Proof.
  intros Hc Hf. exists (check_from pw concurrency 0 proxies).
  split; [now apply validateBatch_total |].
  split; [apply check_from_length |].
  split; [| split].
  - intros i p Hp. exists (check pw concurrency i p).
    split; [exact (check_from_nth pw concurrency proxies 0 i p Hp) |].
    unfold check. destruct (probe_outcome pw concurrency i p); simpl; auto.
  - apply check_from_invariant.
  - intros w st sync_fuel Ht.
    apply syncToDatabase_Forall; [apply check_from_invariant | exact Ht].
Qed.

Lemma validateBatch_active_iff_latency_witness :
  (0 < 50 /\ length ["1.2.3.4:80"; "5.6.7.8:8080"] <= 2) /\
  exists nodes,
    validateBatch demo_probes 2 ["1.2.3.4:80"; "5.6.7.8:8080"] 50 = Some nodes /\
    Forall active_iff_latency nodes.
Proof.
  assert (Hc : 0 < 50) by lia.
  assert (Hf : length ["1.2.3.4:80"; "5.6.7.8:8080"] <= 2) by (simpl; lia).
  split; [now split |].
  destruct (validateBatch_active_iff_latency demo_probes
              ["1.2.3.4:80"; "5.6.7.8:8080"] 50 2 Hc Hf)
    as (nodes & Hrun & _ & _ & Hinv & _).
  exists nodes. now split.
Defined.

End ValidateBatchClaim.

(* ===================================================================== *)
(** ** The matcher computes the language of the expression *)
(* ===================================================================== *)

Section RegexSemantics.

Lemma rep_iter (m : string -> list string) (R : string -> string -> Prop) :
  (forall s rest, In rest (m s) <-> R s rest) ->
  forall hi lo s rest,
    In rest (Regex.rep m lo hi s) <->
    exists n, lo <= n <= hi /\ Regex.iter n R s rest.
Proof.
  intros Hm. induction hi as [|hi IH]; intros lo s rest.
  - simpl. rewrite app_nil_r. destruct (Nat.eqb_spec lo 0) as [-> | Hlo]; simpl.
    + split.
      * intros [<- | []]. exists 0. split; [lia | reflexivity].
      * intros [n [Hn Hi]]. assert (n = 0) by lia. subst n. now left.
    + split; [intros [] | intros [n [Hn _]]; lia].
  - simpl. rewrite in_app_iff, in_flat_map. split.
    + intros [H | [mid [Hmid Hrest]]].
      * destruct (Nat.eqb_spec lo 0) as [-> | Hlo]; [| destruct H].
        destruct H as [<- | []]. exists 0. split; [lia | reflexivity].
      * apply IH in Hrest. destruct Hrest as [n [Hn Hi]].
        exists (S n). split; [lia |]. exists mid. split; [now apply Hm | exact Hi].
    + intros [[|n] [Hn Hi]].
      * left. simpl in Hi. subst rest.
        assert (lo = 0) by lia. subst lo. now left.
      * right. destruct Hi as [mid [Hmid Hi]]. exists mid.
        split; [now apply Hm |]. apply IH. exists n. split; [lia | exact Hi].
Qed.

Lemma remainders_matches (r : Regex.t) :
  forall s rest, In rest (Regex.remainders r s) <-> Regex.matches r s rest.
Proof.
  induction r as [| a | r1 IH1 r2 IH2 | lo hi r IH]; intros s rest; simpl.
  - destruct s as [|c s]; simpl.
    + split; [intros [] | intros [c [_ H]]; discriminate].
    + destruct (is_digit c) eqn:E; simpl.
      * split.
        -- intros [<- | []]. now exists c.
        -- intros [c' [_ H]]. injection H as _ <-. now left.
      * split; [intros [] | intros [c' [Hc H]]].
        injection H as <- _. congruence.
  - destruct s as [|c s]; simpl.
    + split; [intros [] | discriminate].
    + destruct (Ascii.eqb_spec c a) as [-> | Hne]; simpl.
      * split; [intros [<- | []]; reflexivity | intros H].
        injection H as <-. now left.
      * split; [intros [] | intros H]. injection H as H _. contradiction.
  - rewrite in_flat_map. split.
    + intros [mid [H1 H2]]. exists mid. now rewrite <- IH1, <- IH2.
    + intros [mid [H1 H2]]. exists mid. now rewrite IH1, IH2.
  - apply rep_iter. exact IH.
Qed.

Lemma test_anchored_matches (r : Regex.t) (s : string) :
  Regex.test_anchored r s = true <-> Regex.matches r s EmptyString.
Proof.
  unfold Regex.test_anchored. rewrite existsb_exists, <- remainders_matches.
  split.
  - intros [x [Hx E]]. apply String.eqb_eq in E. now subst x.
  - intros H. exists EmptyString. split; [exact H | apply String.eqb_refl].
Qed.

End RegexSemantics.

(* ===================================================================== *)
(** ** The strict ip:port pattern *)
(* ===================================================================== *)

Section StrictPattern.

Import ProxyCommander.

Lemma is_digit_iff (c : ascii) :
  is_digit c = true <->
  In c ["0"; "1"; "2"; "3"; "4"; "5"; "6"; "7"; "8"; "9"]%char.
Proof.
  split.
  - destruct c as [[] [] [] [] [] [] [] []]; vm_compute; intros H;
      try discriminate; tauto.
  - intros H. repeat (destruct H as [<- | H]; [reflexivity |]). destruct H.
Qed.

Lemma iter_digits (n : nat) (s rest : string) :
  Regex.iter n (Regex.matches Regex.Digit) s rest <->
  exists d, Forall (fun c => is_digit c = true) (list_ascii_of_string d) /\
            String.length d = n /\ s = (d ++ rest)%string.
Proof.
  revert s. induction n as [|n IH]; intros s; simpl.
  - split.
    + intros ->. exists EmptyString. repeat split. constructor.
    + intros [d [_ [Hl ->]]]. destruct d; [reflexivity | discriminate].
  - split.
    + intros [mid [[c [Hc ->]] Hi]]. apply IH in Hi.
      destruct Hi as [d [Hd [Hl ->]]]. exists (String c d). simpl.
      repeat split; [now constructor | now rewrite Hl].
    + intros [d [Hd [Hl ->]]]. destruct d as [|c d]; [discriminate |].
      simpl in *. inversion Hd; subst. exists (d ++ rest)%string. split.
      * now exists c.
      * apply IH. exists d. repeat split; trivial. now injection Hl.
Qed.

Lemma matches_digits (lo hi : nat) (s rest : string) :
  Regex.matches (Regex.Rep lo hi Regex.Digit) s rest <->
  exists d, digit_run lo hi d /\ s = (d ++ rest)%string.
Proof.
  simpl. unfold digit_run. split.
  - intros [n [Hn Hi]]. apply iter_digits in Hi.
    destruct Hi as [d [Hd [Hl ->]]]. exists d. repeat split; trivial; lia.
  - intros [d [[Hd Hl] ->]]. exists (String.length d). split; [lia |].
    apply iter_digits. now exists d.
Qed.

Lemma matches_octet_dot (s rest : string) :
  Regex.matches
    (Regex.Cat (Regex.Rep 1 3 Regex.Digit) (Regex.Chr ".")) s rest <->
  exists d, digit_run 1 3 d /\ s = (d ++ "." ++ rest)%string.
Proof.
  change (Regex.matches (Regex.Cat ?a ?b) s rest)
    with (exists mid, Regex.matches a s mid /\ Regex.matches b mid rest).
  split.
  - intros [mid [H1 H2]]. apply matches_digits in H1.
    destruct H1 as [d [Hd ->]]. simpl in H2. subst mid. now exists d.
  - intros [d [Hd ->]]. exists ("." ++ rest)%string. split.
    + apply matches_digits. now exists d.
    + reflexivity.
Qed.

(** The expression of the source and the pattern of the specification
    accept the same strings. *)
Lemma proxyRegex_test_iff (s : string) :
  proxyRegex_test s = true <-> strict_ip_port s.
Proof.
  unfold proxyRegex_test, proxyRegex. rewrite test_anchored_matches.
  unfold strict_ip_port.
  change (Regex.matches (Regex.Cat ?a ?b) s EmptyString)
    with (exists mid, Regex.matches a s mid /\ Regex.matches b mid EmptyString).
  split.
  - intros [m3 [H123 Htail]].
    destruct H123 as [n [Hn Hi]]. assert (n = 3) by lia. subst n.
    destruct Hi as [m1 [H1 [m2 [H2 [m3' [H3 E]]]]]]. simpl in E. subst m3'.
    apply matches_octet_dot in H1, H2, H3.
    destruct H1 as [o1 [D1 ->]], H2 as [o2 [D2 ->]], H3 as [o3 [D3 ->]].
    change (Regex.matches (Regex.Cat ?a ?b) m3 EmptyString)
      with (exists mid, Regex.matches a m3 mid
                        /\ Regex.matches b mid EmptyString) in Htail.
    destruct Htail as [m4 [H4 Hport]]. apply matches_digits in H4.
    destruct H4 as [o4 [D4 ->]].
    change (Regex.matches (Regex.Cat ?a ?b) m4 EmptyString)
      with (exists mid, Regex.matches a m4 mid
                        /\ Regex.matches b mid EmptyString) in Hport.
    destruct Hport as [m5 [Hc H5]]. simpl in Hc. subst m4.
    apply matches_digits in H5. destruct H5 as [port [D5 ->]].
    exists o1, o2, o3, o4, port.
    repeat (split; [assumption |]). now rewrite append_empty_r.
  - intros (o1 & o2 & o3 & o4 & port & D1 & D2 & D3 & D4 & D5 & ->).
    exists (o4 ++ ":" ++ port)%string. split.
    + exists 3. split; [lia |].
      exists (o2 ++ "." ++ o3 ++ "." ++ o4 ++ ":" ++ port)%string.
      split; [apply matches_octet_dot; now exists o1 |].
      exists (o3 ++ "." ++ o4 ++ ":" ++ port)%string.
      split; [apply matches_octet_dot; now exists o2 |].
      exists (o4 ++ ":" ++ port)%string.
      split; [apply matches_octet_dot; now exists o3 | reflexivity].
    + exists (":" ++ port)%string. split.
      * apply matches_digits. now exists o4.
      * exists port. split; [reflexivity |].
        apply matches_digits. exists port. split; trivial.
        now rewrite append_empty_r.
Qed.

End StrictPattern.

(* ===================================================================== *)
(** ** Harvesting the sources *)
(* ===================================================================== *)

Section Harvest.

Import ProxyCommander.

Lemma set_add_In (x y : string) (set : list string) :
  In x (set_add y set) <-> x = y \/ In x set.
Proof.
  unfold set_add. destruct (existsb (String.eqb y) set) eqn:E.
  - split; [now right | intros [-> | H]; trivial].
    apply existsb_exists in E. destruct E as [z [Hz E]].
    apply String.eqb_eq in E. now subst z.
  - rewrite in_app_iff. simpl. intuition.
Qed.

Lemma set_add_NoDup (y : string) (set : list string) :
  NoDup set -> NoDup (set_add y set).
Proof.
  intros H. unfold set_add. destruct (existsb (String.eqb y) set) eqn:E.
  - exact H.
  - apply (Permutation_NoDup (Permutation_cons_append set y)).
    constructor; [| exact H].
    intros Hin. assert (existsb (String.eqb y) set = true); [| congruence].
    apply existsb_exists. exists y. split; [exact Hin | apply String.eqb_refl].
Qed.

Lemma add_lines_In (lines : list string) :
  forall rawProxies p,
    In p (add_lines lines rawProxies) <->
    In p rawProxies \/ exists line, In line lines /\ accepted line p.
Proof.
  unfold add_lines, accepted.
  induction lines as [|l lines IH]; intros rawProxies p; simpl.
  - split; [now left | intros [H | [line [[] _]]]; exact H].
  - rewrite IH. destruct (proxyRegex_test (trim l)) eqn:E.
    + rewrite set_add_In. split.
      * intros [[-> | H] | [line [Hl Ha]]].
        -- right. exists l. split; [now left | now split].
        -- now left.
        -- right. exists line. split; [now right | exact Ha].
      * intros [H | [line [[<- | Hl] [Hp Ht]]]].
        -- left. now right.
        -- left. now left.
        -- right. now exists line.
    + split.
      * intros [H | [line [Hl Ha]]]; [now left |].
        right. exists line. split; [now right | exact Ha].
      * intros [H | [line [[<- | Hl] [Hp Ht]]]]; [now left | | ].
        -- subst p. congruence.
        -- right. now exists line.
Qed.

Lemma add_lines_NoDup (lines : list string) :
  forall rawProxies, NoDup rawProxies -> NoDup (add_lines lines rawProxies).
Proof.
  unfold add_lines. induction lines as [|l lines IH]; intros rawProxies H; simpl.
  - exact H.
  - apply IH. destruct (proxyRegex_test (trim l)); [| exact H].
    now apply set_add_NoDup.
Qed.

Lemma scrape_fold_In (hw : HarvestWorld) (urls : list string) :
  forall rawProxies p,
    In p (fold_left (scrape_one hw) urls rawProxies) <->
    In p rawProxies \/ exists url, In url urls /\ harvested_from hw url p.
Proof.
  unfold harvested_from.
  induction urls as [|u urls IH]; intros rawProxies p; simpl.
  - split; [now left | intros [H | [url [[] _]]]; exact H].
  - rewrite IH. unfold scrape_one.
    destruct (source_data hw u) as [data|] eqn:E.
    + rewrite add_lines_In. split.
      * intros [[H | [line [Hl Ha]]] | [url [Hu Hh]]].
        -- now left.
        -- right. exists u. split; [now left |]. now exists data, line.
        -- right. exists url. split; [now right | exact Hh].
      * intros [H | [url [[<- | Hu] (d & line & Hd & Hl & Ha)]]].
        -- left. now left.
        -- left. right. exists line. split; [congruence | exact Ha].
        -- right. exists url. split; [exact Hu |]. now exists d, line.
    + split.
      * intros [H | [url [Hu Hh]]]; [now left |].
        right. exists url. split; [now right | exact Hh].
      * intros [H | [url [[<- | Hu] (d & line & Hd & Hl & Ha)]]];
          [now left | congruence |].
        right. exists url. split; [exact Hu |]. now exists d, line.
Qed.

Lemma scrape_fold_NoDup (hw : HarvestWorld) (urls : list string) :
  forall rawProxies,
    NoDup rawProxies -> NoDup (fold_left (scrape_one hw) urls rawProxies).
Proof.
  induction urls as [|u urls IH]; intros rawProxies H; simpl.
  - exact H.
  - apply IH. unfold scrape_one. destruct (source_data hw u); [| exact H].
    now apply add_lines_NoDup.
Qed.

(** C7.  [scrapeSources] returns exactly the trimmed lines of the answering
    sources that pass [proxyRegex]: four dot-separated runs of one to three
    digits, a colon and a run of two to five digits.  Every other line is
    left out, and no string is returned twice.  The octets are not bounded by
    255: "999.1.1.1:80" is returned. *)
Theorem scrapeSources_strict_pattern (hw : HarvestWorld) :
  (forall p,
     In p (scrapeSources hw) <->
     exists url, In url (completion hw) /\ harvested_from hw url p) /\
  (forall p, In p (scrapeSources hw) -> strict_ip_port p) /\
  (forall s, proxyRegex_test s = true <-> strict_ip_port s) /\
  NoDup (scrapeSources hw) /\
  strict_ip_port "999.1.1.1:80" /\
  scrapeSources demo_harvest = ["1.2.3.4:80"; "999.1.1.1:80"].
Proof.
  assert (Hin : forall p,
             In p (scrapeSources hw) <->
             exists url, In url (completion hw) /\ harvested_from hw url p).
  { intros p. unfold scrapeSources. rewrite scrape_fold_In. simpl. tauto. }
  split; [exact Hin |].
  split.
  { intros p Hp. apply Hin in Hp.
    destruct Hp as (url & _ & data & line & _ & _ & _ & Ht).
    now apply proxyRegex_test_iff. }
  split; [exact proxyRegex_test_iff |].
  split; [apply scrape_fold_NoDup; constructor |].
  split; [now apply proxyRegex_test_iff | reflexivity].
Qed.

End Harvest.

(* ===================================================================== *)
(** ** The fetch: retries, backoff and the browser bypass *)
(* ===================================================================== *)

Section FetchRuns.

Import NexusHunter.

Lemma interactions_app (a b : list Event) :
  interactions (a ++ b) = interactions a ++ interactions b.
Proof. apply filter_app. Qed.

Lemma is_blocked_iff (status : option Z) :
  is_blocked status = true <-> status = Some 403%Z \/ status = Some 503%Z.
Proof.
  unfold is_blocked. destruct status as [s|].
  - rewrite orb_true_iff, !Z.eqb_eq. split.
    + intros [-> | ->]; auto.
    + intros [H | H]; injection H as ->; auto.
  - split; [discriminate | intros [H | H]; discriminate].
Qed.

(** One browser session: the result is [bypass_yield] of the session's
    fate, and the only interaction is the session itself. *)
Lemma scrapeWithPlaywright_run (w : World) (url : string) (st : State) :
  exists evs,
    fst (scrapeWithPlaywright w url st)
    = bypass_yield url (chromium w (browser_sessions st)) /\
    trace (snd (scrapeWithPlaywright w url st)) = trace st ++ evs /\
    interactions evs
    = [EvBrowserSession url (playwright_server (proxyConfig st))
         (chromium w (browser_sessions st))] /\
    proxyConfig (snd (scrapeWithPlaywright w url st)) = proxyConfig st /\
    nexus_proxies (snd (scrapeWithPlaywright w url st)) = nexus_proxies st /\
    nexus_signals (snd (scrapeWithPlaywright w url st)) = nexus_signals st /\
    nexus_logs (snd (scrapeWithPlaywright w url st)) = nexus_logs st.
Proof.
  unfold scrapeWithPlaywright, finally_close, console, bind, emit,
    next_browser_session, get_proxyConfig, ret, throw. simpl.
  destruct (chromium w (browser_sessions st)) as [m | m [e|] | html [e|]];
    simpl; rewrite <- ?app_assoc; simpl; eexists; repeat split.
Qed.

End FetchRuns.

Section FetchShape.

Import NexusHunter.

Variable w : World.
Variable url : string.
Variable retries : nat.

(** The loop takes one of the shapes of [Fetch]. *)
Lemma safeApiCall_loop_shape :
  forall remaining attempt st,
    remaining = retries + 1 - attempt ->
    exists evs,
      trace (snd (safeApiCall_loop w url retries remaining attempt st))
      = trace st ++ evs /\
      Fetch url retries attempt (interactions evs)
        (fst (safeApiCall_loop w url retries remaining attempt st)).
Proof.
  induction remaining as [|remaining IH]; intros attempt st Hrem.
  - exists []. simpl. split; [now rewrite app_nil_r |].
    apply Fetch_not_entered. lia.
  - assert (Hle : attempt <= retries) by lia.
    cbn [safeApiCall_loop]. run_effects.
    destruct (axios_get w (http_calls st)) as [data | status message] eqn:Eget.
    + eexists. state_fields. split; [reflexivity |].
      now apply Fetch_success.
    + run_effects. destruct (is_blocked status) eqn:Eb.
      * run_effects.
        match goal with
        | |- context [scrapeWithPlaywright w url ?s] =>
            destruct (scrapeWithPlaywright_run w url s)
              as (bevs & Hyield & Htrace & Hia & Hcfg & _);
            destruct (scrapeWithPlaywright w url s) as [o st2]
        end.
        state_fields. rewrite <- !app_assoc in Htrace. cbn [app] in Htrace.
        destruct o as [[data|] | e].
        -- eexists. state_fields. split; [exact Htrace |].
           cbn [interactions filter is_request is_session is_sleep orb].
           fold (interactions bevs). rewrite Hia.
           eapply Fetch_bypass_ends; eauto. discriminate.
        -- destruct (Nat.eqb_spec attempt retries) as [Heq | Hne].
           ++ eexists. state_fields. rewrite Htrace, <- app_assoc.
              split; [reflexivity |].
              cbn [app interactions filter is_request is_session is_sleep orb].
              rewrite filter_app. fold (interactions bevs). rewrite Hia.
              cbn [app filter is_request is_session is_sleep orb].
              eapply Fetch_exhausted_blocked; eauto.
           ++ match goal with
              | |- context [safeApiCall_loop w url retries remaining _ ?s] =>
                  destruct (IH (S attempt) s ltac:(lia)) as (evs & Ht & Hf)
              end.
              eexists. rewrite Ht. state_fields.
              rewrite Htrace, <- !app_assoc. split; [reflexivity |].
              cbn [app interactions filter is_request is_session is_sleep orb].
              rewrite filter_app. fold (interactions bevs). rewrite Hia.
              cbn [app filter is_request is_session is_sleep orb].
              fold (interactions evs).
              eapply Fetch_retry_blocked; eauto. lia.
        -- eexists. state_fields. split; [exact Htrace |].
           cbn [interactions filter is_request is_session is_sleep orb].
           fold (interactions bevs). rewrite Hia.
           eapply Fetch_bypass_ends; eauto. discriminate.
      * run_effects. destruct (Nat.eqb_spec attempt retries) as [Heq | Hne].
        -- eexists. state_fields. rewrite <- !app_assoc.
           split; [reflexivity |]. cbn. now apply Fetch_exhausted.
        -- match goal with
           | |- context [safeApiCall_loop w url retries remaining _ ?s] =>
               destruct (IH (S attempt) s ltac:(lia)) as (evs & Ht & Hf)
           end.
           eexists. rewrite Ht. state_fields. rewrite <- !app_assoc.
           split; [reflexivity |].
           cbn [app interactions filter is_request is_session is_sleep orb].
           fold (interactions evs).
           apply Fetch_retry; trivial. lia.
Qed.

(** [safeApiCall] follows the retry policy from attempt 1 on. *)
Lemma safeApiCall_shape (st : State) :
  exists evs,
    trace (snd (safeApiCall w url retries st)) = trace st ++ evs /\
    Fetch url retries 1 (interactions evs) (fst (safeApiCall w url retries st)).
Proof. apply safeApiCall_loop_shape. lia. Qed.

End FetchShape.

(* ===================================================================== *)
(** ** What the shapes of a fetch say, position by position *)
(* ===================================================================== *)

Section FetchPositions.

Import NexusHunter.

Variable url : string.
Variable retries : nat.

(** A fetch that enters the loop starts with a request. *)
Lemma Fetch_starts_with_request attempt evs r :
  Fetch url retries attempt evs r ->
  attempt <= retries ->
  exists p answer rest, evs = EvAxiosGet url p answer :: rest.
Proof. intros H Hle. destruct H; try lia; eauto. Qed.

(** A request refused with 403 or 503 is followed at once by a browser
    session. *)
Lemma Fetch_blocked_then_session attempt evs r :
  Fetch url retries attempt evs r ->
  forall i u p status message,
    nth_error evs i = Some (EvAxiosGet u p (HttpFail status message)) ->
    is_blocked status = true ->
    exists q answer,
      nth_error evs (S i) = Some (EvBrowserSession url q answer).
Proof.
  induction 1 as
    [ a Ha | a p data Ha | a p q st m ans r Ha Hb Hy Hr
    | a p q st m ans Ha Hb Hy | a p st m Ha Hb
    | a p q st m ans rest r Ha Hb Hy Hrest IH
    | a p st m rest r Ha Hb Hrest IH ];
    intros i u p' status message Hi Hblocked.
  - destruct i; discriminate.
  - destruct i as [|[|i]]; discriminate.
  - destruct i as [|[|[|i]]]; try discriminate. simpl. eauto.
  - destruct i as [|[|[|i]]]; try discriminate. simpl. eauto.
  - destruct i as [|[|i]]; try discriminate.
    simpl in Hi. injection Hi as _ _ <- _. congruence.
  - destruct i as [|[|[|i]]]; try discriminate.
    + simpl. eauto.
    + simpl in Hi. exact (IH i u p' status message Hi Hblocked).
  - destruct i as [|[|i]]; try discriminate.
    + simpl in Hi. injection Hi as _ _ <- _. congruence.
    + simpl in Hi. exact (IH i u p' status message Hi Hblocked).
Qed.

(** A browser session comes right after a request refused with 403 or
    503, and nowhere else. *)
Lemma Fetch_session_after_blocked attempt evs r :
  Fetch url retries attempt evs r ->
  forall i e,
    nth_error evs i = Some e ->
    is_session e = true ->
    exists j p status message,
      i = S j /\
      nth_error evs j = Some (EvAxiosGet url p (HttpFail status message)) /\
      is_blocked status = true.
Proof.
  induction 1 as
    [ a Ha | a p data Ha | a p q st m ans r Ha Hb Hy Hr
    | a p q st m ans Ha Hb Hy | a p st m Ha Hb
    | a p q st m ans rest r Ha Hb Hy Hrest IH
    | a p st m rest r Ha Hb Hrest IH ];
    intros i e Hi He.
  - destruct i; discriminate.
  - destruct i as [|[|i]]; try discriminate.
    simpl in Hi. injection Hi as <-. discriminate.
  - destruct i as [|[|[|i]]]; try discriminate.
    + simpl in Hi. injection Hi as <-. discriminate.
    + exists 0, p, st, m. now repeat split.
  - destruct i as [|[|[|i]]]; try discriminate.
    + simpl in Hi. injection Hi as <-. discriminate.
    + exists 0, p, st, m. now repeat split.
  - destruct i as [|[|i]]; try discriminate.
    simpl in Hi. injection Hi as <-. discriminate.
  - destruct i as [|[|[|i]]].
    + simpl in Hi. injection Hi as <-. discriminate.
    + exists 0, p, st, m. now repeat split.
    + simpl in Hi. injection Hi as <-. discriminate.
    + simpl in Hi. destruct (IH i e Hi He) as (j & p' & s' & m' & -> & Hj & Hb').
      exists (S (S (S j))), p', s', m'. now repeat split.
  - destruct i as [|[|i]].
    + simpl in Hi. injection Hi as <-. discriminate.
    + simpl in Hi. injection Hi as <-. discriminate.
    + simpl in Hi. destruct (IH i e Hi He) as (j & p' & s' & m' & -> & Hj & Hb').
      exists (S (S j)), p', s', m'. now repeat split.
Qed.

(** Data from the browser session ends the fetch and is its result. *)
Lemma Fetch_session_data_returned attempt evs r :
  Fetch url retries attempt evs r ->
  forall i u q answer data,
    nth_error evs i = Some (EvBrowserSession u q answer) ->
    bypass_yield url answer = Returns (Some data) ->
    nth_error evs (S i) = None /\ r = Returns (Some data).
Proof.
  induction 1 as
    [ a Ha | a p data Ha | a p q st m ans r Ha Hb Hy Hr
    | a p q st m ans Ha Hb Hy | a p st m Ha Hb
    | a p q st m ans rest r Ha Hb Hy Hrest IH
    | a p st m rest r Ha Hb Hrest IH ];
    intros i u q' answer d Hi Hd.
  - destruct i; discriminate.
  - destruct i as [|[|i]]; discriminate.
  - destruct i as [|[|[|i]]]; try discriminate.
    simpl in Hi. injection Hi as _ _ <-. split; [reflexivity | congruence].
  - destruct i as [|[|[|i]]]; try discriminate.
    simpl in Hi. injection Hi as _ _ <-. congruence.
  - destruct i as [|[|i]]; discriminate.
  - destruct i as [|[|[|i]]]; try discriminate.
    + simpl in Hi. injection Hi as _ _ <-. congruence.
    + simpl in Hi. exact (IH i u q' answer d Hi Hd).
  - destruct i as [|[|i]]; try discriminate.
    simpl in Hi. exact (IH i u q' answer d Hi Hd).
Qed.

End FetchPositions.

Section FetchCounting.

Import NexusHunter.

Variable url : string.
Variable retries : nat.

(** After a browser session without data on an attempt that is not the
    last, the fetch sleeps for the backoff of that attempt and sends the
    next request. *)
Lemma Fetch_failed_bypass_retries attempt evs r :
  Fetch url retries attempt evs r ->
  forall i p q status message answer,
    nth_error evs i = Some (EvAxiosGet url p (HttpFail status message)) ->
    nth_error evs (S i) = Some (EvBrowserSession url q answer) ->
    bypass_yield url answer = Returns None ->
    attempt + attempts (firstn i evs) < retries ->
    nth_error evs (S (S i))
    = Some (EvSleep (backoff_delay (attempt + attempts (firstn i evs)))) /\
    exists p' answer',
      nth_error evs (S (S (S i))) = Some (EvAxiosGet url p' answer').
Proof.
  induction 1 as
    [ a Ha | a p data Ha | a p q st m ans r Ha Hb Hy Hr
    | a p q st m ans Ha Hb Hy | a p st m Ha Hb
    | a p q st m ans rest r Ha Hb Hy Hrest IH
    | a p st m rest r Ha Hb Hrest IH ];
    intros i p' q' status message answer Hi Hs Hnone Hlt.
  - destruct i; discriminate.
  - destruct i as [|[|i]]; discriminate.
  - destruct i as [|[|[|i]]]; try discriminate.
    simpl in Hs. injection Hs as _ <-. congruence.
  - destruct i as [|[|[|i]]]; try discriminate.
    unfold attempts in Hlt. simpl in Hlt. lia.
  - destruct i as [|[|i]]; discriminate.
  - destruct i as [|[|[|i]]]; try discriminate.
    + unfold attempts. simpl. rewrite Nat.add_0_r. split; [reflexivity |].
      destruct (Fetch_starts_with_request url retries _ _ _ Hrest Ha)
        as (p2 & a2 & tl & ->).
      eauto.
    + simpl in Hi, Hs.
      assert (E : a + attempts (firstn (S (S (S i)))
                     (EvAxiosGet url p (HttpFail st m)
                      :: EvBrowserSession url q ans
                      :: EvSleep (backoff_delay a) :: rest))
                  = S a + attempts (firstn i rest)).
      { unfold attempts. simpl. lia. }
      rewrite E in *. simpl.
      exact (IH i p' q' status message answer Hi Hs Hnone Hlt).
  - destruct i as [|[|i]]; try discriminate.
    simpl in Hi, Hs.
    assert (E : a + attempts (firstn (S (S i))
                   (EvAxiosGet url p (HttpFail st m)
                    :: EvSleep (backoff_delay a) :: rest))
                = S a + attempts (firstn i rest)).
    { unfold attempts. simpl. lia. }
    rewrite E in *. simpl.
    exact (IH i p' q' status message answer Hi Hs Hnone Hlt).
Qed.

(** At most one browser session per request, and at most [retries]
    requests. *)
Lemma Fetch_counts attempt evs r :
  Fetch url retries attempt evs r ->
  bypasses evs <= attempts evs /\ attempts evs <= retries + 1 - attempt.
Proof.
  unfold bypasses, attempts.
  induction 1; simpl in *; lia.
Qed.

(** One browser session for each request refused with 403 or 503. *)
Lemma Fetch_one_bypass_per_block attempt evs r :
  Fetch url retries attempt evs r ->
  bypasses evs = blocked_attempts evs.
Proof.
  unfold bypasses, blocked_attempts.
  induction 1 as
    [ a Ha | a p data Ha | a p q st m ans r Ha Hb Hy Hr
    | a p q st m ans Ha Hb Hy | a p st m Ha Hb
    | a p q st m ans rest r Ha Hb Hy Hrest IH
    | a p st m rest r Ha Hb Hrest IH ];
    cbn [filter is_session is_blocked_failure length];
    rewrite ?Hb; cbn [length]; congruence.
Qed.

(** A fetch that ends with null got a falsy body, or used up its
    attempts. *)
Lemma Fetch_null_after_last attempt evs r :
  Fetch url retries attempt evs r ->
  r = Returns None ->
  (exists i p, nth_error evs i = Some (EvAxiosGet url p (HttpOk None))) \/
  attempts evs = retries + 1 - attempt.
Proof.
  unfold attempts.
  induction 1 as
    [ a Ha | a p data Ha | a p q st m ans r Ha Hb Hy Hr
    | a p q st m ans Ha Hb Hy | a p st m Ha Hb
    | a p q st m ans rest r Ha Hb Hy Hrest IH
    | a p st m rest r Ha Hb Hrest IH ];
    intros Hnull.
  - right. simpl. lia.
  - left. injection Hnull as ->. now exists 0, p.
  - contradiction.
  - right. simpl. lia.
  - right. simpl. lia.
  - destruct (IH Hnull) as [(i & p' & Hi) | E].
    + left. now exists (S (S (S i))), p'.
    + right. simpl. lia.
  - destruct (IH Hnull) as [(i & p' & Hi) | E].
    + left. now exists (S (S i)), p'.
    + right. simpl. lia.
Qed.

End FetchCounting.

Section FetchClaims.

Import NexusHunter.

(** C3.  In a fetch, a request that fails with status 403 or 503 is followed
    at once, before any sleep, by a browser session for the same URL; a
    session that yields data ends the fetch, and the fetch returns that
    data; a request that fails with any other status is not followed by a
    session, and no session happens anywhere else.  With a 403 on the first
    attempt and a browser that gets through, the fetch is one request and
    one session, without a sleep. *)
Theorem safeApiCall_bypass_on_block (w : World) (url : string) (retries : nat)
    (st : State) :
  (exists evs,
     trace (snd (safeApiCall w url retries st)) = trace st ++ evs /\
     let ia := interactions evs in
     (forall i p status message,
        nth_error ia i = Some (EvAxiosGet url p (HttpFail status message)) ->
        status = Some 403%Z \/ status = Some 503%Z ->
        exists q answer,
          nth_error ia (S i) = Some (EvBrowserSession url q answer)) /\
     (forall i q answer data,
        nth_error ia i = Some (EvBrowserSession url q answer) ->
        bypass_yield url answer = Returns (Some data) ->
        nth_error ia (S i) = None /\
        fst (safeApiCall w url retries st) = Returns (Some data)) /\
     (forall i p status message,
        nth_error ia i = Some (EvAxiosGet url p (HttpFail status message)) ->
        status <> Some 403%Z -> status <> Some 503%Z ->
        forall u q answer,
          nth_error ia (S i) <> Some (EvBrowserSession u q answer)) /\
     (forall i e,
        nth_error ia i = Some e ->
        is_session e = true ->
        exists j p status message,
          i = S j /\
          nth_error ia j = Some (EvAxiosGet url p (HttpFail status message)) /\
          (status = Some 403%Z \/ status = Some 503%Z))) /\
  (forall st0,
     fst (scrapeWithPlaywright w url st0)
     = bypass_yield url (chromium w (browser_sessions st0))) /\
  (let run := safeApiCall Scenarios.rescued ebay_url 3
                (Scenarios.start Scenarios.rescued) in
   interactions (trace (snd run))
   = [EvAxiosGet ebay_url None Scenarios.forbidden;
      EvBrowserSession ebay_url None Scenarios.challenge_solved] /\
   fst run = Returns (Some (Payload.mk (Some []) None))).
Proof.
  split; [| split].
  - destruct (safeApiCall_shape w url retries st) as (evs & Ht & Hf).
    exists evs. split; [exact Ht |]. cbv zeta.
    split; [| split; [| split]].
    + intros i p status message Hi Hs.
      apply is_blocked_iff in Hs.
      exact (Fetch_blocked_then_session _ _ _ _ _ Hf i url p status message
               Hi Hs).
    + intros i q answer data Hi Hd.
      exact (Fetch_session_data_returned _ _ _ _ _ Hf i url q answer data
               Hi Hd).
    + intros i p status message Hi H403 H503 u q answer Hn.
      destruct (Fetch_session_after_blocked _ _ _ _ _ Hf (S i) _ Hn eq_refl)
        as (j & p' & s' & m' & Hj & Hget & Hb).
      injection Hj as <-. rewrite Hi in Hget. injection Hget as _ <- _.
      apply is_blocked_iff in Hb. tauto.
    + intros i e Hi He.
      destruct (Fetch_session_after_blocked _ _ _ _ _ Hf i e Hi He)
        as (j & p' & s' & m' & Hj & Hget & Hb).
      apply is_blocked_iff in Hb. eauto 10.
  - intros st0. destruct (scrapeWithPlaywright_run w url st0) as (evs & H & _).
    exact H.
  - vm_compute. split; reflexivity.
Qed.

(** C10.  A browser session that yields no data does not end the fetch: on
    an attempt that is not the last, the fetch then sleeps for the backoff
    of that attempt and sends the next request.  There is at most one
    session per request and at most [retries] requests, so at most three
    sessions in a fetch of three attempts, one for each request refused
    with 403 or 503; and a fetch that returns null after failures only has
    made all its attempts.  When every request is refused with 403 and the
    browser never gets through, a fetch of three attempts has three sessions
    and returns null. *)
Theorem safeApiCall_failed_bypass_retries (w : World) (url : string)
    (retries : nat) (st : State) :
  (exists evs,
     trace (snd (safeApiCall w url retries st)) = trace st ++ evs /\
     let ia := interactions evs in
     (forall i p q status message answer,
        nth_error ia i = Some (EvAxiosGet url p (HttpFail status message)) ->
        nth_error ia (S i) = Some (EvBrowserSession url q answer) ->
        bypass_yield url answer = Returns None ->
        1 + attempts (firstn i ia) < retries ->
        nth_error ia (S (S i))
        = Some (EvSleep (backoff_delay (1 + attempts (firstn i ia)))) /\
        exists p' answer',
          nth_error ia (S (S (S i))) = Some (EvAxiosGet url p' answer')) /\
     bypasses ia = blocked_attempts ia /\
     bypasses ia <= attempts ia /\
     attempts ia <= retries /\
     (fst (safeApiCall w url retries st) = Returns None ->
      (exists i p, nth_error ia i = Some (EvAxiosGet url p (HttpOk None))) \/
      attempts ia = retries)) /\
  (let run := safeApiCall Scenarios.walled ebay_url 3
                (Scenarios.start Scenarios.walled) in
   interactions (trace (snd run))
   = [EvAxiosGet ebay_url None Scenarios.forbidden;
      EvBrowserSession ebay_url None Scenarios.no_browser;
      EvSleep 1000;
      EvAxiosGet ebay_url None Scenarios.forbidden;
      EvBrowserSession ebay_url None Scenarios.no_browser;
      EvSleep 2000;
      EvAxiosGet ebay_url None Scenarios.forbidden;
      EvBrowserSession ebay_url None Scenarios.no_browser] /\
   bypasses (trace (snd run)) = 3 /\
   fst run = Returns None).
Proof.
  split.
  - destruct (safeApiCall_shape w url retries st) as (evs & Ht & Hf).
    exists evs. split; [exact Ht |]. cbv zeta.
    destruct (Fetch_counts _ _ _ _ _ Hf) as [Hb Ha].
    split; [| split; [exact (Fetch_one_bypass_per_block _ _ _ _ _ Hf) |
                      split; [exact Hb | split; [lia |]]]].
    + intros i p q status message answer Hi Hs Hnone Hlt.
      exact (Fetch_failed_bypass_retries _ _ _ _ _ Hf i p q status message
               answer Hi Hs Hnone Hlt).
    + intros Hnull.
      destruct (Fetch_null_after_last _ _ _ _ _ Hf Hnull) as [H | H];
        [now left | right; lia].
  - vm_compute. repeat split; reflexivity.
Qed.

End FetchClaims.

(* ===================================================================== *)
(** ** Failures that are not blocks: retries with backoff *)
(* ===================================================================== *)

Section Backoff.

Import NexusHunter.

(** One round of the loop on a failure that is not a block. *)
Lemma safeApiCall_loop_unblocked (w : World) (url : string)
    (retries remaining attempt : nat) (st : State) status message :
  axios_get w (http_calls st) = HttpFail status message ->
  is_blocked status = false ->
  let failed :=
    log_event (EvConsole (WarnApiCallFailed attempt retries message))
      (log_event
         (EvAxiosGet url (proxy_in_use (proxyConfig st))
            (HttpFail status message))
         (tick_http st)) in
  safeApiCall_loop w url retries (S remaining) attempt st
  = if (attempt =? retries)%nat
    then (Returns None, log_event (EvConsole (ErrorExhausted url)) failed)
    else safeApiCall_loop w url retries remaining (S attempt)
           (log_event (EvSleep (backoff_delay attempt))
              (log_event (EvConsole (LogBackingOff (backoff_delay attempt)))
                 failed)).
Proof.
  intros Hget Hb. cbn [safeApiCall_loop]. run_effects.
  rewrite Hget. run_effects. rewrite Hb. run_effects.
  destruct (attempt =? retries)%nat; reflexivity.
Qed.

Lemma steps_app (a b : list Event) : steps (a ++ b) = steps a ++ steps b.
Proof. apply flat_map_app. Qed.

(** C2, as the code has it.  A fetch of three attempts whose three requests
    fail with a status other than 403 and 503 makes exactly three requests,
    sleeps 1000 ms after the first and 2000 ms after the second
    (1000 ms x 2^(attempt-1)), does not sleep after the third, starts no
    browser session, and returns null: it does not throw. *)
Theorem safeApiCall_three_failures (w : World) (url : string) (st : State) :
  (forall k, k < 3 ->
     exists status message,
       axios_get w (http_calls st + k) = HttpFail status message /\
       status <> Some 403%Z /\ status <> Some 503%Z) ->
  exists evs,
    fst (safeApiCall w url 3 st) = Returns None /\
    trace (snd (safeApiCall w url 3 st)) = trace st ++ evs /\
    steps evs = [Request; Sleep 1000; Request; Sleep 2000; Request] /\
    attempts evs = 3 /\
    sleeps evs = [backoff_delay 1; backoff_delay 2] /\
    sleeps evs = [1000; 2000]%Z /\
    http_calls (snd (safeApiCall w url 3 st)) = http_calls st + 3.
Proof.
  intros H.
  assert (Hk : forall k, k < 3 ->
             exists status message,
               axios_get w (http_calls st + k) = HttpFail status message /\
               is_blocked status = false).
  { intros k Hlt. destruct (H k Hlt) as (s & m & Hg & H403 & H503).
    exists s, m. split; [exact Hg |].
    destruct (is_blocked s) eqn:E; [| reflexivity].
    apply is_blocked_iff in E. tauto. }
  destruct (Hk 0 ltac:(lia)) as (s0 & m0 & G0 & B0).
  destruct (Hk 1 ltac:(lia)) as (s1 & m1 & G1 & B1).
  destruct (Hk 2 ltac:(lia)) as (s2 & m2 & G2 & B2).
  rewrite Nat.add_0_r in G0.
  replace (http_calls st + 1) with (S (http_calls st)) in G1 by lia.
  replace (http_calls st + 2) with (S (S (http_calls st))) in G2 by lia.
  unfold safeApiCall.
  rewrite (safeApiCall_loop_unblocked w url 3 2 1 st s0 m0 G0 B0).
  cbv zeta. cbn [Nat.eqb].
  erewrite (safeApiCall_loop_unblocked w url 3 1 2 _ s1 m1);
    [| state_fields; exact G1 | exact B1].
  cbv zeta. cbn [Nat.eqb].
  erewrite (safeApiCall_loop_unblocked w url 3 0 3 _ s2 m2);
    [| state_fields; exact G2 | exact B2].
  cbv zeta. cbn [Nat.eqb]. state_fields.
  eexists. split; [reflexivity |].
  rewrite <- !app_assoc. cbn [app]. split; [reflexivity |].
  repeat split. lia.
Qed.

Lemma safeApiCall_three_failures_witness :
  (forall k, k < 3 ->
     exists status message,
       axios_get Scenarios.unreachable
         (http_calls (Scenarios.start Scenarios.unreachable) + k)
       = HttpFail status message /\
       status <> Some 403%Z /\ status <> Some 503%Z) /\
  fst (safeApiCall Scenarios.unreachable ebay_url 3
         (Scenarios.start Scenarios.unreachable)) = Returns None.
Proof.
  assert (H : forall k, k < 3 ->
            exists status message,
              axios_get Scenarios.unreachable
                (http_calls (Scenarios.start Scenarios.unreachable) + k)
              = HttpFail status message /\
              status <> Some 403%Z /\ status <> Some 503%Z).
  { intros k _. exists None, "timeout of 10000ms exceeded".
    repeat split; discriminate. }
  split; [exact H |].
  destruct (safeApiCall_three_failures Scenarios.unreachable ebay_url
              (Scenarios.start Scenarios.unreachable) H) as (evs & Hr & _).
  exact Hr.
Defined.

(** Against C2 as the specification words it: after three timeouts the
    fetch has slept 1000 ms and 2000 ms, and never 4000 ms. *)
Lemma safeApiCall_no_third_delay :
  let run := safeApiCall Scenarios.unreachable ebay_url 3
               (Scenarios.start Scenarios.unreachable) in
  fst run = Returns None /\
  attempts (trace (snd run)) = 3 /\
  steps (trace (snd run))
  = [Request; Sleep 1000; Request; Sleep 2000; Request] /\
  sleeps (trace (snd run)) <> [1000; 2000; 4000]%Z /\
  ~ In 4000%Z (sleeps (trace (snd run))).
Proof.
  vm_compute. repeat split; try discriminate.
  intros [H | [H | []]]; discriminate.
Qed.

End Backoff.

(* ===================================================================== *)
(** ** Evaluating the listings *)
(* ===================================================================== *)

Section Valuation.

Import NexusHunter.

Lemma find_first {A} (f : A -> bool) (l : list A) (x : A) :
  find f l = Some x <->
  exists before after,
    l = before ++ x :: after /\ f x = true /\
    forall y, In y before -> f y = false.
Proof.
  induction l as [|a l IH]; simpl.
  - split; [discriminate | intros (b & c & H & _)].
    destruct b; discriminate.
  - destruct (f a) eqn:E.
    + split.
      * intros H. injection H as <-. exists [], l. now repeat split.
      * intros ([|y before] & after & H & Hx & Hb).
        -- simpl in H. now injection H as <- _.
        -- simpl in H. injection H as <- _.
           rewrite (Hb a (or_introl eq_refl)) in E. discriminate.
    + rewrite IH. split.
      * intros (before & after & -> & Hx & Hb).
        exists (a :: before), after. repeat split; trivial.
        intros y [<- | Hy]; auto.
      * intros ([|y before] & after & H & Hx & Hb).
        -- simpl in H. injection H as <- _. congruence.
        -- simpl in H. injection H as <- ->.
           exists before, after. repeat split; trivial.
           intros z Hz. apply Hb. now right.
Qed.

Lemma brandMatch_first (title b : string) :
  brandMatch title = Some b <-> first_match title b.
Proof.
  unfold brandMatch, first_match. rewrite find_first. split.
  - intros (before & after & H & Hb & Hn). exists before, after.
    repeat split; trivial; [now apply includes_iff |].
    intros b' Hb'. apply includes_false_iff. now apply Hn.
  - intros (before & after & H & Hb & Hn). exists before, after.
    repeat split; trivial; [now apply includes_iff |].
    intros b' Hb'. apply includes_false_iff. now apply Hn.
Qed.

Lemma brandMatch_not_empty (title : string) :
  brandMatch title <> Some EmptyString.
Proof.
  intros H. apply find_some in H. destruct H as [H _].
  repeat (destruct H as [H | H]; [discriminate |]). destruct H.
Qed.

Lemma admission_iff (item : Item.t) (b : string) :
  admission item = Some b <->
  first_match (Item.title item) b /\
  margin_ok (estValue_of b item) (listedPrice_of item) = true.
Proof.
  unfold admission. rewrite <- brandMatch_first.
  pose proof (brandMatch_not_empty (Item.title item)) as Hne.
  destruct (brandMatch (Item.title item)) as [[|c brand]|].
  - contradiction.
  - destruct (margin_ok _ _) eqn:E.
    + split; [intros H; injection H as <-; now split |].
      intros [H _]. exact H.
    + split; [discriminate | intros [H Hm]].
      injection H as <-. congruence.
  - split; [discriminate | intros [H _]; discriminate].
Qed.

Lemma evaluate_run (w : World) (item : Item.t) (signals : list MarketSignal.t)
    (st : State) :
  evaluate w item signals st
  = match admission item with
    | Some brand =>
        (Returns (signals ++ [signal_of item brand (now w (clock_reads st))]),
         tick_clock st)
    | None => (Returns signals, st)
    end.
Proof.
  unfold evaluate, admission.
  destruct (brandMatch (Item.title item)) as [[|c brand]|]; try reflexivity.
  destruct (margin_ok _ _); reflexivity.
Qed.

Lemma for_items_run (w : World) (items : list Item.t) :
  forall signals st,
    for_items w items signals st
    = (Returns (signals ++ stamped w (clock_reads st) items),
       Nat.iter (length (stamped w (clock_reads st) items)) tick_clock st).
Proof.
  induction items as [|item rest IH]; intros signals st.
  - simpl. now rewrite app_nil_r.
  - cbn [for_items]. unfold bind. rewrite evaluate_run.
    cbn [stamped]. destruct (admission item) as [brand|].
    + rewrite IH. state_fields. rewrite <- app_assoc. cbn [app length].
      now rewrite Nat.iter_succ_r.
    + apply IH.
Qed.

Lemma iter_tick_clock_fields (n : nat) (st : State) :
  trace (Nat.iter n tick_clock st) = trace st /\
  nexus_signals (Nat.iter n tick_clock st) = nexus_signals st /\
  nexus_logs (Nat.iter n tick_clock st) = nexus_logs st /\
  nexus_proxies (Nat.iter n tick_clock st) = nexus_proxies st /\
  clock_reads (Nat.iter n tick_clock st) = n + clock_reads st.
Proof.
  induction n as [|n IH]; simpl; [now repeat split |].
  destruct IH as (H1 & H2 & H3 & H4 & H5). repeat split; trivial.
  now rewrite H5.
Qed.

(** The signals are those of the admitted listings, one each, in order. *)
Lemma stamped_admitted (w : World) (items : list Item.t) :
  forall n,
    Forall2
      (fun item s =>
         exists brand timestamp,
           admission item = Some brand /\ s = signal_of item brand timestamp)
      (filter (fun item => match admission item with
                           | Some _ => true
                           | None => false
                           end) items)
      (stamped w n items).
Proof.
  induction items as [|item rest IH]; intros n; simpl.
  - constructor.
  - destruct (admission item) as [brand|] eqn:E.
    + constructor; [eauto | apply IH].
    + apply IH.
Qed.

End Valuation.

(* ===================================================================== *)
(** ** The sweep, stage by stage *)
(* ===================================================================== *)

Section Sweep.

Import NexusHunter.

Variable w : World.

Lemma hunter_getSupabase_ok (st : State) :
  client_obtained w -> NexusHunter.getSupabase w st = (Returns tt, st).
Proof.
  intros [[Hu Hk] Hclient]. unfold NexusHunter.getSupabase, createClient.
  apply String.eqb_neq in Hu, Hk. now rewrite Hu, Hk, Hclient.
Qed.

Lemma hunter_getSupabase_refused (st : State) (message : string) :
  credentials_present w ->
  createClient_error w = Some message ->
  NexusHunter.getSupabase w st = (Throws (ErrorObj message), st).
Proof.
  intros [Hu Hk] Hclient. unfold NexusHunter.getSupabase, createClient.
  apply String.eqb_neq in Hu, Hk. now rewrite Hu, Hk, Hclient.
Qed.

Lemma hunter_getSupabase_missing (st : State) :
  ~ credentials_present w ->
  NexusHunter.getSupabase w st
  = (Throws (ErrorObj "FATAL: Supabase credentials missing. Nexus offline."),
     st).
Proof.
  intros H. unfold NexusHunter.getSupabase, credentials_present in *.
  destruct (String.eqb_spec (NEXT_PUBLIC_SUPABASE_URL w) "");
    destruct (String.eqb_spec (SUPABASE_SERVICE_ROLE_KEY w) "");
    try reflexivity.
  exfalso. apply H. now split.
Qed.

Lemma sweep_body_run (st : State) :
  credentials_present w ->
  sweep_body w st
  = (let (r, st3) := safeApiCall w ebay_url 3 (routed w st) in
     match r with
     | Returns ebayResponse => after_fetch w ebayResponse st3
     | Throws e => (Throws e, st3)
     end).
Proof.
  intros [Hu Hk]. unfold sweep_body, routed. unfold bind at 1.
  rewrite (getOptimalProxy_run w st Hu Hk).
  destruct (if select_error w then None else optimal_row (nexus_proxies st));
    reflexivity.
Qed.

Lemma after_fetch_run (ebayResponse : option Payload.t) (st : State) :
  after_fetch w ebayResponse st
  = (let signals := stamped w (clock_reads st) (listed ebayResponse) in
     let st1 := Nat.iter (length signals) tick_clock st in
     if (0 <? length signals)%nat then
       match insert_signals_error w with
       | Some message =>
           (Throws (ErrorObj ("Supabase Insert Failed: " ++ message)%string),
            log_event (EvInsertSignals signals) st1)
       | None =>
           (Returns signals,
            with_signals (nexus_signals st1 ++ signals)
              (log_event (EvInsertSignals signals) st1))
       end
     else (Returns signals, st1)).
Proof.
  unfold after_fetch, listed. unfold bind at 1.
  destruct ebayResponse as [[[items|] html]|]; cbn [Payload.itemSummaries].
  - rewrite for_items_run. cbn [app]. cbv zeta.
    destruct (0 <? length (stamped w (clock_reads st) items))%nat;
      [| reflexivity].
    run_effects. destruct (insert_signals_error w); reflexivity.
  - reflexivity.
  - reflexivity.
Qed.

Lemma sweep_handler_run (error : Exn) (st : State) :
  sweep_handler w error st
  = (Returns [],
     let logged :=
       log_event (EvInsertLog (failure_row w error st))
         (tick_clock
            (log_event (EvConsole (ErrorCriticalFailure (error_message error)))
               st)) in
     if insert_log_error w then logged
     else with_logs (nexus_logs st ++ [failure_row w error st]) logged).
Proof.
  unfold sweep_handler, failure_row, error_message, toISOString_now.
  run_effects. destruct error; destruct (insert_log_error w); reflexivity.
Qed.

Lemma runSweep_run (st : State) :
  client_obtained w ->
  runSweep w st
  = (let (r, st3) := safeApiCall w ebay_url 3 (routed w (prologue w st)) in
     conclude w r st3).
Proof.
  intros Hc. unfold runSweep, toISOString_now. run_effects.
  rewrite (hunter_getSupabase_ok _ Hc). run_effects.
  unfold try_catch. fold (prologue w st).
  rewrite (sweep_body_run _ (proj1 Hc)).
  destruct (safeApiCall w ebay_url 3 (routed w (prologue w st))) as [[resp|e] st3];
    reflexivity.
Qed.

Lemma runSweep_missing_credentials (st : State) :
  ~ credentials_present w ->
  runSweep w st
  = (Throws (ErrorObj "FATAL: Supabase credentials missing. Nexus offline."),
     tick_clock st).
Proof.
  intros Hc. unfold runSweep, toISOString_now. run_effects.
  now rewrite (hunter_getSupabase_missing _ Hc).
Qed.

(** With the credentials present and the URL refused, [createClient] throws
    in [getSupabase], before the [try] block. *)
Lemma runSweep_client_refused (st : State) (message : string) :
  credentials_present w ->
  createClient_error w = Some message ->
  runSweep w st = (Throws (ErrorObj message), tick_clock st).
Proof.
  intros Hc Hclient. unfold runSweep, toISOString_now. run_effects.
  now rewrite (hunter_getSupabase_refused _ _ Hc Hclient).
Qed.

End Sweep.

Section SweepFailures.

Import NexusHunter.

Lemma credentials_dec (w : World) :
  {credentials_present w} + {~ credentials_present w}.
Proof.
  unfold credentials_present.
  destruct (string_dec (NEXT_PUBLIC_SUPABASE_URL w) "");
    destruct (string_dec (SUPABASE_SERVICE_ROLE_KEY w) ""); tauto.
Qed.

(** The three ways [getSupabase] can go. *)
Lemma client_cases (w : World) :
  client_obtained w \/
  ~ credentials_present w \/
  credentials_present w /\ exists message, createClient_error w = Some message.
Proof.
  unfold client_obtained.
  destruct (credentials_dec w) as [Hc | Hc]; [| now right; left].
  destruct (createClient_error w) as [message|];
    [right; right; eauto | now left].
Qed.

Lemma runSweep_try (w : World) (st : State) :
  client_obtained w ->
  runSweep w st
  = try_catch (sweep_body w) (sweep_handler w) (prologue w st).
Proof.
  intros Hc. unfold runSweep, toISOString_now. run_effects.
  rewrite (hunter_getSupabase_ok _ _ Hc). reflexivity.
Qed.

(** C4, as the code has it.  Once the store client has been obtained, the
    credentials being present and [createClient] having taken them,
    [runSweep] never throws; a failure of the [try] block, whatever it is,
    is caught: the sweep prints the CRITICAL FAILURE line on the console,
    inserts a record of level ERROR with the message of the failure into
    [nexus_logs], and returns the empty list.  With the credentials
    missing, or with a URL that [createClient] refuses, [getSupabase]
    throws before the [try] block is entered, and [runSweep] throws that
    error to its caller without logging anything. *)
Theorem runSweep_catches_failures (w : World) (st : State) :
  (client_obtained w ->
   (exists signals st', runSweep w st = (Returns signals, st')) /\
   (forall e st_fail,
      sweep_body w (prologue w st) = (Throws e, st_fail) ->
      fst (runSweep w st) = Returns [] /\
      trace (snd (runSweep w st))
      = trace st_fail
        ++ [EvConsole (ErrorCriticalFailure (error_message e));
            EvInsertLog (failure_row w e st_fail)] /\
      LogRecord.level (failure_row w e st_fail) = LogRecord.ERROR /\
      LogRecord.message (failure_row w e st_fail) = error_message e /\
      (insert_log_error w = false ->
       nexus_logs (snd (runSweep w st))
       = nexus_logs st_fail ++ [failure_row w e st_fail]))) /\
  (~ credentials_present w ->
   fst (runSweep w st)
   = Throws (ErrorObj "FATAL: Supabase credentials missing. Nexus offline.") /\
   trace (snd (runSweep w st)) = trace st /\
   nexus_logs (snd (runSweep w st)) = nexus_logs st) /\
  (forall message,
     credentials_present w ->
     createClient_error w = Some message ->
     fst (runSweep w st) = Throws (ErrorObj message) /\
     trace (snd (runSweep w st)) = trace st /\
     nexus_logs (snd (runSweep w st)) = nexus_logs st) /\
  (let run := runSweep Deployments.malformed
                (Scenarios.start Deployments.malformed) in
   fst run
   = Throws
       (ErrorObj "Invalid supabaseUrl: Must be a valid HTTP or HTTPS URL.") /\
   trace (snd run) = [] /\
   nexus_logs (snd run) = []).
Proof.
  split; [| split; [| split]]; cycle 2.
  { intros message Hc Hclient.
    rewrite (runSweep_client_refused w st message Hc Hclient). repeat split. }
  { vm_compute. repeat split. }
  - intros Hc. rewrite (runSweep_try w st Hc). unfold try_catch. split.
    + destruct (sweep_body w (prologue w st)) as [[signals | e] st1].
      * eauto.
      * rewrite sweep_handler_run. eauto.
    + intros e st_fail Hbody. rewrite Hbody, sweep_handler_run.
      cbn [fst snd]. split; [reflexivity |].
      destruct (insert_log_error w); state_fields;
        rewrite <- ?app_assoc; repeat split; try reflexivity; discriminate.
  - intros Hc. rewrite (runSweep_missing_credentials w st Hc).
    repeat split.
Qed.

(** Against C4 as the specification words it: with the credentials missing
    the sweep throws to its caller and logs nothing; and the record written
    for a failed insert has level ERROR, not CRITICAL. *)
Lemma runSweep_not_always_caught_nor_critical :
  (let run := runSweep SweepScenarios.offline
                (Scenarios.start SweepScenarios.offline) in
   fst run
   = Throws (ErrorObj "FATAL: Supabase credentials missing. Nexus offline.") /\
   nexus_logs (snd run) = []) /\
  (let run := runSweep SweepScenarios.insert_refused
                (Scenarios.start SweepScenarios.insert_refused) in
   fst run = Returns [] /\
   nexus_logs (snd run)
   = [LogRecord.mk LogRecord.ERROR
        "Supabase Insert Failed: duplicate key value violates unique constraint"
        "2024-01-01T00:00:00.000Z"] /\
   Forall (fun row => LogRecord.level row <> LogRecord.CRITICAL)
     (nexus_logs (snd run))).
Proof.
  split.
  - vm_compute. split; reflexivity.
  - vm_compute. repeat split. constructor; [discriminate | constructor].
Qed.

End SweepFailures.

Section SweepTrace.

Import NexusHunter.

Variable w : World.

Lemma routed_trace (st : State) :
  exists pre,
    trace (routed w (prologue w st)) = trace st ++ pre /\
    interactions pre = [].
Proof.
  unfold routed, prologue.
  destruct (if select_error w then None else optimal_row _);
    state_fields; rewrite <- !app_assoc; eexists; split; reflexivity.
Qed.

Lemma conclude_trace (r : Outcome (option Payload.t)) (st : State) :
  exists post,
    trace (snd (conclude w r st)) = trace st ++ post /\
    interactions post = [].
Proof.
  destruct r as [ebayResponse | e]; unfold conclude.
  - unfold try_catch. rewrite after_fetch_run. cbv zeta.
    set (signals := stamped w (clock_reads st) (listed ebayResponse)).
    destruct (iter_tick_clock_fields (length signals) st) as (Ht & _).
    destruct (0 <? length signals)%nat.
    + destruct (insert_signals_error w).
      * rewrite sweep_handler_run. cbv zeta.
        destruct (insert_log_error w); state_fields; rewrite Ht;
          rewrite <- !app_assoc; eexists; split; reflexivity.
      * state_fields. rewrite Ht. eexists; split; reflexivity.
    + cbn [snd]. rewrite Ht. exists []. now rewrite app_nil_r.
  - rewrite sweep_handler_run. cbv zeta.
    destruct (insert_log_error w); state_fields; rewrite <- !app_assoc;
      eexists; split; reflexivity.
Qed.

(** The interactions of a sweep are those of its fetch. *)
Lemma runSweep_interactions (st : State) (evs : list Event) :
  client_obtained w ->
  trace (snd (runSweep w st)) = trace st ++ evs ->
  exists fevs,
    interactions evs = interactions fevs /\
    Fetch ebay_url 3 1 (interactions fevs)
      (fst (safeApiCall w ebay_url 3 (routed w (prologue w st)))) /\
    runSweep w st
    = conclude w (fst (safeApiCall w ebay_url 3 (routed w (prologue w st))))
        (snd (safeApiCall w ebay_url 3 (routed w (prologue w st)))).
Proof.
  intros Hc Hevs. rewrite (runSweep_run w st Hc) in *.
  destruct (routed_trace st) as (pre & Hpre & Hipre).
  destruct (safeApiCall_shape w ebay_url 3 (routed w (prologue w st)))
    as (fevs & Hf & Hshape).
  destruct (safeApiCall w ebay_url 3 (routed w (prologue w st))) as [r st3].
  cbn [fst snd] in *.
  destruct (conclude_trace r st3) as (post & Hpost & Hipost).
  exists fevs. split; [| split; [exact Hshape | reflexivity]].
  rewrite Hpost, Hf, Hpre, <- !app_assoc in Hevs.
  apply app_inv_head in Hevs. subst evs.
  rewrite !interactions_app, Hipre, Hipost, app_nil_r. reflexivity.
Qed.

End SweepTrace.

Section BypassedSweep.

Import NexusHunter.

Lemma bypass_yield_ebay (url : string) (answer : BrowserOutcome)
    (data : Payload.t) :
  includes url "ebay" = true ->
  bypass_yield url answer = Returns (Some data) ->
  data = Payload.mk (Some []) None.
Proof.
  intros Hu. unfold bypass_yield. rewrite Hu.
  destruct answer as [m | m [e|] | html [e|]]; try discriminate.
  intros H. now injection H as <-.
Qed.

(** C9.  A bypass that succeeds for a URL containing "ebay" returns a payload
    whose [itemSummaries] is the empty list.  So a sweep whose fetch was
    answered by the bypass returns no signal. *)
Theorem runSweep_bypassed_fetch_has_no_signal (w : World) (st : State) :
  (forall url st0 data,
     includes url "ebay" = true ->
     fst (scrapeWithPlaywright w url st0) = Returns (Some data) ->
     Payload.itemSummaries data = Some []) /\
  includes ebay_url "ebay" = true /\
  (forall evs i q answer data,
     trace (snd (runSweep w st)) = trace st ++ evs ->
     nth_error (interactions evs) i
     = Some (EvBrowserSession ebay_url q answer) ->
     bypass_yield ebay_url answer = Returns (Some data) ->
     fst (safeApiCall w ebay_url 3 (routed w (prologue w st)))
     = Returns (Some data) /\
     Payload.itemSummaries data = Some [] /\
     fst (runSweep w st) = Returns []) /\
  (let run := runSweep Scenarios.rescued (Scenarios.start Scenarios.rescued) in
   steps (trace (snd run)) = [Request; Session] /\
   fst run = Returns []).
Proof.
  split; [| split; [reflexivity | split]].
  - intros url st0 data Hu Hd.
    destruct (scrapeWithPlaywright_run w url st0) as (evs & Hy & _).
    rewrite Hy in Hd. now rewrite (bypass_yield_ebay _ _ _ Hu Hd).
  - intros evs i q answer data Hevs Hi Hd.
    destruct (client_cases w) as [Hc | [Hc | (Hc & message & Hclient)]].
    + destruct (runSweep_interactions w st evs Hc Hevs)
        as (fevs & Hia & Hshape & Hrun).
      rewrite Hia in Hi.
      destruct (Fetch_session_data_returned _ _ _ _ _ Hshape i _ q answer data
                  Hi Hd) as [_ Hr].
      pose proof (bypass_yield_ebay ebay_url answer data eq_refl Hd) as ->.
      split; [exact Hr | split; [reflexivity |]].
      rewrite Hrun, Hr. unfold conclude, try_catch.
      rewrite after_fetch_run. reflexivity.
    + rewrite (runSweep_missing_credentials w st Hc) in Hevs.
      cbn [snd] in Hevs. state_fields.
      rewrite <- (app_nil_r (trace st)) in Hevs at 1.
      apply app_inv_head in Hevs. subst evs. destruct i; discriminate.
    + rewrite (runSweep_client_refused w st message Hc Hclient) in Hevs.
      cbn [snd] in Hevs. state_fields.
      rewrite <- (app_nil_r (trace st)) in Hevs at 1.
      apply app_inv_head in Hevs. subst evs. destruct i; discriminate.
  - vm_compute. split; reflexivity.
Qed.

End BypassedSweep.

Section Admission.

Import NexusHunter.

Lemma stamped_sound (w : World) (items : list Item.t) :
  forall n s,
    In s (stamped w n items) ->
    exists item brand timestamp,
      In item items /\ admission item = Some brand /\
      s = signal_of item brand timestamp.
Proof.
  induction items as [|item rest IH]; intros n s Hs; simpl in Hs.
  - destruct Hs.
  - destruct (admission item) as [brand|] eqn:E.
    + destruct Hs as [<- | Hs].
      * exists item, brand, (now w n). repeat split; trivial. now left.
      * destruct (IH _ _ Hs) as (it & b & ts & Hin & Ha & ->).
        exists it, b, ts. repeat split; trivial. now right.
    + destruct (IH _ _ Hs) as (it & b & ts & Hin & Ha & ->).
      exists it, b, ts. repeat split; trivial. now right.
Qed.

Lemma stamped_complete (w : World) (items : list Item.t) :
  forall n item brand,
    In item items ->
    admission item = Some brand ->
    exists timestamp, In (signal_of item brand timestamp) (stamped w n items).
Proof.
  induction items as [|it rest IH]; intros n item brand Hin Ha.
  - destruct Hin.
  - simpl. destruct Hin as [-> | Hin].
    + rewrite Ha. exists (now w n). now left.
    + destruct (IH (match admission it with Some _ => S n | None => n end)
                  item brand Hin Ha) as (ts & Hts).
      exists ts. destruct (admission it); [now right | exact Hts].
Qed.

(** A first request that succeeds is the whole fetch. *)
Lemma safeApiCall_first_ok (w : World) (url : string) (retries : nat)
    (st : State) (data : option Payload.t) :
  axios_get w (http_calls st) = HttpOk data ->
  safeApiCall w url (S retries) st
  = (Returns data,
     log_event (EvAxiosGet url (proxy_in_use (proxyConfig st)) (HttpOk data))
       (tick_http st)).
Proof.
  intros H. unfold safeApiCall. cbn [safeApiCall_loop]. run_effects.
  now rewrite H.
Qed.

Lemma routed_counters (w : World) (st : State) :
  http_calls (routed w (prologue w st)) = http_calls st /\
  clock_reads (routed w (prologue w st)) = S (clock_reads st) /\
  nexus_signals (routed w (prologue w st)) = nexus_signals st.
Proof.
  unfold routed, prologue.
  destruct (if select_error w then None else optimal_row _);
    state_fields; repeat split.
Qed.

(** A sweep whose first request is answered, and whose insert the store
    accepts, returns the signals of the listings in the answer. *)
Lemma runSweep_answered (w : World) (st : State)
    (ebayResponse : option Payload.t) :
  client_obtained w ->
  axios_get w (http_calls st) = HttpOk ebayResponse ->
  insert_signals_error w = None ->
  fst (runSweep w st)
  = Returns (stamped w (S (clock_reads st)) (listed ebayResponse)).
Proof.
  intros Hc Hget Hins. rewrite (runSweep_run w st Hc).
  destruct (routed_counters w st) as (Hh & Hk & _).
  rewrite (safeApiCall_first_ok w ebay_url 2 _ ebayResponse)
    by (now rewrite Hh).
  unfold conclude, try_catch. rewrite after_fetch_run. cbv zeta.
  state_fields. rewrite Hk, Hins.
  destruct (stamped w (S (clock_reads st)) (listed ebayResponse));
    reflexivity.
Qed.

(** The helpers of the code against the words of the specification. *)
Lemma condition_or_used_stated (item : Item.t) :
  condition_or_used item = stated_condition item.
Proof.
  unfold condition_or_used, stated_condition.
  now destruct (Item.condition item) as [[|c rest]|].
Qed.

Lemma listedPrice_asking (item : Item.t) :
  listedPrice_of item = asking_price item.
Proof. reflexivity. Qed.

Lemma getBaseValue_base (brand : string) : getBaseValue brand = base_value brand.
Proof.
  unfold getBaseValue, base_value, highTier. cbn [existsb].
  destruct (string_dec brand "Hermès") as [-> | N1]; [reflexivity |].
  destruct (string_dec brand "Chanel") as [-> | N2]; [reflexivity |].
  apply String.eqb_neq in N1, N2. now rewrite N1, N2.
Qed.

Lemma multiplier_scale (c : ConditionScore) :
  ScaleEntry.multiplier (CONDITION_SCALE c) = scale_multiplier (score_number c).
Proof. now destruct c. Qed.

Lemma estValue_estimate (brand : string) (item : Item.t) :
  estValue_of brand item
  = estimate brand (score_number (calculateCondition (stated_condition item))).
Proof.
  unfold estValue_of, estimate.
  now rewrite getBaseValue_base, multiplier_scale, condition_or_used_stated.
Qed.

Lemma first_match_unique (title b b' : string) :
  first_match title b -> first_match title b' -> b = b'.
Proof.
  intros H H'. apply brandMatch_first in H, H'. congruence.
Qed.

Lemma admission_admitted (item : Item.t) (brand : string) :
  admission item = Some brand <->
  admitted item brand
    (score_number (calculateCondition (stated_condition item))).
Proof.
  rewrite admission_iff. unfold admitted, margin_ok.
  rewrite estValue_estimate, listedPrice_asking. split.
  - intros [Hf Hm]. repeat split; trivial. now apply calculateCondition_scored.
  - intros (Hf & _ & Hm). now split.
Qed.

Lemma admitted_unique (item : Item.t) (brand brand' : string)
    (score score' : Z) :
  admitted item brand score -> admitted item brand' score' ->
  brand = brand' /\ score = score'.
Proof.
  intros (Hf & Hs & _) (Hf' & Hs' & _). split.
  - exact (first_match_unique _ _ _ Hf Hf').
  - apply calculateCondition_scored in Hs, Hs'. congruence.
Qed.

Lemma admission_none (item : Item.t) :
  admission item = None -> forall brand score, ~ admitted item brand score.
Proof.
  intros Hnone brand score Ha.
  assert (Hs : score
               = score_number (calculateCondition (stated_condition item))).
  { destruct Ha as (_ & Hs & _). now apply calculateCondition_scored. }
  subst score. apply admission_admitted in Ha. congruence.
Qed.

Lemma signal_of_for (item : Item.t) (brand timestamp : string) :
  signal_for item brand
    (score_number (calculateCondition (stated_condition item)))
    (signal_of item brand timestamp).
Proof.
  unfold signal_for, signal_of.
  cbn [MarketSignal.id MarketSignal.source MarketSignal.targetName
       MarketSignal.brandCategory MarketSignal.conditionScore
       MarketSignal.listedPrice MarketSignal.estimatedValue
       MarketSignal.profitMargin MarketSignal.url MarketSignal.status].
  rewrite estValue_estimate, condition_or_used_stated.
  now repeat split.
Qed.

(** The loop emits the signals of the specification. *)
Lemma stamped_Emitted (w : World) (items : list Item.t) :
  forall n, Emitted items (stamped w n items).
Proof.
  induction items as [|item rest IH]; intros n; cbn [stamped].
  - constructor.
  - destruct (admission item) as [brand|] eqn:E.
    + eapply Emitted_signal;
        [apply admission_admitted, E | apply signal_of_for | apply IH].
    + apply Emitted_discard; [now apply admission_none | apply IH].
Qed.

(** Whatever the fetch returns, the sweep returns the signals of its
    listings, or none of them when the store refuses the insert. *)
Lemma runSweep_returns_emitted (w : World) (st : State)
    (response : option Payload.t) :
  client_obtained w ->
  fst (safeApiCall w ebay_url 3 (routed w (prologue w st))) = Returns response ->
  exists signals,
    Emitted (listed response) signals /\
    fst (runSweep w st)
    = Returns (match insert_signals_error w with
               | Some _ => []
               | None => signals
               end).
Proof.
  intros Hc Hfetch. rewrite (runSweep_run w st Hc).
  destruct (safeApiCall w ebay_url 3 (routed w (prologue w st))) as [r st3].
  cbn [fst] in Hfetch. subst r.
  exists (stamped w (clock_reads st3) (listed response)).
  split; [apply stamped_Emitted |].
  unfold conclude, try_catch. rewrite after_fetch_run. cbv zeta.
  destruct (stamped w (clock_reads st3) (listed response)) as [|s signals];
    cbn [length Nat.ltb Nat.leb].
  - now destruct (insert_signals_error w).
  - destruct (insert_signals_error w); [| reflexivity].
    now rewrite sweep_handler_run.
Qed.

(** C1.  The loop of [runSweep] emits a signal for a listing exactly when
    the title of the listing contains a target brand, the first one in list
    order being taken, and its estimated value, 5000 for Hermès and Chanel
    and 1500 for every other brand, times the multiplier of the score of
    the condition the listing states, is strictly greater than the price it
    asks times 1.3, in binary64 arithmetic: the signals are those of the
    admitted listings, one each, in their order, with the brand, the score
    and the estimate that admitted them.  Whatever the fetch returns, the
    sweep returns these signals, or none when the store refuses them.
    Against a price of 100 an estimate of 131 passes the comparison and one
    of 130 does not.  In a sweep over ten listings, a new Gucci bag,
    estimated at 1500, is admitted at 1153 and rejected at 1154; at 700 a
    Gucci bag is admitted when new and rejected when for parts; one that
    states no condition counts as used, estimated at 975, and is admitted
    at 749 and rejected at 750, where 750 x 1.3 is 975; a title with Chanel
    and Gucci is a Chanel, admitted at 2499 and rejected at 2500; and a
    title without a target brand is rejected at any price. *)
Theorem runSweep_admits_by_margin (w : World) (items : list Item.t)
    (st : State) :
  (exists signals,
     fst (for_items w items [] st) = Returns signals /\
     Emitted items signals) /\
  (forall response,
     client_obtained w ->
     fst (safeApiCall w ebay_url 3 (routed w (prologue w st)))
     = Returns response ->
     exists signals,
       Emitted (listed response) signals /\
       fst (runSweep w st)
       = Returns (match insert_signals_error w with
                  | Some _ => []
                  | None => signals
                  end)) /\
  (forall item brand score brand' score',
     admitted item brand score -> admitted item brand' score' ->
     brand = brand' /\ score = score') /\
  PrimFloat.ltb (100 * 1.3)%float 131%float = true /\
  PrimFloat.ltb (100 * 1.3)%float 130%float = false /\
  (exists signals,
     fst (runSweep (Deployments.answering catalogue)
            (Scenarios.start (Deployments.answering catalogue)))
     = Returns signals /\
     map (fun s =>
            (MarketSignal.id s, MarketSignal.brandCategory s,
             score_number (MarketSignal.conditionScore s),
             MarketSignal.listedPrice s, MarketSignal.estimatedValue s))
       signals
     = [ ("EBAY-1", "Gucci", 5%Z, 1153%float, 1500%float);
         ("EBAY-4", "Gucci", 5%Z, 700%float, 1500%float);
         ("EBAY-5", "Gucci", 3%Z, 749%float, 975%float);
         ("EBAY-7", "Chanel", 3%Z, 2499%float, 3250%float) ]).
Proof.
  split; [| split; [| split; [| split; [| split]]]].
  - exists (stamped w (clock_reads st) items).
    split; [now rewrite for_items_run | apply stamped_Emitted].
  - intros response Hc Hfetch.
    exact (runSweep_returns_emitted w st response Hc Hfetch).
  - intros item brand score brand' score'. apply admitted_unique.
  - reflexivity.
  - reflexivity.
  - eexists. split; vm_compute; reflexivity.
Qed.

End Admission.

(* ===================================================================== *)
(** ** Persisting the fleet: groups, refusals and look-up *)
(* ===================================================================== *)

Section SyncToDatabase.

Import ProxyCommander.

Lemma chunkSize_pos : 0 < chunkSize.
Proof. unfold chunkSize. lia. Qed.

#[local] Opaque chunkSize.

Lemma upsert_rows_app (a b table : list ProxyNode.t) :
  upsert_rows (a ++ b) table = upsert_rows b (upsert_rows a table).
Proof. unfold upsert_rows. apply fold_left_app. Qed.


(** Fuel beyond the length of the list changes nothing. *)
Lemma chunks_from_fuel {A} (size : nat) :
  0 < size ->
  forall fuel1 fuel2 (l : list A),
    length l <= fuel1 -> length l <= fuel2 ->
    chunks_from fuel1 size l = chunks_from fuel2 size l.
Proof.
  intros Hs. induction fuel1 as [|fuel1 IH]; intros fuel2 l H1 H2.
  - destruct l; [| simpl in H1; lia]. destruct fuel2; reflexivity.
  - destruct l as [|x l]; [destruct fuel2; reflexivity |].
    destruct fuel2 as [|fuel2]; [simpl in H2; lia |].
    cbn [chunks_from]. f_equal.
    apply IH; rewrite length_skipn; cbn [length] in *; lia.
Qed.



(** The loop, from group [k] on, upserts the groups of what is left of the
    list, the refused ones apart. *)
Lemma sync_loop_run (w : World) (nodes : list ProxyNode.t) :
  forall groups fuel k st,
    groups = chunks_from (length (skipn (k * chunkSize) nodes)) chunkSize
               (skipn (k * chunkSize) nodes) ->
    length groups <= fuel ->
    exists st',
      sync_loop w nodes fuel k st = (Returns true, st') /\
      nexus_proxies st'
      = upsert_rows (kept_rows w k groups) (nexus_proxies st) /\
      upsert_requests (trace st') = upsert_requests (trace st) ++ groups /\
      nexus_signals st' = nexus_signals st /\
      nexus_logs st' = nexus_logs st.
Proof.
  pose proof chunkSize_pos as Hpos.
  intros groups fuel. revert groups.
  induction fuel as [|fuel IH]; intros groups k st Hg Hf.
  - destruct groups; [| simpl in Hf; lia].
    assert (Hlen : length (skipn (k * chunkSize) nodes) = 0).
    { destruct (skipn (k * chunkSize) nodes); [reflexivity | discriminate]. }
    rewrite length_skipn in Hlen. cbn [sync_loop].
    destruct (Nat.ltb_spec (k * chunkSize) (length nodes)); [lia |].
    exists st. simpl. now rewrite app_nil_r.
  - cbn [sync_loop].
    destruct (Nat.ltb_spec (k * chunkSize) (length nodes)) as [Hlt | Hge].
    + destruct (skipn (k * chunkSize) nodes) as [|x rest] eqn:Esk.
      { apply (f_equal (@length _)) in Esk. rewrite length_skipn in Esk.
        simpl in Esk. lia. }
      cbn [chunks_from length] in Hg.
      destruct groups as [|g groups]; [discriminate |].
      injection Hg as Hg1 Hg2.
      assert (Hslice : slice (k * chunkSize) (k * chunkSize + chunkSize) nodes
                       = g).
      { unfold slice. rewrite Esk, Hg1. f_equal. lia. }
      assert (Hnext : groups
                      = chunks_from
                          (length (skipn (S k * chunkSize) nodes)) chunkSize
                          (skipn (S k * chunkSize) nodes)).
      { replace (S k * chunkSize) with (chunkSize + k * chunkSize) by lia.
        rewrite <- skipn_skipn, Esk, Hg2.
        apply chunks_from_fuel; trivial.
        rewrite length_skipn. cbn [length]. lia. }
      unfold bind. rewrite Hslice. unfold sync_chunk. run_effects.
      cbn [kept_rows]. simpl in Hf.
      destruct (upsert_error w k) as [message|]; run_effects.
      * match goal with
        | |- context [sync_loop w nodes fuel (S k) ?s] =>
            destruct (IH groups (S k) s Hnext ltac:(lia))
              as (st' & Hrun & Ht & Hreq & Hs & Hl)
        end.
        exists st'. rewrite Hrun. state_fields. split; [reflexivity |].
        split; [exact Ht |]. split; [| now split].
        rewrite Hreq. unfold upsert_requests. rewrite !flat_map_app. simpl.
        now rewrite app_nil_r, <- app_assoc.
      * match goal with
        | |- context [sync_loop w nodes fuel (S k) ?s] =>
            destruct (IH groups (S k) s Hnext ltac:(lia))
              as (st' & Hrun & Ht & Hreq & Hs & Hl)
        end.
        exists st'. rewrite Hrun. state_fields. split; [reflexivity |].
        split; [now rewrite upsert_rows_app |]. split; [| now split].
        rewrite Hreq. unfold upsert_requests. rewrite !flat_map_app. simpl.
        now rewrite <- app_assoc.
    + rewrite skipn_all2 in Hg by lia. simpl in Hg. subst groups.
      exists st. simpl. now rewrite app_nil_r.
Qed.

#[local] Transparent chunkSize.

End SyncToDatabase.

Section SyncToDatabaseProperties.

Import ProxyCommander.

Lemma commander_getSupabase_missing (w : World) (st : State) :
  NEXT_PUBLIC_SUPABASE_URL w = "" \/ SUPABASE_SERVICE_ROLE_KEY w = "" ->
  getSupabase w st
  = (Throws
       (ErrorObj "FATAL: Supabase credentials missing. Proxy Commander offline."),
     st).
Proof.
  intros H. unfold getSupabase.
  destruct (String.eqb_spec (NEXT_PUBLIC_SUPABASE_URL w) "");
    destruct (String.eqb_spec (SUPABASE_SERVICE_ROLE_KEY w) "");
    try reflexivity.
  tauto.
Qed.











Lemma syncToDatabase_run (w : World) (fuel : nat) (nodes : list ProxyNode.t)
    (st : State) :
  NEXT_PUBLIC_SUPABASE_URL w <> "" ->
  SUPABASE_SERVICE_ROLE_KEY w <> "" ->
  length (chunks chunkSize nodes) <= fuel ->
  exists st',
    syncToDatabase w fuel nodes st = (Returns true, st') /\
    nexus_proxies st'
    = upsert_rows (kept_rows w 0 (chunks chunkSize nodes)) (nexus_proxies st) /\
    upsert_requests (trace st')
    = upsert_requests (trace st) ++ chunks chunkSize nodes /\
    nexus_signals st' = nexus_signals st /\
    nexus_logs st' = nexus_logs st.
Proof.
  intros Hu Hk Hf. unfold syncToDatabase. unfold bind at 1.
  rewrite (getSupabase_ok w st Hu Hk).
  destruct (sync_loop_run w nodes (chunks chunkSize nodes) fuel 0 st
              eq_refl Hf) as (st1 & Hrun & Ht & Hreq & Hs & Hl).
  unfold bind at 1. rewrite Hrun. run_effects.
  eexists. split; [reflexivity |]. state_fields.
  repeat split; trivial.
  unfold upsert_requests in *. rewrite flat_map_app. simpl.
  now rewrite app_nil_r.
Qed.


End SyncToDatabaseProperties.

Section SyncToDatabaseExtras.

Import ProxyCommander.







(** X4.  With a store credential missing, [syncToDatabase] and
    [getOptimalProxy] throw the commander's FATAL error before they ask the
    store anything: the state, trace included, is as it was. *)
Theorem commander_offline_without_credentials (w : World) (fuel : nat)
    (nodes : list ProxyNode.t) (st : State) :
  NEXT_PUBLIC_SUPABASE_URL w = "" \/ SUPABASE_SERVICE_ROLE_KEY w = "" ->
  syncToDatabase w fuel nodes st
  = (Throws
       (ErrorObj "FATAL: Supabase credentials missing. Proxy Commander offline."),
     st) /\
  getOptimalProxy w st
  = (Throws
       (ErrorObj "FATAL: Supabase credentials missing. Proxy Commander offline."),
     st).
Proof.
  intros H. unfold syncToDatabase, getOptimalProxy. unfold bind at 1 4.
  now rewrite (commander_getSupabase_missing w st H).
Qed.

Lemma commander_offline_without_credentials_witness :
  (NEXT_PUBLIC_SUPABASE_URL SweepScenarios.offline = "" \/
   SUPABASE_SERVICE_ROLE_KEY SweepScenarios.offline = "") /\
  fst (getOptimalProxy SweepScenarios.offline
         (initial_state SweepScenarios.offline Demo.fleet_50_20_80))
  = Throws
      (ErrorObj "FATAL: Supabase credentials missing. Proxy Commander offline.").
Proof.
  assert (H : NEXT_PUBLIC_SUPABASE_URL SweepScenarios.offline = "" \/
              SUPABASE_SERVICE_ROLE_KEY SweepScenarios.offline = "")
    by (left; reflexivity).
  split; [exact H |].
  rewrite (proj2 (commander_offline_without_credentials SweepScenarios.offline
                    0 [] _ H)).
  reflexivity.
Defined.

End SyncToDatabaseExtras.

(* ===================================================================== *)
(** ** From a harvested line to a probed node *)
(* ===================================================================== *)

Section HarvestToProbe.

Import ProxyCommander.

Lemma split_free (s : string) : colon_free s -> split ":" s = [s].
Proof.
  unfold colon_free. induction s as [|c s IH]; intros H; [reflexivity |].
  simpl in *. destruct (Ascii.eqb_spec c ":") as [-> | Hne]; [tauto |].
  rewrite IH by tauto. reflexivity.
Qed.

Lemma split_at_colon (a b : string) :
  colon_free a -> split ":" (a ++ String ":" b) = a :: split ":" b.
Proof.
  unfold colon_free. induction a as [|c a IH]; intros H; simpl.
  - reflexivity.
  - simpl in H. destruct (Ascii.eqb_spec c ":") as [-> | Hne]; [tauto |].
    rewrite IH by tauto. reflexivity.
Qed.

Lemma colon_free_app (a b : string) :
  colon_free a -> colon_free b -> colon_free (a ++ b).
Proof.
  unfold colon_free. induction a as [|c a IH]; intros Ha Hb; simpl in *.
  - exact Hb.
  - intros [E | Hin]; [tauto |]. apply IH; tauto.
Qed.

Lemma digit_run_colon_free (lo hi : nat) (d : string) :
  digit_run lo hi d -> colon_free d.
Proof.
  intros [Hd _] Hin. rewrite Forall_forall in Hd.
  specialize (Hd _ Hin). discriminate.
Qed.

Lemma dot_colon_free : colon_free ".".
Proof. intros [H | []]. discriminate. Qed.

Lemma digit_value_range (c : ascii) :
  is_digit c = true -> (0 <= digit_value c <= 9)%Z.
Proof.
  unfold is_digit, digit_value. rewrite andb_true_iff, !Nat.leb_le. lia.
Qed.

Lemma leading_digits_run (s : string) :
  Forall (fun c => is_digit c = true) (list_ascii_of_string s) ->
  forall v, leading_digits s (Some v) = Some (decimal_from v s).
Proof.
  induction s as [|c s IH]; intros H v; [reflexivity |].
  simpl in *. inversion H as [|? ? Hc Hs]; subst.
  rewrite Hc. now apply IH.
Qed.

Lemma decimal_from_bounds (s : string) :
  Forall (fun c => is_digit c = true) (list_ascii_of_string s) ->
  forall v,
    (0 <= v)%Z ->
    (0 <= decimal_from v s
     <= v * 10 ^ Z.of_nat (String.length s)
        + (10 ^ Z.of_nat (String.length s) - 1))%Z.
Proof.
  induction s as [|c s IH]; intros H v Hv.
  - simpl. lia.
  - simpl in H. inversion H as [|? ? Hc Hs]; subst.
    pose proof (digit_value_range c Hc) as Hd.
    cbn [decimal_from String.length].
    specialize (IH Hs (10 * v + digit_value c)%Z ltac:(lia)).
    rewrite Nat2Z.inj_succ, Z.pow_succ_r by lia.
    assert (0 < 10 ^ Z.of_nat (String.length s))%Z
      by (apply Z.pow_pos_nonneg; lia).
    nia.
Qed.

(** A line that is a proxy address parses as the code expects. *)
Lemma parse_port_of_run (port : string) :
  digit_run 2 5 port ->
  parseInt10 (Some port) = Some (decimal_value port) /\
  (0 <= decimal_value port <= 99999)%Z.
Proof.
  intros [Hd Hl]. split.
  - destruct port as [|c port]; [simpl in Hl; lia |].
    simpl in Hd. inversion Hd as [|? ? Hc Hs]; subst.
    assert (Htrim : trimStart (String c port) = String c port).
    { apply is_digit_iff in Hc.
      repeat (destruct Hc as [<- | Hc];
              [destruct port as [|b [|d port]]; reflexivity |]).
      destruct Hc. }
    unfold parseInt10. rewrite Htrim. unfold decimal_value.
    assert (Hld : leading_digits (String c port) None
                  = Some (decimal_from 0 (String c port))).
    { cbn [leading_digits decimal_from]. rewrite Hc.
      now apply leading_digits_run. }
    apply is_digit_iff in Hc.
    repeat (destruct Hc as [<- | Hc]; [exact Hld |]). destruct Hc.
  - pose proof (decimal_from_bounds port Hd 0%Z ltac:(lia)) as Hb.
    unfold decimal_value.
    assert (10 ^ Z.of_nat (String.length port) <= 10 ^ 5)%Z
      by (apply Z.pow_le_mono_r; lia).
    lia.
Qed.

End HarvestToProbe.

Section FleetExtras.

Import ProxyCommander.

Lemma string_app_assoc (a b c : string) :
  ((a ++ b) ++ c)%string = (a ++ b ++ c)%string.
Proof. induction a; simpl; congruence. Qed.

Lemma check_from_ids (pw : ProbeWorld) (width : nat) (l : list string) :
  forall i, map ProxyNode.id (check_from pw width i l) = l.
Proof.
  induction l as [|p l IH]; intros i; simpl; [reflexivity |].
  rewrite IH. f_equal. unfold check.
  destruct (probe_outcome pw width i p); reflexivity.
Qed.





(** X6.  A string that passes [proxyRegex] is probed into a node whose [ip]
    is the part before the colon, the four octets with their dots, and
    whose [port] is the number its digits write: never NaN, and between 0
    and 99999, so possibly above 65535. *)
Theorem check_parses_harvested_address (pw : ProbeWorld) (c i : nat)
    (p : string) :
  proxyRegex_test p = true ->
  exists ip port,
    p = (ip ++ ":" ++ port)%string /\
    colon_free ip /\
    digit_run 2 5 port /\
    ProxyNode.id (check pw c i p) = p /\
    ProxyNode.ip (check pw c i p) = ip /\
    ProxyNode.port (check pw c i p) = Some (decimal_value port) /\
    (0 <= decimal_value port <= 99999)%Z.
Proof.
  intros Ht. apply proxyRegex_test_iff in Ht.
  destruct Ht as (o1 & o2 & o3 & o4 & port & D1 & D2 & D3 & D4 & D5 & ->).
  exists (o1 ++ "." ++ o2 ++ "." ++ o3 ++ "." ++ o4)%string, port.
  assert (Hfree : colon_free (o1 ++ "." ++ o2 ++ "." ++ o3 ++ "." ++ o4)).
  { repeat first
      [ apply colon_free_app
      | apply dot_colon_free
      | eapply digit_run_colon_free; eassumption ]. }
  assert (Hsplit : split ":"
                     ((o1 ++ "." ++ o2 ++ "." ++ o3 ++ "." ++ o4)
                      ++ String ":" port)
                   = [(o1 ++ "." ++ o2 ++ "." ++ o3 ++ "." ++ o4)%string;
                      port]).
  { rewrite split_at_colon by exact Hfree.
    now rewrite (split_free port (digit_run_colon_free _ _ _ D5)). }
  assert (Heq : (o1 ++ "." ++ o2 ++ "." ++ o3 ++ "." ++ o4 ++ ":" ++ port)%string
                = ((o1 ++ "." ++ o2 ++ "." ++ o3 ++ "." ++ o4)
                   ++ String ":" port)%string).
  { rewrite !string_app_assoc. reflexivity. }
  destruct (parse_port_of_run port D5) as [Hport Hrange].
  split; [exact Heq |]. split; [exact Hfree |]. split; [exact D5 |].
  rewrite Heq. unfold check. rewrite Hsplit. cbn [hd nth_error].
  rewrite Hport.
  destruct (probe_outcome pw c i _); repeat split; trivial; apply Hrange.
Qed.

Lemma check_parses_harvested_address_witness :
  proxyRegex_test "999.1.1.1:80" = true /\
  exists v,
    ProxyNode.port (check demo_probes 50 0 "999.1.1.1:80") = Some v /\
    (0 <= v <= 99999)%Z.
Proof.
  assert (H : proxyRegex_test "999.1.1.1:80" = true) by reflexivity.
  split; [exact H |].
  destruct (check_parses_harvested_address demo_probes 50 0 "999.1.1.1:80" H)
    as (ip & port & _ & _ & _ & _ & _ & Hp & Hr).
  exists (decimal_value port). now split.
Defined.

End FleetExtras.

Section HarvestExtras.

Import ProxyCommander.

Lemma scrapeSources_In (hw : HarvestWorld) (p : string) :
  In p (scrapeSources hw) <->
  exists url, In url (completion hw) /\ harvested_from hw url p.
Proof. unfold scrapeSources. rewrite scrape_fold_In. simpl. tauto. Qed.

(** X7.  The harvest does not depend on which source completes first: two
    runs in which the sources answer the same, completing in different
    orders, return the same proxies, up to their order in the result.  A
    source that fails adds nothing, and a harvest whose sources all fail is
    empty. *)
Theorem scrapeSources_order_irrelevant (hw1 hw2 : HarvestWorld) :
  (forall url, source_data hw1 url = source_data hw2 url) ->
  Permutation (completion hw1) (completion hw2) ->
  Permutation (scrapeSources hw1) (scrapeSources hw2) /\
  (forall p url,
     source_data hw1 url = None -> ~ harvested_from hw1 url p) /\
  ((forall url, In url (completion hw1) -> source_data hw1 url = None) ->
   scrapeSources hw1 = []).
Proof.
  intros Hdata Hperm. split; [| split].
  - apply NoDup_Permutation.
    + apply scrape_fold_NoDup. constructor.
    + apply scrape_fold_NoDup. constructor.
    + intros p. rewrite !scrapeSources_In. split.
      * intros (url & Hu & d & line & Hd & Hl & Ha). exists url.
        split; [now apply (Permutation_in _ Hperm) |].
        exists d, line. rewrite <- Hdata. exact (conj Hd (conj Hl Ha)).
      * intros (url & Hu & d & line & Hd & Hl & Ha). exists url.
        split; [now apply (Permutation_in _ (Permutation_sym Hperm)) |].
        exists d, line. rewrite Hdata. exact (conj Hd (conj Hl Ha)).
  - intros p url Hnone (d & line & Hd & _). congruence.
  - intros Hall. destruct (scrapeSources hw1) as [|p l] eqn:E; [reflexivity |].
    assert (Hin : In p (scrapeSources hw1)) by (rewrite E; now left).
    apply scrapeSources_In in Hin.
    destruct Hin as (url & Hu & d & line & Hd & _).
    rewrite (Hall url Hu) in Hd. discriminate.
Qed.

Lemma scrapeSources_order_irrelevant_witness :
  ((forall url,
      source_data demo_harvest url
      = source_data
          {| source_data := source_data demo_harvest;
             completion := PROXY_SOURCES |} url) /\
   Permutation (completion demo_harvest) PROXY_SOURCES) /\
  Permutation (scrapeSources demo_harvest)
    (scrapeSources
       {| source_data := source_data demo_harvest;
          completion := PROXY_SOURCES |}).
Proof.
  assert (Hd : forall url,
             source_data demo_harvest url
             = source_data
                 {| source_data := source_data demo_harvest;
                    completion := PROXY_SOURCES |} url)
    by reflexivity.
  assert (Hp : Permutation (completion demo_harvest) PROXY_SOURCES).
  { apply Permutation_sym, Permutation_rev. }
  split; [now split |].
  exact (proj1 (scrapeSources_order_irrelevant demo_harvest
                  {| source_data := source_data demo_harvest;
                     completion := PROXY_SOURCES |} Hd Hp)).
Defined.

End HarvestExtras.

(* ===================================================================== *)
(** ** More on the valuation *)
(* ===================================================================== *)

Section ValuationExtras.

Import NexusHunter.

Lemma lower_upper_ascii (c : ascii) :
  lower_ascii (upper_ascii c) = lower_ascii c.
Proof. destruct c as [[] [] [] [] [] [] [] []]; reflexivity. Qed.

Lemma lower_lower_ascii (c : ascii) :
  lower_ascii (lower_ascii c) = lower_ascii c.
Proof. destruct c as [[] [] [] [] [] [] [] []]; reflexivity. Qed.

Lemma toLowerCase_upper_letters (s : string) :
  toLowerCase (upper_letters s) = toLowerCase s.
Proof.
  induction s as [|c s IH]; simpl; [reflexivity |].
  now rewrite lower_upper_ascii, IH.
Qed.

Lemma toLowerCase_idempotent (s : string) :
  toLowerCase (toLowerCase s) = toLowerCase s.
Proof.
  induction s as [|c s IH]; simpl; [reflexivity |].
  now rewrite lower_lower_ascii, IH.
Qed.

(** X8.  The condition score does not depend on the case of the letters
    a-z of the text: writing them all in upper case, or all in lower case,
    gives the same score. *)
Theorem calculateCondition_ignores_case (s : string) :
  calculateCondition (upper_letters s) = calculateCondition s /\
  calculateCondition (toLowerCase s) = calculateCondition s.
Proof.
  unfold calculateCondition.
  now rewrite toLowerCase_upper_letters, toLowerCase_idempotent.
Qed.

Lemma brandMatch_target (title b : string) :
  brandMatch title = Some b -> In b TARGET_BRANDS /\ contains title b.
Proof.
  intros H. apply find_some in H. destruct H as [Hin Hc].
  split; [exact Hin | now apply includes_iff].
Qed.

(** The estimate of a target brand is one of the ten values, whatever the
    condition; it is above zero, and not above NaN. *)
Lemma estimate_of_target (b : string) (c : ConditionScore) :
  In b TARGET_BRANDS ->
  let e := (getBaseValue b
            * ScaleEntry.multiplier (CONDITION_SCALE c))%float in
  In e estimates /\
  margin_ok e 0 = true /\
  margin_ok e PrimFloat.nan = false.
Proof.
  intros Hin. cbv zeta. unfold TARGET_BRANDS in Hin.
  repeat (destruct Hin as [<- | Hin];
          [destruct c; vm_compute; intuition congruence |]).
  destruct Hin.
Qed.

(** X9.  A listing of a target brand with no price, read as a price of
    zero, is always admitted; one whose price does not read as a number
    (NaN) never is. *)
Theorem admission_without_a_price (item : Item.t) (b : string) :
  brandMatch (Item.title item) = Some b ->
  (Item.price item = None ->
   admission item = Some b /\ listedPrice_of item = 0%float) /\
  (Item.price item = Some PrimFloat.nan -> admission item = None).
Proof.
  intros Hb. destruct (brandMatch_target _ _ Hb) as [Hin _].
  destruct (estimate_of_target b (calculateCondition (condition_or_used item))
              Hin) as (_ & H0 & Hnan).
  pose proof (brandMatch_not_empty (Item.title item)) as Hne.
  unfold admission. rewrite Hb.
  destruct b as [|c b]; [congruence |].
  unfold estValue_of, listedPrice_of. split.
  - intros ->. now rewrite H0.
  - intros ->. now rewrite Hnan.
Qed.

Lemma admission_without_a_price_witness :
  brandMatch "Chanel classic flap" = Some "Chanel" /\
  admission (Item.mk "v1|1|0" "Chanel classic flap" None None "") = Some "Chanel".
Proof.
  assert (H : brandMatch
                (Item.title
                   (Item.mk "v1|1|0" "Chanel classic flap" None None ""))
              = Some "Chanel") by reflexivity.
  split; [exact H |].
  exact (proj1 (proj1 (admission_without_a_price _ _ H) eq_refl)).
Defined.

Lemma signal_of_well_formed (item : Item.t) (brand timestamp : string) :
  admission item = Some brand ->
  well_formed_signal (signal_of item brand timestamp).
Proof.
  intros Ha. pose proof Ha as Hiff. apply admission_iff in Hiff.
  destruct Hiff as [Hfirst Hm]. apply brandMatch_first in Hfirst.
  destruct (brandMatch_target _ _ Hfirst) as [Hin Hc].
  destruct (estimate_of_target brand
              (calculateCondition (condition_or_used item)) Hin)
    as (He & _).
  unfold well_formed_signal, signal_of. cbn.
  repeat split; trivial.
Qed.

Lemma stamped_well_formed (w : World) (items : list Item.t) (n : nat) :
  Forall well_formed_signal (stamped w n items).
Proof.
  apply Forall_forall. intros s Hs.
  destruct (stamped_sound _ _ _ _ Hs) as (item & b & ts & _ & Ha & ->).
  now apply signal_of_well_formed.
Qed.

End ValuationExtras.

(* ===================================================================== *)
(** ** More on the fetch: what it leaves alone, and the backoff law *)
(* ===================================================================== *)

Section FetchFrame.

Import NexusHunter.

Variable w : World.
Variable url : string.

Lemma frame_refl (st : State) : frame st st [].
Proof.
  unfold frame, attempts, bypasses. simpl.
  rewrite app_nil_r, !Nat.add_0_r. now repeat split.
Qed.

Lemma frame_trans (st1 st2 st3 : State) (a b : list Event) :
  frame st1 st2 a -> frame st2 st3 b -> frame st1 st3 (a ++ b).
Proof.
  unfold frame, attempts, bypasses.
  intros (A1 & A2 & A3 & A4 & A5 & A6 & A7 & A8)
         (B1 & B2 & B3 & B4 & B5 & B6 & B7 & B8).
  rewrite !filter_app, !length_app.
  repeat split; try congruence; try lia.
  now rewrite B1, A1, app_assoc.
Qed.

Lemma proxy_in_use_cases (c : ProxyConfig.t) :
  ProxyConfig.host c = "" /\ proxy_in_use c = None \/
  ProxyConfig.host c <> "" /\ proxy_in_use c = Some c.
Proof.
  unfold proxy_in_use.
  destruct (String.eqb_spec (ProxyConfig.host c) ""); [left | right];
    now split.
Qed.

Lemma playwright_server_cases (c : ProxyConfig.t) :
  ProxyConfig.host c = "" /\ playwright_server c = None \/
  ProxyConfig.host c <> "" /\
  playwright_server c
  = Some ("http://" ++ ProxyConfig.host c ++ ":"
          ++ port_text (ProxyConfig.port c))%string.
Proof.
  unfold playwright_server.
  destruct (String.eqb_spec (ProxyConfig.host c) ""); [left | right];
    now split.
Qed.

Lemma request_fetch_event (c : ProxyConfig.t) (n : nat) :
  fetch_event w url c (EvAxiosGet url (proxy_in_use c) (axios_get w n)).
Proof.
  split; [split; [reflexivity | apply proxy_in_use_cases] | now exists n].
Qed.

Lemma session_fetch_event (c : ProxyConfig.t) (n : nat) :
  fetch_event w url c
    (EvBrowserSession url (playwright_server c) (chromium w n)).
Proof.
  split; [split; [reflexivity | apply playwright_server_cases] | now exists n].
Qed.

Lemma scrapeWithPlaywright_frame (st : State) :
  exists evs,
    frame st (snd (scrapeWithPlaywright w url st)) evs /\
    Forall (fetch_event w url (proxyConfig st)) evs /\
    fst (scrapeWithPlaywright w url st)
    = bypass_yield url (chromium w (browser_sessions st)) /\
    bypasses evs = 1 /\
    attempts evs = 0 /\
    closes evs
    = match chromium w (browser_sessions st) with
      | LaunchFails _ => 0
      | _ => 1
      end /\
    sleeps evs = [] /\
    exists rest,
      evs = EvBrowserSession url (playwright_server (proxyConfig st))
              (chromium w (browser_sessions st)) :: rest.
Proof.
  pose proof (session_fetch_event (proxyConfig st) (browser_sessions st))
    as Hsession.
  unfold scrapeWithPlaywright, finally_close. run_effects.
  unfold frame, attempts, bypasses, closes.
  destruct (chromium w (browser_sessions st)) as [m | m [e|] | html [e|]] eqn:E;
    run_effects; state_fields; rewrite <- ?app_assoc; cbn [app];
    eexists; (split; [repeat split; try reflexivity; simpl; lia |]);
    (split; [constructor; [exact Hsession | repeat constructor] |]);
    repeat split; eauto.
Qed.

End FetchFrame.

Section FetchFrameLoop.

Import NexusHunter.

Variable w : World.
Variable url : string.
Variable retries : nat.

Lemma safeApiCall_loop_frame :
  forall remaining attempt st,
    exists evs,
      frame st (snd (safeApiCall_loop w url retries remaining attempt st)) evs /\
      Forall (fetch_event w url (proxyConfig st)) evs.
Proof.
  induction remaining as [|remaining IH]; intros attempt st.
  - exists []. simpl. split; [apply frame_refl | constructor].
  - cbn [safeApiCall_loop]. run_effects.
    destruct (axios_get w (http_calls st)) as [data | status message] eqn:Eget.
    + eexists [_]. cbn [snd]. split; [frame_by_fields |].
      constructor; [| constructor]. rewrite <- Eget.
      apply request_fetch_event.
    + run_effects.
      assert (Hreq : fetch_event w url (proxyConfig st)
                       (EvAxiosGet url (proxy_in_use (proxyConfig st))
                          (HttpFail status message))).
      { rewrite <- Eget. apply request_fetch_event. }
      destruct (is_blocked status) eqn:Eb.
      * run_effects.
        match goal with
        | |- context [scrapeWithPlaywright w url ?s] =>
            destruct (scrapeWithPlaywright_frame w url s)
              as (bevs & Hfr & Hall & _);
            assert (Hpre : frame st s
                             [EvAxiosGet url (proxy_in_use (proxyConfig st))
                                (HttpFail status message);
                              EvConsole
                                (WarnApiCallFailed attempt retries message);
                              EvConsole (LogWafDetected url)])
              by frame_by_fields;
            destruct (scrapeWithPlaywright w url s) as [o st2]
        end.
        cbn [snd] in Hfr. state_fields.
        pose proof (frame_trans _ _ _ _ _ Hpre Hfr) as Hmid.
        assert (Hfa : Forall (fetch_event w url (proxyConfig st))
                        ([EvAxiosGet url (proxy_in_use (proxyConfig st))
                            (HttpFail status message);
                          EvConsole (WarnApiCallFailed attempt retries message);
                          EvConsole (LogWafDetected url)] ++ bevs)).
        { apply Forall_app. split; [| exact Hall].
          constructor; [exact Hreq | repeat constructor]. }
        destruct o as [[data|] | e].
        -- eexists. split; [exact Hmid | exact Hfa].
        -- destruct (attempt =? retries)%nat.
           ++ eexists. cbn [snd]. split.
              ** eapply frame_trans; [exact Hmid |].
                 instantiate (1 := [EvConsole (ErrorExhausted url)]).
                 frame_by_fields.
              ** apply Forall_app. split; [exact Hfa | repeat constructor].
           ++ match goal with
              | |- context [safeApiCall_loop w url retries remaining _ ?s] =>
                  destruct (IH (S attempt) s) as (evs & Hrec & Hfe);
                  assert (Hsl : frame st2 s
                                  [EvConsole
                                     (LogBackingOff (backoff_delay attempt));
                                   EvSleep (backoff_delay attempt)])
                    by frame_by_fields
              end.
              eexists. split.
              ** eapply frame_trans; [exact Hmid |].
                 eapply frame_trans; [exact Hsl | exact Hrec].
              ** apply Forall_app. split; [exact Hfa |].
                 apply Forall_app. split; [repeat constructor |].
                 state_fields.
                 destruct Hmid as (_ & Hcfg & _). now rewrite Hcfg in Hfe.
        -- eexists. split; [exact Hmid | exact Hfa].
      * run_effects. destruct (attempt =? retries)%nat.
        -- eexists [_; _; _]. cbn [snd]. split; [frame_by_fields |].
           constructor; [exact Hreq | repeat constructor].
        -- match goal with
           | |- context [safeApiCall_loop w url retries remaining _ ?s] =>
               destruct (IH (S attempt) s) as (evs & Hrec & Hfe);
               assert (Hpre : frame st s
                                [EvAxiosGet url (proxy_in_use (proxyConfig st))
                                   (HttpFail status message);
                                 EvConsole
                                   (WarnApiCallFailed attempt retries message);
                                 EvConsole
                                   (LogBackingOff (backoff_delay attempt));
                                 EvSleep (backoff_delay attempt)])
                 by frame_by_fields
           end.
           eexists. split; [eapply frame_trans; [exact Hpre | exact Hrec] |].
           apply Forall_app.
           split; [constructor; [exact Hreq | repeat constructor] |].
           state_fields. exact Hfe.
Qed.

End FetchFrameLoop.

Section BackoffLaw.

Import NexusHunter.

Variable w : World.
Variable url : string.
Variable retries : nat.

Lemma timer_wait_backoff (attempt : nat) :
  1 <= attempt -> timer_wait (backoff_delay attempt) = wait_after attempt.
Proof.
  intros Ha. unfold timer_wait, backoff_delay, wait_after.
  destruct (Nat.leb_spec attempt 22) as [Hle | Hgt].
  - assert (H1 : (2 ^ 0 <= 2 ^ (Z.of_nat attempt - 1))%Z)
      by (apply Z.pow_le_mono_r; lia).
    assert (H2 : (2 ^ (Z.of_nat attempt - 1) <= 2 ^ 21)%Z)
      by (apply Z.pow_le_mono_r; lia).
    change (2 ^ 0)%Z with 1%Z in H1. change (2 ^ 21)%Z with 2097152%Z in H2.
    destruct (Z.gtb_spec (1000 * 2 ^ (Z.of_nat attempt - 1)) 2147483647);
      [lia |].
    destruct (Z.ltb_spec (1000 * 2 ^ (Z.of_nat attempt - 1)) 1); [lia |].
    reflexivity.
  - assert (H2 : (2 ^ 22 <= 2 ^ (Z.of_nat attempt - 1))%Z)
      by (apply Z.pow_le_mono_r; lia).
    change (2 ^ 22)%Z with 4194304%Z in H2.
    destruct (Z.gtb_spec (1000 * 2 ^ (Z.of_nat attempt - 1)) 2147483647);
      [reflexivity | lia].
Qed.

Lemma waited_backoff (k : nat) :
  forall a,
    1 <= a ->
    map timer_wait (map backoff_delay (seq a k)) = map wait_after (seq a k).
Proof.
  induction k as [|k IH]; intros a Ha; [reflexivity |].
  cbn [seq map]. rewrite timer_wait_backoff by exact Ha.
  f_equal. apply IH. lia.
Qed.

Lemma total_app (l l' : list Z) : total (l ++ l') = (total l + total l')%Z.
Proof.
  unfold total. induction l as [|x l IH]; simpl; [reflexivity |].
  rewrite IH. lia.
Qed.

Lemma total_wait_after (k : nat) :
  total (map wait_after (seq 1 k)) = waited_in_all k.
Proof.
  induction k as [|k IH]; [reflexivity |].
  rewrite seq_S, map_app, total_app, IH. cbn [map total fold_right Nat.add].
  unfold waited_in_all, wait_after.
  destruct (Nat.leb_spec (S k) 22) as [Hle | Hgt].
  - destruct (Nat.leb_spec k 22) as [_ | Hk]; [| lia].
    replace (Z.of_nat (S k) - 1)%Z with (Z.of_nat k) by lia.
    rewrite Nat2Z.inj_succ, Z.pow_succ_r by lia. lia.
  - destruct (Nat.leb_spec k 22) as [Hk | Hk].
    + assert (k = 22) as -> by lia. reflexivity.
    + lia.
Qed.

Lemma safeApiCall_loop_ok (remaining attempt : nat) (st : State)
    (data : option Payload.t) :
  axios_get w (http_calls st) = HttpOk data ->
  safeApiCall_loop w url retries (S remaining) attempt st
  = (Returns data,
     log_event (EvAxiosGet url (proxy_in_use (proxyConfig st)) (HttpOk data))
       (tick_http st)).
Proof.
  intros H. cbn [safeApiCall_loop]. run_effects. now rewrite H.
Qed.

(** [k] failures that are not blocks, on attempts that are not the last:
    the loop goes through [k] rounds of request and backoff. *)
Lemma safeApiCall_loop_failed_rounds :
  forall k remaining attempt st,
    (forall j, j < k -> fails_unblocked w (http_calls st + j)) ->
    attempt + k <= retries ->
    k <= remaining ->
    exists st_k evs,
      safeApiCall_loop w url retries remaining attempt st
      = safeApiCall_loop w url retries (remaining - k) (attempt + k) st_k /\
      frame st st_k evs /\
      steps evs = failed_rounds attempt k /\
      sleeps evs = map backoff_delay (seq attempt k) /\
      attempts evs = k /\
      bypasses evs = 0.
Proof.
  induction k as [|k IH]; intros remaining attempt st Hfail Hle Hrem.
  - exists st, []. rewrite Nat.sub_0_r, Nat.add_0_r.
    split; [reflexivity |]. split; [apply frame_refl | now repeat split].
  - destruct remaining as [|remaining]; [lia |].
    destruct (Hfail 0 ltac:(lia)) as (status & message & Hget & Hb).
    rewrite Nat.add_0_r in Hget.
    rewrite (safeApiCall_loop_unblocked w url retries remaining attempt st
               status message Hget Hb).
    cbv zeta. destruct (Nat.eqb_spec attempt retries) as [E | _]; [lia |].
    match goal with
    | |- context [safeApiCall_loop w url retries remaining (S attempt) ?s] =>
        assert (Hpre : frame st s
                         [EvAxiosGet url (proxy_in_use (proxyConfig st))
                            (HttpFail status message);
                          EvConsole (WarnApiCallFailed attempt retries message);
                          EvConsole (LogBackingOff (backoff_delay attempt));
                          EvSleep (backoff_delay attempt)]);
        [ unfold frame, attempts, bypasses; state_fields;
          rewrite <- ?app_assoc; simpl; repeat split; lia |];
        destruct (IH remaining (S attempt) s) as
          (st_k & evs & Hrun & Hfr & Hsteps & Hsleeps & Hatt & Hbyp)
    end.
    + intros j Hj. state_fields.
      replace (S (http_calls st) + j) with (http_calls st + S j) by lia.
      apply Hfail. lia.
    + lia.
    + lia.
    + exists st_k. eexists. rewrite Hrun.
      replace (S remaining - S k) with (remaining - k) by lia.
      replace (attempt + S k) with (S attempt + k) by lia.
      split; [reflexivity |].
      split; [exact (frame_trans _ _ _ _ _ Hpre Hfr) |].
      unfold steps, sleeps, attempts, bypasses in *.
      rewrite !flat_map_app, !filter_app, !length_app.
      cbn [flat_map app filter is_request is_session length seq map
           failed_rounds].
      rewrite Hsteps, Hsleeps, Hatt, Hbyp. now repeat split.
Qed.

End BackoffLaw.

Section FetchTeardown.

Import NexusHunter.

Variable w : World.
Variable url : string.
Variable retries : nat.

Lemma closes_app (a b : list Event) : closes (a ++ b) = closes a + closes b.
Proof. unfold closes. now rewrite filter_app, length_app. Qed.

Lemma launched_app (a b : list Event) :
  launched (a ++ b) = launched a + launched b.
Proof. unfold launched. now rewrite filter_app, length_app. Qed.

Lemma bypass_yield_throws (answer : BrowserOutcome) (e : Exn) :
  bypass_yield url answer = Throws e -> close_error answer = Some e.
Proof.
  destruct answer as [m | m [c|] | html [c|]]; simpl; congruence.
Qed.

Lemma scrapeWithPlaywright_teardown (st : State) :
  exists evs,
    trace (snd (scrapeWithPlaywright w url st)) = trace st ++ evs /\
    closes evs = launched evs /\
    forall e,
      fst (scrapeWithPlaywright w url st) = Throws e ->
      close_error (chromium w (browser_sessions st)) = Some e.
Proof.
  destruct (scrapeWithPlaywright_frame w url st)
    as (evs & Hfr & _ & Hyield & Hone & _ & Hcl & _ & rest & Hevs).
  exists evs. split; [apply Hfr |]. split.
  - rewrite Hcl. subst evs. unfold launched, bypasses in *.
    cbn [filter is_session length] in Hone.
    assert (Hrest : filter is_session rest = []).
    { destruct (filter is_session rest); [reflexivity | simpl in Hone; lia]. }
    assert (Hnone :
      filter
        (fun e =>
           match e with
           | EvBrowserSession _ _ (LaunchFails _) => false
           | EvBrowserSession _ _ _ => true
           | _ => false
           end) rest = []).
    { clear -Hrest. induction rest as [|e rest IH]; [reflexivity |].
      cbn [filter] in *. destruct e; try (now apply IH); discriminate. }
    cbn [filter]. destruct (chromium w (browser_sessions st));
      cbn [length]; now rewrite Hnone.
  - intros e He. rewrite Hyield in He. now apply bypass_yield_throws.
Qed.

Lemma safeApiCall_loop_teardown :
  forall remaining attempt st,
    exists evs,
      trace (snd (safeApiCall_loop w url retries remaining attempt st))
      = trace st ++ evs /\
      closes evs = launched evs /\
      forall e,
        fst (safeApiCall_loop w url retries remaining attempt st) = Throws e ->
        exists n, close_error (chromium w n) = Some e.
Proof.
  induction remaining as [|remaining IH]; intros attempt st.
  - exists []. simpl. rewrite app_nil_r. repeat split. discriminate.
  - cbn [safeApiCall_loop]. run_effects.
    destruct (axios_get w (http_calls st)) as [data | status message] eqn:Eget.
    + eexists [_]. state_fields. repeat split. discriminate.
    + run_effects. destruct (is_blocked status) eqn:Eb.
      * run_effects.
        match goal with
        | |- context [scrapeWithPlaywright w url ?s] =>
            destruct (scrapeWithPlaywright_teardown s)
              as (bevs & Htr & Hcl & Hthrow);
            destruct (scrapeWithPlaywright w url s) as [o st2]
        end.
        state_fields. rewrite <- ?app_assoc in Htr. cbn [app] in Htr.
        destruct o as [[data|] | e].
        -- eexists. state_fields. split; [exact Htr |]. split.
           ++ change (closes (?a :: ?b :: ?c :: bevs))
                with (closes ([a; b; c] ++ bevs)).
              change (launched (?a :: ?b :: ?c :: bevs))
                with (launched ([a; b; c] ++ bevs)).
              rewrite closes_app, launched_app, Hcl. reflexivity.
           ++ discriminate.
        -- destruct (attempt =? retries)%nat.
           ++ eexists. state_fields. rewrite Htr, <- app_assoc.
              split; [reflexivity |]. split; [| discriminate].
              cbn [app].
              change (closes (?a :: ?b :: ?c :: ?r))
                with (closes ([a; b; c] ++ r)).
              change (launched (?a :: ?b :: ?c :: ?r))
                with (launched ([a; b; c] ++ r)).
              rewrite !closes_app, !launched_app, Hcl. reflexivity.
           ++ match goal with
              | |- context [safeApiCall_loop w url retries remaining _ ?s] =>
                  destruct (IH (S attempt) s) as (evs & Hrec & Hcl' & Hth)
              end.
              state_fields. eexists. split.
              ** rewrite Hrec, Htr, <- ?app_assoc. cbn [app].
                 rewrite <- ?app_assoc. reflexivity.
              ** split; [| exact Hth].
                 change (closes (?a :: ?b :: ?c :: ?r))
                   with (closes ([a; b; c] ++ r)).
                 change (launched (?a :: ?b :: ?c :: ?r))
                   with (launched ([a; b; c] ++ r)).
                 rewrite !closes_app, !launched_app, Hcl.
                 cbn [app].
                 change (closes (?a :: ?b :: evs))
                   with (closes ([a; b] ++ evs)).
                 change (launched (?a :: ?b :: evs))
                   with (launched ([a; b] ++ evs)).
                 rewrite !closes_app, !launched_app, Hcl'. reflexivity.
        -- eexists. state_fields. split; [exact Htr |]. split.
           ++ change (closes (?a :: ?b :: ?c :: bevs))
                with (closes ([a; b; c] ++ bevs)).
              change (launched (?a :: ?b :: ?c :: bevs))
                with (launched ([a; b; c] ++ bevs)).
              rewrite closes_app, launched_app, Hcl. reflexivity.
           ++ intros e' He'. injection He' as <-.
              eexists. apply Hthrow. reflexivity.
      * run_effects. destruct (attempt =? retries)%nat.
        -- eexists [_; _; _]. state_fields. rewrite <- ?app_assoc.
           repeat split. discriminate.
        -- match goal with
           | |- context [safeApiCall_loop w url retries remaining _ ?s] =>
               destruct (IH (S attempt) s) as (evs & Hrec & Hcl' & Hth)
           end.
           state_fields. eexists. split.
           ++ rewrite Hrec, <- ?app_assoc. cbn [app]. reflexivity.
           ++ split; [| exact Hth].
              change (closes (?a :: ?b :: ?c :: ?d :: evs))
                with (closes ([a; b; c; d] ++ evs)).
              change (launched (?a :: ?b :: ?c :: ?d :: evs))
                with (launched ([a; b; c; d] ++ evs)).
              rewrite closes_app, launched_app, Hcl'. reflexivity.
Qed.

(** Where no request is answered 403 or 503, the loop returns, and no event
    of it is a browser session. *)
Lemma safeApiCall_loop_never_blocked :
  (forall n status message,
     axios_get w n = HttpFail status message -> is_blocked status = false) ->
  forall remaining attempt st,
    exists r evs,
      fst (safeApiCall_loop w url retries remaining attempt st) = Returns r /\
      trace (snd (safeApiCall_loop w url retries remaining attempt st))
      = trace st ++ evs /\
      bypasses evs = 0 /\
      closes evs = 0 /\
      browser_sessions (snd (safeApiCall_loop w url retries remaining attempt st))
      = browser_sessions st.
Proof.
  intros Hunb. induction remaining as [|remaining IH]; intros attempt st.
  - exists None, []. simpl. rewrite app_nil_r. now repeat split.
  - destruct (axios_get w (http_calls st)) as [data | status message] eqn:Eget.
    + rewrite (safeApiCall_loop_ok w url retries remaining attempt st data Eget).
      exists data. eexists [_]. state_fields. now repeat split.
    + rewrite (safeApiCall_loop_unblocked w url retries remaining attempt st
                 status message Eget (Hunb _ _ _ Eget)).
      cbv zeta. destruct (attempt =? retries)%nat.
      * exists None. eexists [_; _; _]. state_fields. rewrite <- ?app_assoc.
        now repeat split.
      * match goal with
        | |- context [safeApiCall_loop w url retries remaining _ ?s] =>
            destruct (IH (S attempt) s) as (r & evs & Hr & Htr & Hb & Hc & Hs)
        end.
        state_fields. exists r. eexists. split; [exact Hr |]. split.
        -- rewrite Htr, <- ?app_assoc. cbn [app]. reflexivity.
        -- unfold bypasses, closes in *. cbn [filter is_session].
           now repeat split.
Qed.

End FetchTeardown.

Section FetchExtras.

Import NexusHunter.

(** X10.  A fetch leaves the hunter's proxy configuration, the three tables
    and the clock as they were, and moves the counters of requests and of
    browser sessions by the requests and sessions it made; it never talks
    to the store.  Every request and every session of it is for the URL of
    the fetch and routed by the configuration the hunter had when the fetch
    began: with no host, without a proxy; with a host, a request is given
    the whole configuration, credentials included, and a browser session
    the address http://host:port alone.  So with the proxy 10.0.0.5:3128 of
    user scout configured and every request refused with 403, a fetch of
    one attempt sends its request with host, port, user and password, and
    starts its browser with the server http://10.0.0.5:3128. *)
Theorem safeApiCall_touches_only_the_network (w : World) (url : string)
    (retries : nat) (st : State) :
  (exists evs,
     frame st (snd (safeApiCall w url retries st)) evs /\
     Forall (fetch_event w url (proxyConfig st)) evs) /\
  interactions
    (trace (snd (safeApiCall Deployments.proxied ebay_url 1
                   (Scenarios.start Deployments.proxied))))
  = [ EvAxiosGet ebay_url
        (Some (ProxyConfig.mk "10.0.0.5" (Some 3128%Z)
                 (Some ("scout", "s3cret"))))
        Scenarios.forbidden;
      EvBrowserSession ebay_url (Some "http://10.0.0.5:3128")
        Scenarios.challenge_solved ].
Proof.
  split; [apply safeApiCall_loop_frame | vm_compute; reflexivity].
Qed.

(** X11.  A fetch closes every browser it launched, once, however the page
    fared; a browser whose launch failed is not closed.  The fetch throws
    only what closing a browser threw: no failed request, failed launch or
    failed page makes it throw. *)
Theorem safeApiCall_closes_every_browser (w : World) (url : string)
    (retries : nat) (st : State) :
  exists evs,
    trace (snd (safeApiCall w url retries st)) = trace st ++ evs /\
    closes evs = launched evs /\
    (forall e,
       fst (safeApiCall w url retries st) = Throws e ->
       exists n, close_error (chromium w n) = Some e) /\
    ((forall n, close_error (chromium w n) = None) ->
     exists r, fst (safeApiCall w url retries st) = Returns r).
Proof.
  destruct (safeApiCall_loop_teardown w url retries retries 1 st)
    as (evs & Htr & Hcl & Hth).
  exists evs. repeat split; trivial.
  intros Hnone. unfold safeApiCall in *.
  destruct (fst (safeApiCall_loop w url retries retries 1 st)) as [r | e].
  - now exists r.
  - destruct (Hth e eq_refl) as (n & Hn). rewrite Hnone in Hn. discriminate.
Qed.

(** X12.  Where no request is answered 403 or 503, a fetch returns, data or
    null, without ever starting the browser. *)
Theorem safeApiCall_without_blocks (w : World) (url : string) (retries : nat)
    (st : State) :
  (forall n status message,
     axios_get w n = HttpFail status message -> is_blocked status = false) ->
  exists r evs,
    fst (safeApiCall w url retries st) = Returns r /\
    trace (snd (safeApiCall w url retries st)) = trace st ++ evs /\
    bypasses evs = 0 /\
    closes evs = 0 /\
    browser_sessions (snd (safeApiCall w url retries st)) = browser_sessions st.
Proof.
  intros Hunb. now apply safeApiCall_loop_never_blocked.
Qed.

Lemma safeApiCall_without_blocks_witness :
  (forall n status message,
     axios_get Scenarios.unreachable n = HttpFail status message ->
     is_blocked status = false) /\
  exists r evs,
    fst (safeApiCall Scenarios.unreachable ebay_url 3
           (Scenarios.start Scenarios.unreachable)) = Returns r /\
    trace (snd (safeApiCall Scenarios.unreachable ebay_url 3
                  (Scenarios.start Scenarios.unreachable)))
    = trace (Scenarios.start Scenarios.unreachable) ++ evs /\
    bypasses evs = 0 /\
    closes evs = 0 /\
    browser_sessions (snd (safeApiCall Scenarios.unreachable ebay_url 3
                             (Scenarios.start Scenarios.unreachable)))
    = browser_sessions (Scenarios.start Scenarios.unreachable).
Proof.
  assert (H : forall n status message,
            axios_get Scenarios.unreachable n = HttpFail status message ->
            is_blocked status = false).
  { intros n status message E. injection E as <- _. reflexivity. }
  split; [exact H |].
  exact (safeApiCall_without_blocks Scenarios.unreachable ebay_url 3
           (Scenarios.start Scenarios.unreachable) H).
Defined.

(** X13.  For any number of attempts: when every request fails with a status
    other than 403 and 503, the fetch makes all its attempts, starts no
    browser, and returns null.  After each attempt but the last it sets a
    timer, and waits 1000 ms x 2^(attempt-1) after each of the attempts 1
    to 22; from attempt 23 on the doubled delay is above the 2^31 - 1 ms a
    timer can hold, and the fetch waits 1 ms.  In all it has waited
    1000 ms x (2^(attempts-1) - 1) with up to 23 attempts, and
    1000 ms x (2^22 - 1) and 1 ms for every attempt beyond 23 with more. *)
Theorem safeApiCall_backoff_schedule (w : World) (url : string)
    (retries : nat) (st : State) :
  1 <= retries ->
  (forall j, j < retries -> fails_unblocked w (http_calls st + j)) ->
  exists evs,
    fst (safeApiCall w url retries st) = Returns None /\
    frame st (snd (safeApiCall w url retries st)) evs /\
    attempts evs = retries /\
    bypasses evs = 0 /\
    waited evs = map wait_after (seq 1 (retries - 1)) /\
    total (waited evs) = waited_in_all (retries - 1).
Proof.
  intros Hpos Hfail. unfold safeApiCall.
  destruct (safeApiCall_loop_failed_rounds w url retries (retries - 1)
              retries 1 st)
    as (st_k & evs & Hrun & Hfr & Hsteps & Hsleeps & Hatt & Hbyp);
    [intros j Hj; apply Hfail; lia | lia | lia |].
  rewrite Hrun.
  replace (retries - (retries - 1)) with 1 by lia.
  replace (1 + (retries - 1)) with retries by lia.
  destruct (Hfail (retries - 1) ltac:(lia)) as (status & message & Hget & Hb).
  assert (Hcalls : http_calls st_k = http_calls st + (retries - 1)).
  { destruct Hfr as (_ & _ & _ & _ & _ & _ & Hc & _). now rewrite Hc, Hatt. }
  rewrite <- Hcalls in Hget.
  rewrite (safeApiCall_loop_unblocked w url retries 0 retries st_k
             status message Hget Hb).
  cbv zeta. rewrite Nat.eqb_refl. cbn [fst snd].
  eexists. split; [reflexivity |]. split.
  - eapply frame_trans; [exact Hfr |].
    instantiate
      (1 := [EvAxiosGet url (proxy_in_use (proxyConfig st_k))
               (HttpFail status message);
             EvConsole (WarnApiCallFailed retries retries message);
             EvConsole (ErrorExhausted url)]).
    frame_by_fields.
  - unfold waited, sleeps, attempts, bypasses in *.
    rewrite !flat_map_app, !filter_app, !length_app.
    cbn [flat_map app filter is_request is_session length].
    rewrite Hsleeps, Hatt, Hbyp, app_nil_r.
    rewrite waited_backoff, total_wait_after by lia.
    repeat split; lia.
Qed.

Lemma safeApiCall_backoff_schedule_witness :
  1 <= 25 /\
  (forall j, j < 25 ->
     fails_unblocked Scenarios.unreachable
       (http_calls (Scenarios.start Scenarios.unreachable) + j)) /\
  exists evs,
    fst (safeApiCall Scenarios.unreachable ebay_url 25
           (Scenarios.start Scenarios.unreachable)) = Returns None /\
    trace (snd (safeApiCall Scenarios.unreachable ebay_url 25
                  (Scenarios.start Scenarios.unreachable))) = evs /\
    waited evs
    = [1000; 2000; 4000; 8000; 16000; 32000; 64000; 128000; 256000; 512000;
       1024000; 2048000; 4096000; 8192000; 16384000; 32768000; 65536000;
       131072000; 262144000; 524288000; 1048576000; 2097152000; 1; 1]%Z /\
    total (waited evs) = 4194303002%Z.
Proof.
  assert (H : forall j, j < 25 ->
            fails_unblocked Scenarios.unreachable
              (http_calls (Scenarios.start Scenarios.unreachable) + j)).
  { intros j _. exists None, "timeout of 10000ms exceeded". now split. }
  split; [lia |]. split; [exact H |].
  destruct (safeApiCall_backoff_schedule Scenarios.unreachable ebay_url 25
              (Scenarios.start Scenarios.unreachable) ltac:(lia) H)
    as (evs & Hr & (Htr & _) & _ & _ & Hs & Ht).
  exists evs. split; [exact Hr |]. split; [exact Htr |].
  split; [exact Hs | exact Ht].
Defined.

(** X14.  When the first [k] requests fail with a status other than 403 and
    503 and the next one is answered, with attempts to spare, the fetch
    returns that answer after [k + 1] requests and without a browser.  It
    has waited 1000 ms x 2^(attempt-1) after each of the failed attempts 1
    to 22, and 1 ms after each failed attempt from 23 on, whose doubled
    delay is above the 2^31 - 1 ms a timer can hold: 1000 ms x (2^k - 1)
    in all with up to 22 failures, and 1000 ms x (2^22 - 1) and 1 ms for
    every failure beyond 22 with more. *)
Theorem safeApiCall_recovers (w : World) (url : string) (retries k : nat)
    (st : State) (data : option Payload.t) :
  k < retries ->
  (forall j, j < k -> fails_unblocked w (http_calls st + j)) ->
  axios_get w (http_calls st + k) = HttpOk data ->
  exists evs,
    fst (safeApiCall w url retries st) = Returns data /\
    frame st (snd (safeApiCall w url retries st)) evs /\
    attempts evs = S k /\
    bypasses evs = 0 /\
    waited evs = map wait_after (seq 1 k) /\
    total (waited evs) = waited_in_all k.
Proof.
  intros Hlt Hfail Hget. unfold safeApiCall.
  destruct (safeApiCall_loop_failed_rounds w url retries k retries 1 st)
    as (st_k & evs & Hrun & Hfr & Hsteps & Hsleeps & Hatt & Hbyp);
    [exact Hfail | lia | lia |].
  rewrite Hrun.
  assert (Hcalls : http_calls st_k = http_calls st + k).
  { destruct Hfr as (_ & _ & _ & _ & _ & _ & Hc & _). now rewrite Hc, Hatt. }
  rewrite <- Hcalls in Hget.
  destruct (retries - k) as [|remaining] eqn:Erem; [lia |].
  rewrite (safeApiCall_loop_ok w url retries remaining (1 + k) st_k data Hget).
  cbn [fst snd].
  eexists. split; [reflexivity |]. split.
  - eapply frame_trans; [exact Hfr |].
    instantiate
      (1 := [EvAxiosGet url (proxy_in_use (proxyConfig st_k)) (HttpOk data)]).
    frame_by_fields.
  - unfold waited, sleeps, attempts, bypasses in *.
    rewrite !flat_map_app, !filter_app, !length_app.
    cbn [flat_map app filter is_request is_session length].
    rewrite Hsleeps, Hatt, Hbyp, app_nil_r.
    rewrite waited_backoff, total_wait_after by lia.
    repeat split; lia.
Qed.

Lemma safeApiCall_recovers_witness :
  24 < 30 /\
  (forall j, j < 24 ->
     fails_unblocked (flaky 24)
       (http_calls (Scenarios.start (flaky 24)) + j)) /\
  axios_get (flaky 24) (http_calls (Scenarios.start (flaky 24)) + 24)
  = SweepScenarios.one_listing /\
  exists evs,
    fst (safeApiCall (flaky 24) ebay_url 30 (Scenarios.start (flaky 24)))
    = Returns (Some (Payload.mk (Some [SweepScenarios.gucci_bag]) None)) /\
    trace (snd (safeApiCall (flaky 24) ebay_url 30
                  (Scenarios.start (flaky 24)))) = evs /\
    attempts evs = 25 /\
    waited evs
    = [1000; 2000; 4000; 8000; 16000; 32000; 64000; 128000; 256000; 512000;
       1024000; 2048000; 4096000; 8192000; 16384000; 32768000; 65536000;
       131072000; 262144000; 524288000; 1048576000; 2097152000; 1; 1]%Z /\
    total (waited evs) = 4194303002%Z.
Proof.
  assert (H : forall j, j < 24 ->
            fails_unblocked (flaky 24)
              (http_calls (Scenarios.start (flaky 24)) + j)).
  { intros j Hj. exists None, "timeout of 10000ms exceeded".
    split; [| reflexivity].
    unfold flaky, Scenarios.world_of, Scenarios.start, initial_state.
    cbn [axios_get http_calls Nat.add].
    destruct (Nat.ltb_spec j 24); [reflexivity | lia]. }
  split; [lia |]. split; [exact H |]. split; [reflexivity |].
  destruct (safeApiCall_recovers (flaky 24) ebay_url 30 24
              (Scenarios.start (flaky 24)) _ ltac:(lia) H eq_refl)
    as (evs & Hr & (Htr & _) & Ha & _ & Hs & Ht).
  exists evs. split; [exact Hr |]. split; [exact Htr |].
  split; [exact Ha |]. split; [exact Hs | exact Ht].
Defined.

End FetchExtras.

Section SweepLedger.

Import NexusHunter.

Variable w : World.

Lemma iter_tick_clock_config (n : nat) (st : State) :
  proxyConfig (Nat.iter n tick_clock st) = proxyConfig st.
Proof. induction n as [|n IH]; simpl; trivial. Qed.

Lemma routed_config (st : State) :
  proxyConfig (routed w (prologue w st)) = route w st /\
  nexus_proxies (routed w (prologue w st)) = nexus_proxies st /\
  nexus_logs (routed w (prologue w st)) = nexus_logs st.
Proof.
  unfold routed, prologue, route. state_fields.
  destruct (if select_error w then None else optimal_row _);
    state_fields; now repeat split.
Qed.

Lemma quiet_routed_through (url : string) (q : ProxyConfig.t)
    (l : list Event) :
  interactions l = [] -> Forall (routed_through url q) l.
Proof.
  unfold interactions. induction l as [|e l IH]; intros H; constructor.
  - cbn [filter] in H. destruct e; simpl in *; trivial; discriminate.
  - apply IH. cbn [filter] in H.
    destruct (is_request e || is_session e || is_sleep e);
      [discriminate | exact H].
Qed.

Lemma fetch_event_routed_through (url : string) (q : ProxyConfig.t)
    (e : Event) :
  fetch_event w url q e -> routed_through url q e.
Proof. now intros [H _]. Qed.

(** What the sweep does from the response on: what it returns is what it
    has added to [nexus_signals]. *)
Lemma conclude_ledger (r : Outcome (option Payload.t)) (st : State) :
  exists signals,
    fst (conclude w r st) = Returns signals /\
    Forall well_formed_signal signals /\
    proxyConfig (snd (conclude w r st)) = proxyConfig st /\
    nexus_proxies (snd (conclude w r st)) = nexus_proxies st /\
    nexus_signals (snd (conclude w r st)) = nexus_signals st ++ signals /\
    (nexus_logs (snd (conclude w r st)) = nexus_logs st \/
     signals = [] /\
     exists row,
       LogRecord.level row = LogRecord.ERROR /\
       nexus_logs (snd (conclude w r st)) = nexus_logs st ++ [row]) /\
    (signals <> [] ->
     insert_signals_error w = None /\
     nexus_logs (snd (conclude w r st)) = nexus_logs st).
Proof.
  assert (Hhandler : forall e s,
            exists signals,
              fst (sweep_handler w e s) = Returns signals /\
              Forall well_formed_signal signals /\
              proxyConfig (snd (sweep_handler w e s)) = proxyConfig s /\
              nexus_proxies (snd (sweep_handler w e s)) = nexus_proxies s /\
              nexus_signals (snd (sweep_handler w e s))
              = nexus_signals s ++ signals /\
              (nexus_logs (snd (sweep_handler w e s)) = nexus_logs s \/
               signals = [] /\
               exists row,
                 LogRecord.level row = LogRecord.ERROR /\
                 nexus_logs (snd (sweep_handler w e s)) = nexus_logs s ++ [row]) /\
              (signals <> [] ->
               insert_signals_error w = None /\
               nexus_logs (snd (sweep_handler w e s)) = nexus_logs s)).
  { intros e s. rewrite sweep_handler_run. cbv zeta. exists [].
    destruct (insert_log_error w); state_fields; rewrite app_nil_r;
      repeat (split; [solve [trivial] |]);
      (split; [| intros Hne; now contradiction Hne]).
    - now left.
    - right. split; [reflexivity |]. eexists. split; [| reflexivity].
      reflexivity. }
  destruct r as [ebayResponse | e]; unfold conclude; [| apply Hhandler].
  unfold try_catch. rewrite after_fetch_run. cbv zeta.
  set (signals := stamped w (clock_reads st) (listed ebayResponse)).
  pose proof (stamped_well_formed w (listed ebayResponse) (clock_reads st))
    as Hwf. fold signals in Hwf.
  destruct (iter_tick_clock_fields (length signals) st)
    as (_ & Hsig & Hlogs & Hprox & _).
  pose proof (iter_tick_clock_config (length signals) st) as Hcfg.
  destruct (0 <? length signals)%nat eqn:Elen.
  - destruct (insert_signals_error w) as [message|] eqn:Eins.
    + match goal with
      | |- context [sweep_handler w ?e ?s] =>
          destruct (Hhandler e s) as (sg & H1 & H2 & H3 & H4 & H5 & H6 & H7)
      end.
      state_fields. exists sg.
      rewrite H3, H4, H5, Hcfg, Hprox, Hsig.
      repeat (split; [solve [trivial] |]). split.
      * destruct H6 as [H6 | (-> & row & Hrow & H6)]; rewrite H6, Hlogs;
          [now left | right; eauto].
      * intros Hne. destruct (H7 Hne) as [H _]. discriminate.
    + exists signals. state_fields. rewrite Hcfg, Hprox, Hsig, Hlogs.
      repeat (split; [solve [trivial] |]). split; [now left | now split].
  - exists signals. cbn [fst snd]. rewrite Hcfg, Hprox, Hsig, Hlogs.
    apply Nat.ltb_ge in Elen.
    assert (Hnil : signals = [])
      by (destruct signals; [trivial | simpl in Elen; lia]).
    rewrite Hnil. rewrite app_nil_r.
    repeat (split; [solve [trivial] |]).
    split; [now left | intros Hne; now contradiction Hne].
Qed.

(** The books of a sweep: what it returns, and what it leaves in the
    tables. *)
Lemma runSweep_books (st : State) :
  client_obtained w ->
  exists signals,
    fst (runSweep w st) = Returns signals /\
    Forall well_formed_signal signals /\
    nexus_signals (snd (runSweep w st)) = nexus_signals st ++ signals /\
    nexus_proxies (snd (runSweep w st)) = nexus_proxies st /\
    (nexus_logs (snd (runSweep w st)) = nexus_logs st \/
     signals = [] /\
     exists row,
       LogRecord.level row = LogRecord.ERROR /\
       nexus_logs (snd (runSweep w st)) = nexus_logs st ++ [row]) /\
    (signals <> [] ->
     insert_signals_error w = None /\
     nexus_logs (snd (runSweep w st)) = nexus_logs st).
Proof.
  intros Hc. rewrite (runSweep_run w st Hc).
  destruct (safeApiCall_loop_frame w ebay_url 3 3 1 (routed w (prologue w st)))
    as (fevs & Hfr & _).
  fold (safeApiCall w ebay_url 3 (routed w (prologue w st))) in Hfr.
  destruct (safeApiCall w ebay_url 3 (routed w (prologue w st))) as [r st3].
  cbn [snd] in Hfr.
  destruct Hfr as (_ & _ & Hprox & Hsig & Hlogs & _).
  destruct (routed_counters w st) as (_ & _ & Hsig0).
  destruct (routed_config st) as (_ & Hprox0 & Hlogs0).
  destruct (conclude_ledger r st3)
    as (signals & H1 & H2 & _ & H4 & H5 & H6 & H7).
  exists signals.
  rewrite H4, H5, Hprox, Hsig, Hsig0, Hprox0.
  rewrite Hlogs, Hlogs0 in H6, H7.
  repeat (split; [solve [trivial] |]). exact H7.
Qed.

End SweepLedger.

Section SweepExtras.

Import NexusHunter.

(** X15.  With the store credentials present and the store client built
    from them, what a sweep returns is what it has added to
    [nexus_signals]: the table is the old one followed by the returned
    signals, each of them a PENDING eBay signal of a target brand contained
    in its title, valued by the scale, with the margin that admitted it.  A
    sweep that returns signals had its insert accepted and logs nothing; one
    whose insert is refused returns the empty list.  The sweep adds at most
    one row, of level ERROR, to [nexus_logs], and never changes
    [nexus_proxies].  When [createClient] refuses the credentials, the sweep
    throws that error and leaves the three tables as they were. *)
Theorem runSweep_ledger (w : World) (st : State) :
  credentials_present w ->
  (createClient_error w = None ->
   exists signals,
     fst (runSweep w st) = Returns signals /\
     Forall well_formed_signal signals /\
     nexus_signals (snd (runSweep w st)) = nexus_signals st ++ signals /\
     nexus_proxies (snd (runSweep w st)) = nexus_proxies st /\
     (nexus_logs (snd (runSweep w st)) = nexus_logs st \/
      signals = [] /\
      exists row,
        LogRecord.level row = LogRecord.ERROR /\
        nexus_logs (snd (runSweep w st)) = nexus_logs st ++ [row]) /\
     (signals <> [] ->
      insert_signals_error w = None /\
      nexus_logs (snd (runSweep w st)) = nexus_logs st)) /\
  (forall message,
     createClient_error w = Some message ->
     fst (runSweep w st) = Throws (ErrorObj message) /\
     nexus_signals (snd (runSweep w st)) = nexus_signals st /\
     nexus_proxies (snd (runSweep w st)) = nexus_proxies st /\
     nexus_logs (snd (runSweep w st)) = nexus_logs st).
Proof.
  intros Hc. split.
  - intros Hclient.
    destruct (runSweep_books w st (conj Hc Hclient)) as (signals & Hbooks).
    exists signals. exact Hbooks.
  - intros message Hclient.
    rewrite (runSweep_client_refused w st message Hc Hclient).
    now repeat split.
Qed.

Lemma runSweep_ledger_witness :
  credentials_present SweepScenarios.healthy /\
  exists signals,
    fst (runSweep SweepScenarios.healthy
           (Scenarios.start SweepScenarios.healthy)) = Returns signals /\
    nexus_signals (snd (runSweep SweepScenarios.healthy
                          (Scenarios.start SweepScenarios.healthy)))
    = nexus_signals (Scenarios.start SweepScenarios.healthy) ++ signals.
Proof.
  assert (H : credentials_present SweepScenarios.healthy)
    by (split; discriminate).
  split; [exact H |].
  destruct (runSweep_ledger SweepScenarios.healthy
              (Scenarios.start SweepScenarios.healthy) H)
    as [Hbuilt _].
  destruct (Hbuilt eq_refl) as (signals & Hr & _ & Hs & _).
  exists signals. split; [exact Hr | exact Hs].
Defined.

(** X16.  Once the store client has been obtained, every request and every
    browser session of a sweep is for the eBay search URL and routed by one
    configuration: the address of the ACTIVE row of lowest latency, without
    credentials, when the query finds one, and otherwise what the hunter
    was configured with before, the environment's proxy on a first sweep.
    With no host in it they go without a proxy; with a host, a request is
    given the whole configuration and a browser session the address
    http://host:port alone.  The hunter keeps that configuration after the
    sweep.  So with the proxy 10.0.0.5:3128 of user scout in the
    environment and every request refused with 403: over a fleet whose
    ACTIVE rows answer in 50 ms and 20 ms, the sweep sends its request
    through 10.0.0.2:8080, the faster one, without credentials, and starts
    its browser with the server http://10.0.0.2:8080; over an empty fleet
    the request carries the environment's proxy with user and password and
    the browser gets http://10.0.0.5:3128. *)
Theorem runSweep_single_route (w : World) (st : State) :
  client_obtained w ->
  (exists evs,
     trace (snd (runSweep w st)) = trace st ++ evs /\
     Forall (routed_through ebay_url (route w st)) evs /\
     proxyConfig (snd (runSweep w st)) = route w st) /\
  interactions
    (trace (snd (runSweep Deployments.proxied
                   (initial_state Deployments.proxied Deployments.fleet))))
  = [ EvAxiosGet ebay_url
        (Some (ProxyConfig.mk "10.0.0.2" (Some 8080%Z) None))
        Scenarios.forbidden;
      EvBrowserSession ebay_url (Some "http://10.0.0.2:8080")
        Scenarios.challenge_solved ] /\
  interactions
    (trace (snd (runSweep Deployments.proxied
                   (Scenarios.start Deployments.proxied))))
  = [ EvAxiosGet ebay_url
        (Some (ProxyConfig.mk "10.0.0.5" (Some 3128%Z)
                 (Some ("scout", "s3cret"))))
        Scenarios.forbidden;
      EvBrowserSession ebay_url (Some "http://10.0.0.5:3128")
        Scenarios.challenge_solved ].
Proof.
  intros Hc. split; [| split; vm_compute; reflexivity].
  rewrite (runSweep_run w st Hc).
  destruct (routed_trace w st) as (pre & Hpre & Hquiet).
  destruct (routed_config w st) as (Hroute & _).
  destruct (safeApiCall_loop_frame w ebay_url 3 3 1 (routed w (prologue w st)))
    as (fevs & Hfr & Hall).
  fold (safeApiCall w ebay_url 3 (routed w (prologue w st))) in Hfr.
  destruct (safeApiCall w ebay_url 3 (routed w (prologue w st))) as [r st3].
  cbn [snd] in Hfr. destruct Hfr as (Htr & Hcfg & _).
  destruct (conclude_trace w r st3) as (post & Hpost & Hquiet').
  destruct (conclude_ledger w r st3) as (signals & _ & _ & Hcfg' & _).
  exists (pre ++ fevs ++ post). split; [| split].
  - now rewrite Hpost, Htr, Hpre, <- !app_assoc.
  - rewrite Hroute in Hall.
    apply Forall_app. split; [now apply quiet_routed_through |].
    apply Forall_app. split; [| now apply quiet_routed_through].
    eapply Forall_impl; [| exact Hall].
    intros e. apply fetch_event_routed_through.
  - now rewrite Hcfg', Hcfg.
Qed.

Lemma runSweep_single_route_witness :
  client_obtained Deployments.proxied /\
  proxyConfig (snd (runSweep Deployments.proxied
                      (initial_state Deployments.proxied Deployments.fleet)))
  = ProxyConfig.mk "10.0.0.2" (Some 8080%Z) None.
Proof.
  assert (H : client_obtained Deployments.proxied)
    by (split; [split; discriminate | reflexivity]).
  split; [exact H |].
  destruct (runSweep_single_route Deployments.proxied
              (initial_state Deployments.proxied Deployments.fleet) H)
    as ((evs & _ & _ & Hcfg) & _).
  exact Hcfg.
Defined.

End SweepExtras.

(* ===================================================================== *)
(** ** The routes *)
(* ===================================================================== *)

Section RouteFacts.

Import Routes.

Lemma credentials_missing_false (w : World) :
  credentials_missing w = false -> credentials_present w.
Proof.
  unfold credentials_missing, credentials_present. intros H.
  apply orb_false_elim in H. destruct H as [H1 H2].
  apply String.eqb_neq in H1, H2. now split.
Qed.

Lemma credentials_missing_true (w : World) :
  credentials_missing w = true -> ~ credentials_present w.
Proof.
  unfold credentials_missing, credentials_present. intros H [H1 H2].
  apply orb_true_elim in H. destruct H as [H | H];
    apply String.eqb_eq in H; contradiction.
Qed.

Lemma createClient_built (w : World) (st : State) :
  createClient_error w = None ->
  NexusHunter.createClient w st = (Returns tt, st).
Proof. intros H. unfold NexusHunter.createClient. now rewrite H. Qed.

Lemma createClient_refused (w : World) (message : string) (st : State) :
  createClient_error w = Some message ->
  NexusHunter.createClient w st = (Throws (ErrorObj message), st).
Proof. intros H. unfold NexusHunter.createClient. now rewrite H. Qed.

(** The insert of a log row, as a state. *)
Lemma insert_log_run (w : World) (level : LogRecord.Level) (message : string)
    (st : State) :
  insert_log w level message st
  = (Returns tt,
     let row := LogRecord.mk level message (now w (clock_reads st)) in
     let logged := log_event (EvInsertLog row) (tick_clock st) in
     if insert_log_error w then logged
     else with_logs (nexus_logs st ++ [row]) logged).
Proof.
  unfold insert_log, NexusHunter.toISOString_now. run_effects.
  destruct (insert_log_error w); reflexivity.
Qed.

Lemma insert_log_returns (w : World) (level : LogRecord.Level)
    (message : string) (st : State) :
  insert_log w level message st
  = (Returns tt, snd (insert_log w level message st)).
Proof. now rewrite insert_log_run. Qed.

Lemma insert_log_fields (w : World) (level : LogRecord.Level)
    (message : string) (st : State) :
  let st' := snd (insert_log w level message st) in
  proxyConfig st' = proxyConfig st /\
  nexus_proxies st' = nexus_proxies st /\
  nexus_signals st' = nexus_signals st /\
  http_calls st' = http_calls st /\
  browser_sessions st' = browser_sessions st /\
  trace st'
  = trace st
    ++ [EvInsertLog (LogRecord.mk level message (now w (clock_reads st)))] /\
  nexus_logs st'
  = nexus_logs st
    ++ (if insert_log_error w then []
        else [LogRecord.mk level message (now w (clock_reads st))]).
Proof.
  rewrite insert_log_run. cbv zeta.
  destruct (insert_log_error w); state_fields; rewrite ?app_nil_r;
    now repeat split.
Qed.

End RouteFacts.

Section SweepRoute.

Import Routes.

Lemma sweep_POST_refused_run (rw : RouteWorld) (request : Request)
    (st : State) (message : string) :
  credentials_missing (engine rw) = false ->
  createClient_error (engine rw) = Some message ->
  sweep_POST rw request st = (Throws (ErrorObj message), st).
Proof.
  intros Hm Hclient. unfold sweep_POST. cbv zeta. rewrite Hm.
  unfold bind. now rewrite (createClient_refused _ message).
Qed.

Lemma sweep_POST_unauthorized_run (rw : RouteWorld) (request : Request)
    (st : State) :
  credentials_missing (engine rw) = false ->
  createClient_error (engine rw) = None ->
  authorized rw request = false ->
  sweep_POST rw request st
  = (Returns (json (ErrorBody "UNAUTHORIZED_ACCESS" None) 401),
     snd (insert_log (engine rw) LogRecord.WARN
            "Unauthorized sweep attempt blocked." st)).
Proof.
  intros Hm Hclient Hauth. unfold sweep_POST. cbv zeta. rewrite Hm, Hauth.
  cbn [negb]. unfold try_catch, bind. rewrite createClient_built by exact Hclient.
  rewrite insert_log_run. reflexivity.
Qed.

Lemma sweep_POST_authorized_run (rw : RouteWorld) (request : Request)
    (st : State) :
  credentials_missing (engine rw) = false ->
  createClient_error (engine rw) = None ->
  authorized rw request = true ->
  let st1 :=
    snd (insert_log (engine rw) LogRecord.INFO
           "Manual sweep initiated via Control Center."
           (with_proxyConfig (proxyConfig (initial_state (engine rw) [])) st)) in
  exists signals,
    fst (NexusHunter.runSweep (engine rw) st1) = Returns signals /\
    sweep_POST rw request st
    = (Returns
         (json
            (SweepComplete (length signals) (date_now rw 1 - date_now rw 0)
               signals)
            200),
       snd (NexusHunter.runSweep (engine rw) st1)).
Proof.
  intros Hm Hclient Hauth st1.
  destruct (runSweep_books (engine rw) st1
              (conj (credentials_missing_false _ Hm) Hclient))
    as (signals & Hr & _).
  exists signals. split; [exact Hr |].
  unfold sweep_POST. cbv zeta. rewrite Hm, Hauth. cbn [negb].
  unfold try_catch, new_NexusHunter, set_proxyConfig, bind.
  rewrite createClient_built by exact Hclient.
  rewrite insert_log_returns. cbn beta iota. fold st1.
  destruct (NexusHunter.runSweep (engine rw) st1) as [r st2].
  cbn [fst] in Hr. subst r. reflexivity.
Qed.

(** X17.  What the sweep route does with a request, in four cases that
    leave out none.  Without the store credentials it answers 500 and does
    nothing.  With credentials that [createClient] refuses, as it does a
    URL that is not an http or https one, the handler throws that error
    before it looks at the key: it gives no answer of its own, logs nothing
    and changes nothing.  Once the client is built, a request without the
    expected bearer key is answered 401 UNAUTHORIZED_ACCESS: the attempt is
    logged with level WARN, no sweep runs, and no table but the log
    changes; and a request with the key is answered 200 SWEEP_COMPLETE,
    also when the sweep failed inside: [data] is exactly what the sweep
    added to [nexus_signals], [signalsFound] its length and
    [executionTimeMs] the time between the two readings of the clock; the
    log gains an INFO row and, only with an empty [data], the ERROR row of a
    failed sweep.  So no request is answered ENGINE_FAILURE, and no row of
    level CRITICAL is written.  With the store URL not-a-url, the request
    of an operator with the right key makes the handler throw
    Invalid supabaseUrl. *)
Theorem sweep_POST_answers (rw : RouteWorld) (request : Request) (st : State) :
  let w := engine rw in
  let out := sweep_POST rw request st in
  (credentials_missing w = true ->
   out = (Returns
            (json
               (ErrorBody
                  "CRITICAL: Database connection severed. Check env vars." None)
               500),
          st)) /\
  (credentials_missing w = false ->
   forall message,
     createClient_error w = Some message ->
     out = (Throws (ErrorObj message), st)) /\
  sweep_POST (RouteScenarios.control_center Deployments.malformed)
    RouteScenarios.operator (Scenarios.start Deployments.malformed)
  = (Throws
       (ErrorObj "Invalid supabaseUrl: Must be a valid HTTP or HTTPS URL."),
     Scenarios.start Deployments.malformed) /\
  (credentials_missing w = false ->
   createClient_error w = None ->
   authorized rw request = false ->
   fst out = Returns (json (ErrorBody "UNAUTHORIZED_ACCESS" None) 401) /\
   trace (snd out)
   = trace st
     ++ [EvInsertLog
           (LogRecord.mk LogRecord.WARN "Unauthorized sweep attempt blocked."
              (now w (clock_reads st)))] /\
   nexus_signals (snd out) = nexus_signals st /\
   nexus_proxies (snd out) = nexus_proxies st /\
   proxyConfig (snd out) = proxyConfig st) /\
  (credentials_missing w = false ->
   createClient_error w = None ->
   authorized rw request = true ->
   exists signals rows,
     fst out
     = Returns
         (json
            (SweepComplete (length signals) (date_now rw 1 - date_now rw 0)
               signals)
            200) /\
     Forall well_formed_signal signals /\
     nexus_signals (snd out) = nexus_signals st ++ signals /\
     nexus_proxies (snd out) = nexus_proxies st /\
     nexus_logs (snd out) = nexus_logs st ++ rows /\
     Forall
       (fun row =>
          LogRecord.level row = LogRecord.INFO \/
          LogRecord.level row = LogRecord.ERROR /\ signals = [])
       rows).
Proof.
  cbv zeta. split; [| split; [| split; [| split]]].
  - intros Hm. unfold sweep_POST. cbv zeta. now rewrite Hm.
  - intros Hm message Hclient. now apply sweep_POST_refused_run.
  - vm_compute. reflexivity.
  - intros Hm Hclient Hauth.
    rewrite (sweep_POST_unauthorized_run rw request st Hm Hclient Hauth).
    cbn [fst].
    destruct (insert_log_fields (engine rw) LogRecord.WARN
                "Unauthorized sweep attempt blocked." st)
      as (H1 & H2 & H3 & _ & _ & H6 & _).
    cbn [snd]. now repeat split.
  - intros Hm Hclient Hauth.
    destruct (sweep_POST_authorized_run rw request st Hm Hclient Hauth)
      as (signals & Hr & Hrun).
    rewrite Hrun. cbn [fst snd].
    match type of Hr with
    | fst (NexusHunter.runSweep _ ?s) = _ => set (st1 := s) in *
    end.
    destruct (insert_log_fields (engine rw) LogRecord.INFO
                "Manual sweep initiated via Control Center."
                (with_proxyConfig (proxyConfig (initial_state (engine rw) []))
                   st))
      as (_ & Hp1 & Hs1 & _ & _ & _ & Hl1).
    fold st1 in Hp1, Hs1, Hl1. state_fields.
    destruct (runSweep_books (engine rw) st1
                (conj (credentials_missing_false _ Hm) Hclient))
      as (signals' & Hr' & Hwf & Hsig & Hprox & Hlogs & _).
    rewrite Hr in Hr'. injection Hr' as <-.
    rewrite Hsig, Hprox, Hs1, Hp1.
    exists signals.
    destruct Hlogs as [Hlogs | (Hnil & row & Hrow & Hlogs)];
      rewrite Hlogs, Hl1, <- ?app_assoc;
      eexists; repeat (split; [reflexivity || assumption |]);
      destruct (insert_log_error (engine rw));
      repeat (apply Forall_cons || apply Forall_nil);
      first [now left | now right].
Qed.

End SweepRoute.

Section SyncRoute.

Import Routes ProxyCommander.

Lemma slice_from_0 {A} (n : nat) (l : list A) : slice 0 n l = firstn n l.
Proof. unfold slice. now rewrite Nat.sub_0_r. Qed.

Lemma NoDup_firstn {A} (n : nat) (l : list A) : NoDup l -> NoDup (firstn n l).
Proof.
  intros H. rewrite <- (firstn_skipn n l) in H.
  now apply NoDup_app_remove_r in H.
Qed.

Lemma chunks_one_group {A} (size : nat) (l : list A) :
  length l <= size ->
  chunks size l = match l with [] => [] | _ :: _ => [l] end.
Proof.
  intros Hle. unfold chunks. destruct l as [|a l]; [reflexivity |].
  cbn [length chunks_from].
  rewrite firstn_all2 by exact Hle. rewrite skipn_all2 by exact Hle.
  now destruct (length l).
Qed.

Lemma upsert_requests_app (a b : list Event) :
  upsert_requests (a ++ b) = upsert_requests a ++ upsert_requests b.
Proof. apply flat_map_app. Qed.

(** The batch the route probes: the first 200 of the harvest, as sorting
    left it. *)
Lemma targetBatch_facts (rw : RouteWorld) :
  Permutation (shuffled rw (scrapeSources (harvest rw)))
    (scrapeSources (harvest rw)) ->
  let targetBatch :=
    slice 0 sampleSize (shuffled rw (scrapeSources (harvest rw))) in
  length targetBatch = Nat.min sampleSize (length (scrapeSources (harvest rw))) /\
  NoDup targetBatch /\
  Forall (fun p => proxyRegex_test p = true) targetBatch.
Proof.
  intros Hperm targetBatch. subst targetBatch. rewrite slice_from_0.
  split; [| split].
  - rewrite length_firstn. now rewrite (Permutation_length Hperm).
  - apply NoDup_firstn.
    apply (Permutation_NoDup (Permutation_sym Hperm)).
    unfold scrapeSources. apply scrape_fold_NoDup. constructor.
  - apply Forall_forall. intros p Hp.
    assert (Hin : In p (scrapeSources (harvest rw))).
    { apply (Permutation_in _ Hperm).
      rewrite <- (firstn_skipn sampleSize (shuffled rw _)).
      apply in_or_app. now left. }
    apply scrapeSources_In in Hin.
    destruct Hin as (url & _ & data & line & _ & _ & _ & Htest).
    exact Htest.
Qed.

Lemma sync_POST_authorized_run (rw : RouteWorld) (fuel : nat)
    (request : Request) (st : State) :
  sampleSize <= fuel ->
  credentials_missing (engine rw) = false ->
  createClient_error (engine rw) = None ->
  authorized rw request = true ->
  let scraped := scrapeSources (harvest rw) in
  let nodes :=
    check_from (probes rw) 50 0 (slice 0 sampleSize (shuffled rw scraped)) in
  let active := length (filter ProxyNode.is_active nodes) in
  exists st1,
    syncToDatabase (engine rw) fuel nodes st = (Returns true, st1) /\
    sync_POST rw fuel request st
    = (Returns
         (Some (json
                  (SyncComplete (length scraped) sampleSize active
                     (date_now rw 1 - date_now rw 0))
                  200)),
       snd (insert_log (engine rw) LogRecord.INFO
              (sync_message (length scraped) sampleSize active) st1)) /\
    nexus_proxies st1
    = match upsert_error (engine rw) 0 with
      | Some _ => nexus_proxies st
      | None => upsert_rows nodes (nexus_proxies st)
      end /\
    upsert_requests (trace st1)
    = upsert_requests (trace st)
      ++ match nodes with [] => [] | _ :: _ => [nodes] end /\
    nexus_signals st1 = nexus_signals st /\
    nexus_logs st1 = nexus_logs st.
Proof.
  intros Hfuel Hm Hclient Hauth scraped nodes active.
  destruct (credentials_missing_false _ Hm) as [Hurl Hkey].
  assert (Hlen : length (slice 0 sampleSize (shuffled rw scraped)) <= sampleSize).
  { rewrite slice_from_0. apply firstn_le_length. }
  assert (Hnodes : length nodes <= sampleSize).
  { unfold nodes. now rewrite check_from_length. }
  assert (Hgroups : chunks chunkSize nodes
                    = match nodes with [] => [] | _ :: _ => [nodes] end).
  { apply chunks_one_group. unfold sampleSize, chunkSize in *. lia. }
  destruct (syncToDatabase_run (engine rw) fuel nodes st Hurl Hkey)
    as (st1 & Hrun & Hprox & Hreq & Hsig & Hlogs).
  { rewrite Hgroups. unfold sampleSize in Hfuel.
    destruct nodes; cbn [length]; lia. }
  exists st1. split; [exact Hrun |]. split; [| split; [| split; [| split]]].
  - unfold sync_POST. cbv zeta. rewrite Hm, Hauth. cbn [negb].
    unfold try_catch.
    rewrite (validateBatch_total (probes rw) _ 50 fuel);
      [| lia | exact (Nat.le_trans _ _ _ Hlen Hfuel)].
    fold scraped. fold nodes. unfold bind.
    rewrite createClient_built by exact Hclient. rewrite Hrun. cbn [negb].
    fold active. rewrite insert_log_returns. reflexivity.
  - rewrite Hprox, Hgroups. destruct nodes as [|n nodes'].
    + cbn [kept_rows upsert_rows fold_left].
      now destruct (upsert_error (engine rw) 0).
    + cbn [kept_rows]. destruct (upsert_error (engine rw) 0);
        [reflexivity | now rewrite app_nil_r].
  - now rewrite Hreq, Hgroups.
  - exact Hsig.
  - exact Hlogs.
Qed.

(** X18.  What the proxy sync route does with a request, within fuel for
    200 probes and whatever order sorting leaves the harvest in, in four
    cases that leave out none.  Without the store credentials it answers
    500.  With credentials that [createClient] refuses, as it does a URL
    that is not an http or https one, the handler throws that error before
    it looks at the key and gives no answer of its own.  Once the client is
    built, a request without the expected bearer key is answered 401.  In
    these three cases the route does nothing, not even log.  With the
    client built, a request with the key is answered 200 SYNC_COMPLETE,
    also when every source failed or the store refused the rows: it probes
    the first 200 proxies of the sorted harvest, or all if there are fewer,
    and reports [tested] as 200 either way; the probed nodes have distinct
    ids that match the ip:port pattern and go to the store in at most one
    request; [activeFound] counts the ACTIVE among them, whether or not the
    store took them; one INFO row with these numbers is added to the log.
    With the store URL not-a-url, the request of an operator with the right
    key makes the handler throw Invalid supabaseUrl. *)
Theorem sync_POST_answers (rw : RouteWorld) (fuel : nat) (request : Request)
    (st : State) :
  sampleSize <= fuel ->
  Permutation (shuffled rw (scrapeSources (harvest rw)))
    (scrapeSources (harvest rw)) ->
  let w := engine rw in
  let out := sync_POST rw fuel request st in
  let scraped := scrapeSources (harvest rw) in
  (credentials_missing w = true ->
   out = (Returns
            (Some (json (ErrorBody "CRITICAL: Database connection severed." None)
                     500)),
          st)) /\
  (credentials_missing w = false ->
   forall message,
     createClient_error w = Some message ->
     out = (Throws (ErrorObj message), st)) /\
  sync_POST (RouteScenarios.control_center Deployments.malformed) 200
    RouteScenarios.operator (Scenarios.start Deployments.malformed)
  = (Throws
       (ErrorObj "Invalid supabaseUrl: Must be a valid HTTP or HTTPS URL."),
     Scenarios.start Deployments.malformed) /\
  (credentials_missing w = false ->
   createClient_error w = None ->
   authorized rw request = false ->
   out = (Returns (Some (json (ErrorBody "UNAUTHORIZED_ACCESS" None) 401)), st)) /\
  (credentials_missing w = false ->
   createClient_error w = None ->
   authorized rw request = true ->
   exists nodes row,
     fst out
     = Returns
         (Some (json
                  (SyncComplete (length scraped) sampleSize
                     (length (filter ProxyNode.is_active nodes))
                     (date_now rw 1 - date_now rw 0))
                  200)) /\
     map ProxyNode.id nodes = firstn sampleSize (shuffled rw scraped) /\
     length nodes = Nat.min sampleSize (length scraped) /\
     length (filter ProxyNode.is_active nodes) <= length nodes /\
     NoDup (map ProxyNode.id nodes) /\
     Forall (fun n => proxyRegex_test (ProxyNode.id n) = true) nodes /\
     upsert_requests (trace (snd out))
     = upsert_requests (trace st)
       ++ match nodes with [] => [] | _ :: _ => [nodes] end /\
     nexus_proxies (snd out)
     = match upsert_error w 0 with
       | Some _ => nexus_proxies st
       | None => upsert_rows nodes (nexus_proxies st)
       end /\
     nexus_signals (snd out) = nexus_signals st /\
     LogRecord.level row = LogRecord.INFO /\
     LogRecord.message row
     = sync_message (length scraped) sampleSize
         (length (filter ProxyNode.is_active nodes)) /\
     nexus_logs (snd out)
     = nexus_logs st ++ (if insert_log_error w then [] else [row])).
Proof.
  intros Hfuel Hperm. cbv zeta. split; [| split; [| split; [| split]]].
  - intros Hm. unfold sync_POST. cbv zeta. now rewrite Hm.
  - intros Hm message Hclient. unfold sync_POST. cbv zeta. rewrite Hm.
    unfold bind. now rewrite (createClient_refused _ message).
  - vm_compute. reflexivity.
  - intros Hm Hclient Hauth. unfold sync_POST. cbv zeta. rewrite Hm, Hauth.
    unfold bind, try_catch. now rewrite createClient_built.
  - intros Hm Hclient Hauth.
    destruct (sync_POST_authorized_run rw fuel request st Hfuel Hm Hclient
                Hauth)
      as (st1 & _ & Hrun & Hprox & Hreq & Hsig & Hlogs).
    destruct (targetBatch_facts rw Hperm) as (Hlen & Hnd & Hre).
    rewrite Hrun. cbn [fst snd].
    match type of Hrun with
    | context [insert_log ?w ?l ?m ?s] =>
        destruct (insert_log_fields w l m s)
          as (_ & Hp2 & Hs2 & _ & _ & Ht2 & Hl2)
    end.
    eexists.
    exists (LogRecord.mk LogRecord.INFO
              (sync_message (length (scrapeSources (harvest rw))) sampleSize
                 (length
                    (filter ProxyNode.is_active
                       (check_from (probes rw) 50 0
                          (slice 0 sampleSize
                             (shuffled rw (scrapeSources (harvest rw))))))))
              (now (engine rw) (clock_reads st1))).
    split; [reflexivity |].
    rewrite Hp2, Hs2, Ht2, Hl2, upsert_requests_app, app_nil_r.
    rewrite Hprox, Hreq, Hsig, Hlogs.
    rewrite check_from_ids.
    split; [apply slice_from_0 |].
    split; [now rewrite check_from_length |].
    split; [apply filter_length_le |].
    split; [exact Hnd |].
    split.
    { apply Forall_forall. intros n Hn.
      rewrite Forall_forall in Hre. apply Hre.
      rewrite <- (check_from_ids (probes rw) 50 _ 0). now apply in_map. }
    repeat (split; [reflexivity |]). reflexivity.
Qed.

Lemma sync_POST_answers_witness :
  Routes.sampleSize <= 200 /\
  Permutation
    (shuffled (RouteScenarios.control_center SweepScenarios.healthy)
       (scrapeSources (harvest (RouteScenarios.control_center
                                  SweepScenarios.healthy))))
    (scrapeSources (harvest (RouteScenarios.control_center
                               SweepScenarios.healthy))) /\
  fst (sync_POST (RouteScenarios.control_center SweepScenarios.healthy) 200
         RouteScenarios.stranger (Scenarios.start SweepScenarios.healthy))
  = Returns (Some (json (ErrorBody "UNAUTHORIZED_ACCESS" None) 401)) /\
  exists nodes,
    fst (sync_POST (RouteScenarios.control_center SweepScenarios.healthy) 200
           RouteScenarios.operator (Scenarios.start SweepScenarios.healthy))
    = Returns
        (Some (json
                 (SyncComplete 2 200
                    (length (filter ProxyNode.is_active nodes)) 2500)
                 200)) /\
    length nodes = 2.
Proof.
  assert (Hfuel : Routes.sampleSize <= 200) by (unfold sampleSize; lia).
  assert (Hperm :
    Permutation
      (shuffled (RouteScenarios.control_center SweepScenarios.healthy)
         (scrapeSources (harvest (RouteScenarios.control_center
                                    SweepScenarios.healthy))))
      (scrapeSources (harvest (RouteScenarios.control_center
                                 SweepScenarios.healthy))))
    by (apply Permutation_sym, Permutation_rev).
  split; [exact Hfuel |]. split; [exact Hperm |].
  destruct (sync_POST_answers
              (RouteScenarios.control_center SweepScenarios.healthy) 200
              RouteScenarios.operator (Scenarios.start SweepScenarios.healthy)
              Hfuel Hperm) as (_ & _ & _ & _ & Hok).
  destruct (sync_POST_answers
              (RouteScenarios.control_center SweepScenarios.healthy) 200
              RouteScenarios.stranger (Scenarios.start SweepScenarios.healthy)
              Hfuel Hperm) as (_ & _ & _ & Hno & _).
  split; [now rewrite (Hno eq_refl eq_refl eq_refl) |].
  destruct (Hok eq_refl eq_refl eq_refl) as (nodes & row & Hr & _ & Hlen & _).
  exists nodes. split; [exact Hr | exact Hlen].
Defined.

End SyncRoute.

Section ExecuteRouteFacts.

Import Routes.

Lemma update_eq_id_rows (signalId : string) (table : list MarketSignal.t) :
  Forall2
    (fun old new =>
       new = old \/
       MarketSignal.id old = signalId /\ new = ExecuteRoute.executed old)
    table (ExecuteRoute.update_eq_id signalId table).
Proof.
  induction table as [|s table IH]; cbn [ExecuteRoute.update_eq_id map];
    constructor; [| exact IH].
  destruct (String.eqb_spec (MarketSignal.id s) signalId); [right | left];
    now repeat split.
Qed.

Lemma update_eq_id_absent (signalId : string) (table : list MarketSignal.t) :
  (forall s, In s table -> MarketSignal.id s <> signalId) ->
  ExecuteRoute.update_eq_id signalId table = table.
Proof.
  induction table as [|s table IH]; intros H; [reflexivity |].
  cbn [ExecuteRoute.update_eq_id map].
  destruct (String.eqb_spec (MarketSignal.id s) signalId) as [E | _].
  - exfalso. apply (H s); [now left | exact E].
  - f_equal. apply IH. intros s' Hs'. apply H. now right.
Qed.

Lemma Forall2_same {A} (R : A -> A -> Prop) (l : list A) :
  (forall x, R x x) -> Forall2 R l l.
Proof. intros H. induction l; constructor; trivial. Qed.

End ExecuteRouteFacts.

Section ExecuteRouteExtras.

Import Routes.

(** X19.  The execute route changes nothing in [nexus_signals] but the
    status of rows whose id is the [signalId] of the request, which becomes
    EXECUTED: it adds no row, drops none, and touches no other field.  When
    a row has changed, the request was answered 200 SUCCESS with a
    transaction id, and either no Stripe key is configured, the payment is
    simulated and the id is sim_tx_ followed by the clock reading, or
    Stripe answered the payment of the request's price with that id.  When
    Stripe declines, the answer is 500 EXECUTION_FAILURE with Stripe's
    message, and no row changes. *)
Theorem execute_POST_marks_only_what_was_paid (rw : RouteWorld)
    (request : Request) (st : ExecuteRoute.ExecState) :
  let resp := fst (ExecuteRoute.POST rw request st) in
  let st' := snd (ExecuteRoute.POST rw request st) in
  Forall2
    (fun old new =>
       new = old \/
       exists price,
         request_json request = JsonBody (Some (MarketSignal.id old)) price /\
         new = ExecuteRoute.executed old)
    (ExecuteRoute.signals st) (ExecuteRoute.signals st') /\
  (ExecuteRoute.signals st' <> ExecuteRoute.signals st ->
   exists signalId price tx,
     request_json request = JsonBody (Some signalId) price /\
     ExecuteRoute.signals st'
     = ExecuteRoute.update_eq_id signalId (ExecuteRoute.signals st) /\
     resp = json (ExecSuccess tx) 200 /\
     (ExecuteRoute.stripeKey rw = "sk_test_dummy" /\
      tx = ("sim_tx_" ++ integer_toString (date_now rw 0))%string \/
      ExecuteRoute.stripeKey rw <> "sk_test_dummy" /\
      paymentIntents_create rw price = PaymentIntent tx /\
      In (ExecuteRoute.CallStripe price (PaymentIntent tx))
        (ExecuteRoute.calls st'))) /\
  (forall price declined,
     In (ExecuteRoute.CallStripe price (StripeFails declined))
       (ExecuteRoute.calls st') ->
     ~ In (ExecuteRoute.CallStripe price (StripeFails declined))
         (ExecuteRoute.calls st) ->
     resp = json (ErrorBody "EXECUTION_FAILURE" (Some declined)) 500 /\
     ExecuteRoute.signals st' = ExecuteRoute.signals st).
Proof.
  cbv zeta.
  assert (Hsame : forall l : list MarketSignal.t,
            Forall2
              (fun old new =>
                 new = old \/
                 exists price,
                   request_json request
                   = JsonBody (Some (MarketSignal.id old)) price /\
                   new = ExecuteRoute.executed old) l l)
    by (intros l; apply Forall2_same; now left).
  execute_paths rw request; (split; [| split]).
  all: try apply Hsame.
  all: try (intros Hne; now contradiction Hne).
  all: try (intros p d Hin Hnot; in_calls Hin;
            try (now contradiction Hnot); try discriminate;
            injection Hin as _ <-; now split).
  all: try (eapply Forall2_impl; [| apply update_eq_id_rows];
            intros old new [-> | [<- ->]];
            [now left | right; now exists price]).
  - (* a simulated payment *)
    intros _. exists (String a signalId), price. eexists.
    repeat (split; [reflexivity |]). left. split; [| reflexivity].
    now apply String.eqb_eq.
  - (* a payment Stripe accepted *)
    intros _. exists (String a signalId), price, tx.
    repeat (split; [reflexivity |]). right.
    split; [now apply String.eqb_neq |]. split; [exact Hstripe |].
    repeat (apply in_or_app; first [right; now left | left]).
Qed.

End ExecuteRouteExtras.

Section ExecuteRouteStore.

Import Routes.

(** X20.  The execute route never reads the store: its answer is the same
    over any two states of the tables, and so are the requests it sends
    when the clock reads the same.  It does not check that the signal
    exists, that it is still PENDING, or what it is listed at: a request for
    an id that no row has is answered like any other, 200 SUCCESS when the
    payment goes through, and leaves the rows as they were.  The three
    refusals (500 without the store credentials, 401 without the expected
    bearer key, 400 without a signal id) send nothing and log nothing. *)
Theorem execute_POST_never_reads_the_store (rw : RouteWorld)
    (request : Request) (st1 st2 : ExecuteRoute.ExecState) :
  fst (ExecuteRoute.POST rw request st1) = fst (ExecuteRoute.POST rw request st2) /\
  (ExecuteRoute.clock st1 = ExecuteRoute.clock st2 ->
   exists sent,
     ExecuteRoute.calls (snd (ExecuteRoute.POST rw request st1))
     = ExecuteRoute.calls st1 ++ sent /\
     ExecuteRoute.calls (snd (ExecuteRoute.POST rw request st2))
     = ExecuteRoute.calls st2 ++ sent) /\
  (forall signalId price,
     request_json request = JsonBody (Some signalId) price ->
     (forall s, In s (ExecuteRoute.signals st1) ->
                MarketSignal.id s <> signalId) ->
     ExecuteRoute.signals (snd (ExecuteRoute.POST rw request st1))
     = ExecuteRoute.signals st1) /\
  (forall error,
     body (fst (ExecuteRoute.POST rw request st1)) = ErrorBody error None ->
     snd (ExecuteRoute.POST rw request st1) = st1).
Proof.
  execute_paths rw request; (split; [reflexivity |]); (split; [| split]).
  all: try (intros Hclock; rewrite ?Hclock; rewrite <- ?app_assoc;
            first [ eexists; split; reflexivity
                  | exists []; now rewrite !app_nil_r ]).
  all: try (intros error Hbody; first [reflexivity | discriminate]).
  all: try (intros id p Hid Habsent; first [reflexivity | discriminate]).
  all: intros id p Hid Habsent; injection Hid as <- _;
    now apply update_eq_id_absent.
Qed.

End ExecuteRouteStore.

(* ===================================================================== *)
(** ** From the probes to the proxy the hunter picks *)
(* ===================================================================== *)

Section ProbeSyncPick.

Import ProxyCommander.






End ProbeSyncPick.

Section ProbeTermination.

Import ProxyCommander.

(** X22.  [validateBatch] returns exactly when the width of its groups is
    positive or the batch is empty: with a width of 0 on a batch that is
    not empty, the index never moves and the loop does not end, whatever
    the number of rounds it is given. *)
Theorem validateBatch_ends_iff (pw : ProbeWorld) (proxies : list string)
    (concurrency : nat) :
  ((exists fuel nodes,
      validateBatch pw fuel proxies concurrency = Some nodes) <->
   0 < concurrency \/ proxies = []) /\
  (concurrency = 0 -> proxies <> [] ->
   forall fuel, validateBatch pw fuel proxies concurrency = None).
Proof.
  split; [split |].
  - intros (fuel & nodes & Hrun).
    destruct concurrency as [|c]; [| left; lia].
    destruct proxies as [|p proxies]; [now right |].
    rewrite validateBatch_zero_width in Hrun. discriminate.
  - intros [Hpos | ->].
    + exists (length proxies), (check_from pw concurrency 0 proxies).
      now apply validateBatch_total.
    + exists 0, []. reflexivity.
  - intros -> Hne fuel. destruct proxies as [|p proxies];
      [now contradiction Hne | apply validateBatch_zero_width].
Qed.

End ProbeTermination.

Section RouteExamples.

Import Routes.

(** A sweep that cannot reach eBay is still answered 200, with no signal. *)
Example sweep_POST_of_a_failed_sweep :
  fst (sweep_POST (RouteScenarios.control_center Scenarios.unreachable)
         RouteScenarios.operator (Scenarios.start Scenarios.unreachable))
  = Returns (json (SweepComplete 0 2500 []) 200).
Proof. vm_compute. reflexivity. Qed.

(** A sweep whose insert the store refuses is answered 200 with no signal,
    although a listing was admitted. *)
Example sweep_POST_of_a_refused_insert :
  fst (sweep_POST (RouteScenarios.control_center SweepScenarios.insert_refused)
         RouteScenarios.operator (Scenarios.start SweepScenarios.insert_refused))
  = Returns (json (SweepComplete 0 2500 []) 200).
Proof. vm_compute. reflexivity. Qed.

(** Executing a signal that no row stands for succeeds, with a simulated
    transaction. *)
Example execute_POST_of_an_unknown_signal :
  fst (ExecuteRoute.POST (RouteScenarios.control_center SweepScenarios.healthy)
         RouteScenarios.operator (ExecuteRoute.mkExec [] [] 0 []))
  = json (ExecSuccess "sim_tx_1700000000000") 200.
Proof. vm_compute. reflexivity. Qed.

(** With a live key and a declined card the signal stays PENDING. *)
Example execute_POST_of_a_declined_payment :
  let signal :=
    signal_of SweepScenarios.gucci_bag "Gucci" "2024-01-01T00:00:00.000Z" in
  let out :=
    ExecuteRoute.POST
      (RouteScenarios.live SweepScenarios.healthy (Some "Your card was declined."))
      RouteScenarios.operator (ExecuteRoute.mkExec [signal] [] 0 []) in
  fst out
  = json (ErrorBody "EXECUTION_FAILURE" (Some "Your card was declined.")) 500 /\
  map MarketSignal.status (ExecuteRoute.signals (snd out))
  = [MarketSignal.PENDING].
Proof. vm_compute. split; reflexivity. Qed.

(** With a live key and an accepted payment the signal is EXECUTED. *)
Example execute_POST_of_a_payment :
  let signal :=
    signal_of SweepScenarios.gucci_bag "Gucci" "2024-01-01T00:00:00.000Z" in
  let out :=
    ExecuteRoute.POST (RouteScenarios.live SweepScenarios.healthy None)
      RouteScenarios.operator (ExecuteRoute.mkExec [signal] [] 0 []) in
  fst out = json (ExecSuccess "pi_3Nexus") 200 /\
  map MarketSignal.status (ExecuteRoute.signals (snd out))
  = [MarketSignal.EXECUTED].
Proof. vm_compute. split; reflexivity. Qed.

End RouteExamples.

Section SubstringExamples.

Import NexusHunter.

(** [substring] counts code units, not bytes: two units of the two
    characters of five bytes are both of them; three units of a letter and
    a character outside the basic plane are both, and two units are the
    letter and the high surrogate D83D on its own. *)
Example substring_to_counts_code_units :
  substring_to 2 (e_acute ++ euro_sign ++ "x") = (e_acute ++ euro_sign)%string /\
  substring_to 3 ("a" ++ grinning_face ++ "b") = ("a" ++ grinning_face)%string /\
  substring_to 2 ("a" ++ grinning_face ++ "b")
  = String "a"
      (String (ascii_of_nat 237)
         (String (ascii_of_nat 160) (String (ascii_of_nat 189) EmptyString))) /\
  substring_to 500 "<html></html>" = "<html></html>".
Proof. vm_compute. repeat split. Qed.

(** The bypass of a page that is not eBay's hands back the first 500 code
    units of its content, followed by three dots. *)
Example scrapeWithPlaywright_of_another_site :
  let w :=
    Scenarios.world_of (fun _ => Scenarios.forbidden)
      (fun _ => PageContent (e_acute ++ "<html></html>") None) in
  fst (scrapeWithPlaywright w "https://www.vestiairecollective.com/search"
         (Scenarios.start w))
  = Returns
      (Some (Payload.mk None (Some (e_acute ++ "<html></html>...")%string))).
Proof. vm_compute. reflexivity. Qed.

End SubstringExamples.
